(** * Streaming PNG decoder of gofpdf (png.go): a shallow embedding

    The Go code is a chain of readers: [pngStream] parses the PNG container
    and hands out the IDAT payload, [alphaSeparator] splits a decompressed
    scanline stream into colour bytes and alpha bytes, and [parsepngstream]
    assembles the image descriptor.  The embedding keeps Go's conventions:
    a function returns its values together with an [error] value (nil is
    [None]); a run-time panic (index or slice bound out of range) aborts the
    computation; the receiver is threaded explicitly as state. *)

From Stdlib Require Import ZArith Bool Lia.
From Stdlib Require Import Strings.Ascii Strings.String Strings.Byte.
From Stdlib Require Import DecimalString.
From Stdlib Require Import PrimFloat Uint63.
From Stdlib Require Import List.
Import ListNotations.

Open Scope Z_scope.
Set Warnings "-inexact-float".

(** ** Go values: bytes, lengths, errors, panics *)

Definition byte_to_Z (b : byte) : Z := Z.of_N (Byte.to_N b).

Definition len {A : Type} (l : list A) : Z := Z.of_nat (List.length l).

(** [fmt.Sprintf "%d"] on a non-negative integer. *)
Definition sprintf_d (z : Z) : string :=
  NilEmpty.string_of_uint (N.to_uint (Z.to_N z)).

(** [error]: the two sentinel values of package io, and errors built by
    [fmt.Errorf] (the format errors of the decoder). *)
Inductive error : Type :=
| EOF
| ErrUnexpectedEOF
| Errorf (msg : string).

Inductive panic : Type :=
| IndexOutOfRange (i : Z) (length : Z)
| SliceBoundsOutOfRange (hi : Z) (capacity : Z)
| DivideByZero.

(** Outcome of running a method on a receiver of type [S]: it returns [a]
    and leaves the receiver as [s], or it panics.  [OutOfFuel] is the
    model's own: a loop used up the iterations it was given. *)
Inductive result (S A : Type) : Type :=
| Done (a : A) (s : S)
| Panic (e : panic)
| OutOfFuel.
Arguments Done {S A} a s.
Arguments Panic {S A} e.
Arguments OutOfFuel {S A}.

Definition M (S A : Type) : Type := S -> result S A.

Definition ret {S A : Type} (a : A) : M S A := fun s => Done a s.

Definition bind {S A B : Type} (m : M S A) (k : A -> M S B) : M S B :=
  fun s => match m s with
           | Done a s' => k a s'
           | Panic e => Panic e
           | OutOfFuel => OutOfFuel
           end.

Definition get {S : Type} : M S S := fun s => Done s s.
Definition modify {S : Type} (f : S -> S) : M S unit := fun s => Done tt (f s).
Definition throw {S A : Type} (e : panic) : M S A := fun _ => Panic e.

Declare Scope go_scope.
Delimit Scope go_scope with go.
Notation "x <- m ;; k" := (bind m (fun x => k))
  (at level 100, m at next level, right associativity) : go_scope.
Notation "' pat <- m ;; k" := (bind m (fun x => match x with pat => k end))
  (at level 100, pat pattern, m at next level, right associativity) : go_scope.
Notation "m ;;; k" := (bind m (fun _ => k))
  (at level 100, right associativity) : go_scope.
Open Scope go_scope.

(** [if err != nil { return err }] *)
Definition guard {S : Type} (err : option error) (k : M S (option error))
  : M S (option error) :=
  match err with
  | Some e => ret (Some e)
  | None => k
  end.

(** [io.ReadAll] over a reader given by its [Read] method: read until an
    error; end of stream is the regular end. *)
Fixpoint ReadAll {S : Type} (read : M S (list byte * option error)) (fuel : nat)
  : M S (list byte * option error) :=
  match fuel with
  | O => fun _ => OutOfFuel
  | S fuel' =>
      '(bs, err) <- read ;;
      match err with
      | Some EOF => ret (bs, None)
      | Some e => ret (bs, Some e)
      | None => '(rest, err) <- ReadAll read fuel' ;; ret (bs ++ rest, err)
      end
  end.

(** ** io.Reader

    The byte source is an in-memory reader (bytes.Reader): what is left of
    the input; a read hands out a prefix and fails with [EOF] only when
    nothing is left. *)
Definition Reader : Type := list byte.

(** [r.Read(buf)] with [len(buf) = n]. *)
Definition Reader_Read (rd : Reader) (n : Z) : (list byte * option error) * Reader :=
  match rd with
  | [] => (([], Some EOF), rd)
  | _ => let k := Z.to_nat (Z.min n (len rd)) in
         ((firstn k rd, None), skipn k rd)
  end.

(** [io.ReadFull(r, buf)] with [len(buf) = n]: exactly [n] bytes or an
    error; [EOF] when no byte was read, [ErrUnexpectedEOF] when the source
    ended after some but not all of them. *)
Definition ReadFull (rd : Reader) (n : Z) : (list byte * option error) * Reader :=
  if n <=? 0 then (([], None), rd)
  else match rd with
       | [] => (([], Some EOF), rd)
       | _ => if len rd <? n then ((rd, Some ErrUnexpectedEOF), [])
              else ((firstn (Z.to_nat n) rd, None), skipn (Z.to_nat n) rd)
       end.

(** Writing [bs] at the front of a buffer that held [old]. *)
Definition fill (bs old : list byte) : list byte := bs ++ skipn (List.length bs) old.

(** [binary.BigEndian.Uint32] *)
Definition BigEndian_Uint32 (b : list byte) : Z :=
  Z.lor (Z.lor (Z.lor (byte_to_Z (nth 3 b x00))
                      (Z.shiftl (byte_to_Z (nth 2 b x00)) 8))
               (Z.shiftl (byte_to_Z (nth 1 b x00)) 16))
        (Z.shiftl (byte_to_Z (nth 0 b x00)) 24).

(** [uint32] arithmetic wraps modulo 2^32, [int] is the 64-bit signed type. *)
Definition uint32 (z : Z) : Z := z mod 2 ^ 32.
Definition int (z : Z) : Z := (z + 2 ^ 63) mod 2 ^ 64 - 2 ^ 63.

(** [float64(x)] for an unsigned 32-bit [x] (exact). *)
Definition float64 (x : Z) : float := PrimFloat.of_uint63 (Uint63.of_Z x).

(** [strings.Index(string(t), "\x00")] *)
Fixpoint index_zero (t : list byte) : Z :=
  match t with
  | [] => -1
  | b :: t' => if Byte.eqb b x00 then 0
               else let i := index_zero t' in if i <? 0 then -1 else i + 1
  end.

(** ** pngStream *)

Definition pngSignature : string :=
  string_of_list_byte [x89; x50; x4e; x47; x0d; x0a; x1a; x0a].

Definition stateInit : Z := 0.
Definition stateSignature : Z := 1.
Definition stateHeader : Z := 2.
Definition stateAnc : Z := 3.
Definition stateData : Z := 4.
Definition stateEnd : Z := 5.

Module Png.

(** The struct, without its unused fields ([available], [tmp], [off]). *)
Record pngStream : Type := mk {
  r : Reader;
  state : Z;
  readable : Z;
  buf : list byte;
  trns : list Z;
  pal : list byte;
  readdpi : bool;
  dpi : float;
  w : Z;
  h : Z;
  bpc : byte;
  ct : byte
}.

Definition set_r v p := mk v (state p) (readable p) (buf p) (trns p) (pal p) (readdpi p) (dpi p) (w p) (h p) (bpc p) (ct p).
Definition set_state v p := mk (r p) v (readable p) (buf p) (trns p) (pal p) (readdpi p) (dpi p) (w p) (h p) (bpc p) (ct p).
Definition set_readable v p := mk (r p) (state p) v (buf p) (trns p) (pal p) (readdpi p) (dpi p) (w p) (h p) (bpc p) (ct p).
Definition set_buf v p := mk (r p) (state p) (readable p) v (trns p) (pal p) (readdpi p) (dpi p) (w p) (h p) (bpc p) (ct p).
Definition set_trns v p := mk (r p) (state p) (readable p) (buf p) v (pal p) (readdpi p) (dpi p) (w p) (h p) (bpc p) (ct p).
Definition set_pal v p := mk (r p) (state p) (readable p) (buf p) (trns p) v (readdpi p) (dpi p) (w p) (h p) (bpc p) (ct p).
Definition set_dpi v p := mk (r p) (state p) (readable p) (buf p) (trns p) (pal p) (readdpi p) v (w p) (h p) (bpc p) (ct p).
Definition set_w v p := mk (r p) (state p) (readable p) (buf p) (trns p) (pal p) (readdpi p) (dpi p) v (h p) (bpc p) (ct p).
Definition set_h v p := mk (r p) (state p) (readable p) (buf p) (trns p) (pal p) (readdpi p) (dpi p) (w p) v (bpc p) (ct p).
Definition set_bpc v p := mk (r p) (state p) (readable p) (buf p) (trns p) (pal p) (readdpi p) (dpi p) (w p) (h p) v (ct p).
Definition set_ct v p := mk (r p) (state p) (readable p) (buf p) (trns p) (pal p) (readdpi p) (dpi p) (w p) (h p) (bpc p) v.

(** [len(p.buf)], the array [[3 << 8]byte]. *)
Definition buf_len : Z := Z.shiftl 3 8.

(** [&pngStream{r: r, readdpi: readdpi}] *)
Definition new (rd : Reader) (readdpi : bool) : pngStream :=
  mk rd stateInit 0 (repeat x00 (Z.to_nat buf_len)) [] [] readdpi 0%float 0 0 x00 x00.

(** [io.ReadFull(p.r, dst)] into a destination of [n] bytes that is a prefix
    of the scratch array [p.buf]. *)
Definition readFull_buf (n : Z) : M pngStream (Z * option error) := fun p =>
  let '((bs, err), rd') := ReadFull (r p) n in
  Done (len bs, err) (set_buf (fill bs (buf p)) (set_r rd' p)).

Definition next (n : Z) : M pngStream (Z * option error) :=
  '(n, err) <- readFull_buf n ;;
  match err with
  | Some ErrUnexpectedEOF => ret (0, Some EOF)
  | _ => ret (n, err)
  end.

Definition readByte : M pngStream (byte * option error) :=
  '(_, err) <- next 1 ;;
  match err with
  | Some e => ret (x00, Some e)
  | None => p <- get ;; ret (nth 0 (buf p) x00, None)
  end.

Definition readBeUint32 : M pngStream (Z * option error) :=
  '(n, err) <- next 4 ;;
  match err with
  | Some e => ret (0, Some e)
  | None => p <- get ;; ret (BigEndian_Uint32 (firstn (Z.to_nat n) (buf p)), None)
  end.

Definition readString (n : Z) : M pngStream (string * option error) :=
  '(n, err) <- next n ;;
  match err with
  | Some e => ret (EmptyString, Some e)
  | None => p <- get ;; ret (string_of_list_byte (firstn (Z.to_nat n) (buf p)), None)
  end.

Definition parseSignature : M pngStream (option error) :=
  modify (set_state stateSignature) ;;;
  '(sign, err) <- readString (Z.of_nat (String.length pngSignature)) ;;
  guard err
    (if negb (String.eqb sign pngSignature)
     then ret (Some (Errorf "not a PNG buffer"))
     else ret None).

Definition parseHeader : M pngStream (option error) :=
  '(v, err) <- readBeUint32 ;; modify (set_w v) ;;; guard err (
  '(v, err) <- readBeUint32 ;; modify (set_h v) ;;; guard err (
  '(v, err) <- readByte ;; modify (set_bpc v) ;;; guard err (
  p <- get ;;
  if byte_to_Z (bpc p) >? 8
  then ret (Some (Errorf "16-bit depth not supported in PNG file"))
  else
  '(v, err) <- readByte ;; modify (set_ct v) ;;; guard err (
  '(b, err) <- readByte ;; guard err (
  if negb (byte_to_Z b =? 0)
  then ret (Some (Errorf "'unknown compression method in PNG buffer"))
  else
  '(b, err) <- readByte ;; guard err (
  if negb (byte_to_Z b =? 0)
  then ret (Some (Errorf "'unknown filter method in PNG buffer"))
  else
  '(b, err) <- readByte ;; guard err (
  if negb (byte_to_Z b =? 0)
  then ret (Some (Errorf "interlacing not supported in PNG buffer"))
  else ret None))))))).

(** [make([]byte, n)] followed by [io.ReadFull(p.r, t)]: the slice as it is
    after the call (zero where nothing was read), and the error. *)
Definition readFull_new (n : Z) : M pngStream (list byte * option error) := fun p =>
  let '((bs, err), rd') := ReadFull (r p) n in
  Done (bs ++ repeat x00 (Z.to_nat (n - len bs)), err) (set_r rd' p).

Definition parsePalette : M pngStream (option error) :=
  p <- get ;;
  '(t, err) <- readFull_new (readable p) ;;
  modify (set_pal t) ;;;
  ret err.

(** [t[i]] *)
Definition at_index (t : list byte) (i : Z) : M pngStream Z :=
  if i <? len t then ret (byte_to_Z (nth (Z.to_nat i) t x00))
  else throw (IndexOutOfRange i (len t)).

Definition parsetRNS : M pngStream (option error) :=
  p <- get ;;
  '(t, err) <- readFull_new (readable p) ;;
  guard err (
    (if byte_to_Z (ct p) =? 0 then
       a <- at_index t 1 ;;
       modify (set_trns [a])
     else if byte_to_Z (ct p) =? 2 then
       a <- at_index t 1 ;;
       b <- at_index t 3 ;;
       c <- at_index t 5 ;;
       modify (set_trns [a; b; c])
     else
       let pos := index_zero t in
       if pos >=? 0 then modify (set_trns [pos]) else ret tt) ;;;
    ret None).

Definition parsepHYs : M pngStream (option error) :=
  '(x, err) <- readBeUint32 ;; guard err (
  '(y, err) <- readBeUint32 ;; guard err (
  '(units, err) <- readByte ;; guard err (
  p <- get ;;
  (if (x =? y) && readdpi p then
     if byte_to_Z units =? 1
     then modify (set_dpi (float64 x / 39.3701)%float)
     else modify (set_dpi (float64 x))
   else ret tt) ;;;
  ret None))).

Fixpoint ignoreChunk_loop (fuel : nat) (n : Z) : M pngStream (option error) :=
  if n >? 0 then
    match fuel with
    | O => fun _ => OutOfFuel
    | S fuel' =>
        '(m, err) <- readFull_buf (Z.min n buf_len) ;;
        guard err (ignoreChunk_loop fuel' (n - m))
    end
  else ret None.

(** Every round of the loop takes at least one byte from the source. *)
Definition ignoreChunk (n : Z) : M pngStream (option error) := fun p =>
  ignoreChunk_loop (S (List.length (r p))) n p.

(** The [IDAT] case returns at once; the other cases fall through to the
    checksum. *)
Definition parseChunk : M pngStream (option error) :=
  '(v, err) <- readBeUint32 ;; modify (set_readable v) ;;; guard err (
  '(ct, err) <- readString 4 ;; guard err (
  if String.eqb ct "IDAT" then
    modify (set_state stateData) ;;; ret None
  else
    err <- (if String.eqb ct "IHDR" then
              modify (set_state stateHeader) ;;; parseHeader
            else if String.eqb ct "PLTE" then
              modify (set_state stateAnc) ;;; parsePalette
            else if String.eqb ct "tRNS" then
              modify (set_state stateAnc) ;;; parsetRNS
            else if String.eqb ct "pHYs" then
              modify (set_state stateAnc) ;;; parsepHYs
            else if String.eqb ct "IEND" then
              modify (set_state stateEnd) ;;; ret None
            else
              p <- get ;; ignoreChunk (int (readable p))) ;;
    guard err (
      '(_, err) <- next 4 ;;
      ret err))).

Fixpoint parseUntil_loop (fuel : nat) (st : Z) : M pngStream (option error) :=
  fun p =>
    if state p <? st then
      match fuel with
      | O => OutOfFuel
      | S fuel' => (err <- parseChunk ;; guard err (parseUntil_loop fuel' st)) p
      end
    else Done None p.

(** Every chunk parsed without error takes at least eight bytes from the
    source. *)
Definition parseUntil (st : Z) : M pngStream (option error) :=
  p <- get ;;
  err <- (if state p =? stateInit then parseSignature else ret None) ;;
  guard err (fun p => parseUntil_loop (S (List.length (r p))) st p).

Fixpoint Read_loop (fuel : nat) : M pngStream (option error) :=
  fun p =>
    if readable p =? 0 then
      match fuel with
      | O => OutOfFuel
      | S fuel' => (err <- parseChunk ;; guard err (Read_loop fuel')) p
      end
    else Done None p.

Definition overflow : error := Errorf "IDAT chunk length overflow".

(** [p.Read(buf)] with [len(buf) = buflen]; the bytes returned are
    [buf[:n]]. *)
Definition Read (buflen : Z) : M pngStream (list byte * option error) :=
  p <- get ;;
  if state p >? stateData then ret ([], Some EOF) else
  err <- parseUntil stateData ;;
  match err with
  | Some e => ret ([], Some e)
  | None =>
    p <- get ;;
    if readable p <? 0 then ret ([], Some overflow) else
    err <- (fun p => Read_loop (S (List.length (r p))) p) ;;
    match err with
    | Some e => ret ([], Some e)
    | None =>
      p <- get ;;
      let '((bs, err), rd') := Reader_Read (r p) (Z.min buflen (int (readable p))) in
      modify (set_r rd') ;;;
      modify (set_readable (uint32 (readable p - uint32 (len bs)))) ;;;
      p <- get ;;
      if readable p <=? 0 then
        '(_, err) <- next 4 ;;
        ret (bs, err)
      else ret (bs, err)
    end
  end.

End Png.

(** ** alphaSeparator *)

(** A caller's buffer: [len(buf)] and [cap(buf)]. *)
Record slice : Type := mkSlice { slen : Z; scap : Z }.

Module Alpha.

(** [alpha] and [writer] are one object here: [writer] holds, in order, the
    bytes written to the zlib writer; what the buffer [alpha] exposes is
    derived from it on [Flush]. *)
Record alphaSeparator : Type := mk {
  rc : Reader;
  w : Z;
  h : Z;
  chs : Z;
  stride : Z;
  writer : list byte;
  off : Z
}.

Definition set_rc v a := mk v (w a) (h a) (chs a) (stride a) (writer a) (off a).
Definition set_writer v a := mk (rc a) (w a) (h a) (chs a) (stride a) v (off a).
Definition set_off v a := mk (rc a) (w a) (h a) (chs a) (stride a) (writer a) v.

Definition newAlphaSeparator (rc : Reader) (w h chs : Z) : alphaSeparator :=
  mk rc w h chs (int (1 + int (int (chs + 1) * w))) [] 0.

(** [writer.Write(bs)]; a zlib writer over a [bytes.Buffer] does not fail. *)
Definition Write (bs : list byte) : M alphaSeparator (option error) :=
  a <- get ;; modify (set_writer (writer a ++ bs)) ;;; ret None.

Definition readPaletteIndex (b : slice) : M alphaSeparator (list byte * option error) :=
  if 1 >? scap b then throw (SliceBoundsOutOfRange 1 (scap b)) else
  a <- get ;;
  let '((bs, err), rd') := ReadFull (rc a) 1 in
  modify (set_rc rd') ;;;
  match err with
  | Some e => ret ([], Some e)
  | None =>
      modify (set_off (int (off a + len bs))) ;;;
      err <- Write (firstn 1 bs) ;;
      ret (bs, err)
  end.

(** [a.Read(buf)]; the bytes returned are [buf[:n]] for the [n] of the Go
    code. *)
Definition Read (b : slice) : M alphaSeparator (list byte * option error) :=
  if slen b =? 0 then ret ([], None) else
  a <- get ;;
  if off a >=? int (h a * stride a) then ret ([], Some EOF) else
  if stride a =? 0 then throw DivideByZero else
  let j := Z.rem (off a) (stride a) in
  if j =? 0 then readPaletteIndex b else
  let chs1 := int (chs a + 1) in
  if chs1 =? 0 then throw DivideByZero else
  let c := Z.rem (int (j - 1)) chs1 in
  let hi := int (chs1 - c) in
  if (hi <? 0) || (hi >? scap b) then throw (SliceBoundsOutOfRange hi (scap b)) else
  let '((bs, err), rd') := ReadFull (rc a) hi in
  modify (set_rc rd') ;;;
  modify (set_off (int (off a + len bs))) ;;;
  match err with
  | Some e => ret (bs, Some e)
  | None =>
      let lo := int (chs a - c) in
      if (lo <? 0) || (lo >? hi) then throw (SliceBoundsOutOfRange lo hi) else
      err <- Write (firstn (Z.to_nat (hi - lo)) (skipn (Z.to_nat lo) bs)) ;;
      ret (firstn (Z.to_nat (len bs - 1)) bs, err)
  end.

End Alpha.

(** ** zlib, and the stages built on it

    [compress/zlib] is a library of its own; the pipeline only relies on it
    being a codec. *)
Section Zlib.

Variable deflate : list byte -> list byte.
Variable inflate : list byte -> list byte.

(** [a.Flush()]: the contents of the buffer [alpha] once the writer is
    flushed. *)
Definition Alpha_Flush (a : Alpha.alphaSeparator) : list byte :=
  deflate (Alpha.writer a).

(** Modelled from the spec: newCompressor is declared outside png.go.  The
    Recompressor "re-deflates the deinterleaved color byte stream": it reads
    the separator to its end through a buffer [b] and deflates the bytes it
    was given. *)
Definition compressor_readAll (fuel : nat) (b : slice)
  : M Alpha.alphaSeparator (list byte * option error) :=
  '(bs, err) <- ReadAll (Alpha.Read b) fuel ;;
  ret (deflate bs, err).

End Zlib.

(** ** Pipeline assembly *)

(** The part of [Fpdf] that png.go touches. *)
Record Fpdf : Type := mkFpdf { err : option error; pdfVersion : string }.

Definition pngColorSpace (ct : byte) : M Fpdf (string * Z) := fun f =>
  let ct := byte_to_Z ct in
  if (ct =? 0) || (ct =? 4) then Done ("DeviceGray"%string, 1) f
  else if (ct =? 2) || (ct =? 6) then Done ("DeviceRGB"%string, 3) f
  else if ct =? 3 then Done ("Indexed"%string, 1) f
  else Done (EmptyString, 1)
            (mkFpdf (Some (Errorf ("unknown color type in PNG buffer: " ++ sprintf_d ct)))
                    (pdfVersion f)).

(** What [info.r] refers to: the chunk reader itself, or the recompressor on
    top of the separator. *)
Inductive colorStream : Type :=
| RawIDAT (p : Png.pngStream)
| Recompressed (astm : Alpha.alphaSeparator).

Inductive closeHook : Type := stmClose | astmClose | cstmClose.

(** Modelled from the spec: ImageInfoType and newImageInfo are declared
    outside png.go.  The descriptor keeps the fields that parsepngstream
    assigns; [smask] and [flush] say whether the mask buffer and the flush
    hook of the separator in [r] are attached.  Width and height are
    [float64] in Go; an unsigned 32-bit value converts exactly, both ways,
    so they stay integers here. *)
Record ImageInfoType : Type := mkInfo {
  info_w : Z;
  info_h : Z;
  info_cs : string;
  info_bpc : Z;
  info_f : string;
  info_dp : string;
  info_pal : list byte;
  info_trns : list Z;
  info_r : colorStream;
  info_smask : bool;
  info_flush : bool;
  info_close : list closeHook
}.

(** [chs] in parsepngstream: 1 if [p.ct == 4], else 3. *)
Definition channels (ct : byte) : Z := if byte_to_Z ct =? 4 then 1 else 3.

(** [zlib.NewReader(p)] reads the header of the compressed stream from [p]
    before it returns, through a buffer of its own, so the call leaves [p]
    advanced.  Its outcome is the decompressed bytes that the inflating
    reader over [p] delivers, or the error of a bad header, together with
    [p] as the call leaves it; how far [p] has been read is the library's
    matter. *)
Definition zlibNewReader : Type := Png.pngStream -> (Reader + error) * Png.pngStream.

Section Pipeline.

Variable zlib_NewReader : zlibNewReader.

Definition parsepngstream (rd : Reader) (readdpi : bool)
  : M Fpdf (option ImageInfoType) := fun f =>
  match Png.parseUntil stateData (Png.new rd readdpi) with
  | Panic e => Panic e
  | OutOfFuel => OutOfFuel
  | Done (Some e) _ => Done None (mkFpdf (Some e) (pdfVersion f))
  | Done None p =>
    ('(colspace, colorVal) <- pngColorSpace (Png.ct p) ;;
     f <- get ;;
     match err f with
     | Some _ => ret None
     | None =>
       (if String.eqb colspace "Indexed" && (len (Png.pal p) =? 0)
        then modify (fun f => mkFpdf (Some (Errorf "missing palette in PNG buffer")) (pdfVersion f))
        else ret tt) ;;;
       let info :=
         mkInfo (Png.w p) (Png.h p) colspace (byte_to_Z (Png.bpc p)) "FlateDecode"
                ("/Predictor 15 /Colors " ++ sprintf_d colorVal ++
                 " /BitsPerComponent " ++ sprintf_d (byte_to_Z (Png.bpc p)) ++
                 " /Columns " ++ sprintf_d (Png.w p))
                (Png.pal p) (Png.trns p) (RawIDAT p) false false [] in
       if byte_to_Z (Png.ct p) >=? 4 then
         match zlib_NewReader p with
         | (inr e, p') =>
           (* [info.r] is the pointer [p]: it shows the reader as the failed
              call left it *)
           modify (fun f => mkFpdf (Some e) (pdfVersion f)) ;;;
           ret (Some (mkInfo (info_w info) (info_h info) (info_cs info) (info_bpc info)
                             (info_f info) (info_dp info) (info_pal info) (info_trns info)
                             (RawIDAT p') false false []))
         | (inl stm, _) =>
           let chs := channels (Png.ct p) in
           let astm := Alpha.newAlphaSeparator stm (info_w info) (info_h info) chs in
           modify (fun f => if (pdfVersion f <? "1.4")%string
                            then mkFpdf (err f) "1.4" else f) ;;;
           ret (Some (mkInfo (info_w info) (info_h info) (info_cs info) (info_bpc info)
                             (info_f info) (info_dp info) (info_pal info) (info_trns info)
                             (Recompressed astm) true true
                             [stmClose; astmClose; cstmClose]))
         end
       else ret (Some info)
     end) f
  end.

End Pipeline.

(** ** Vocabulary of the properties *)

(** What a call returned, whatever became of the receiver. *)
Definition returned {S A : Type} (x : result S A) : option A :=
  match x with
  | Done a _ => Some a
  | _ => None
  end.

(** The receiver after a call. *)
Definition receiver_after {S A : Type} (m : M S A) (s : S) : S :=
  match m s with
  | Done _ s' => s'
  | _ => s
  end.

(** A caller that reads again and again, with buffers of the given
    lengths; the trace stops at a panic. *)
Fixpoint reads (bufs : list Z) (p : Png.pngStream) : list (list byte * option error) :=
  match bufs with
  | [] => []
  | n :: bufs' =>
      match Png.Read n p with
      | Done res p' => res :: reads bufs' p'
      | _ => []
      end
  end.

(** The receiver after the signature and the first [n] chunk dispatches. *)
Fixpoint dispatches (n : nat) : M Png.pngStream unit :=
  match n with
  | O => Png.parseSignature ;;; ret tt
  | S n' => dispatches n' ;;; Png.parseChunk ;;; ret tt
  end.

Definition state_after (n : nat) (rd : Reader) : option Z :=
  match dispatches n (Png.new rd false) with
  | Done _ p => Some (Png.state p)
  | _ => None
  end.

(** The codec that stores its input as it is. *)
Definition stored (x : list byte) : list byte := x.

(** Decode, then read the colour stream of the descriptor to its end
    through a buffer of [n] bytes. *)
Definition colour_stream_bytes (zr : zlibNewReader)
           (rd : Reader) (n : Z) (fuel : nat) : option (string * list byte * option error) :=
  match parsepngstream zr rd false (mkFpdf None "1.3") with
  | Done (Some info) _ =>
      match info_r info with
      | RawIDAT p =>
          match ReadAll (Png.Read n) fuel p with
          | Done (bs, e) _ => Some (info_cs info, bs, e)
          | _ => None
          end
      | Recompressed _ => None
      end
  | _ => None
  end.

(** The type tag of the chunk frame at the head of a source, and the parser
    state that [parseChunk] assigns for it. *)
Definition chunk_tag (rd : Reader) : string :=
  string_of_list_byte (firstn 4 (skipn 4 rd)).

Definition tag_state (tag : string) (st : Z) : Z :=
  if (tag =? "IHDR")%string then stateHeader
  else if (tag =? "PLTE")%string || (tag =? "tRNS")%string || (tag =? "pHYs")%string
       then stateAnc
  else if (tag =? "IDAT")%string then stateData
  else if (tag =? "IEND")%string then stateEnd
  else st.

(** [wp m Q s]: run from [s], the method [m] does not run out of loop
    iterations, and if it returns then [Q] holds of the value and of the
    receiver.  A panic satisfies any [Q]. *)
Definition wp {S A : Type} (m : M S A) (Q : A -> S -> Prop) (s : S) : Prop :=
  match m s with
  | Done a s' => Q a s'
  | Panic _ => True
  | OutOfFuel => False
  end.

(** A step that only reads from the source: parser state and chunk counter
    stay, the source does not grow. *)
Definition io_step (p p' : Png.pngStream) : Prop :=
  Png.state p' = Png.state p /\
  Png.readable p' = Png.readable p /\
  len (Png.r p') <= len (Png.r p).

Definition not_overflow (err : option error) : Prop := err <> Some Png.overflow.

(** The chunk parsers below [parseChunk] only read. *)
Definition reads_only (p : Png.pngStream) (err : option error) (p' : Png.pngStream) : Prop :=
  io_step p p' /\ not_overflow err.

Definition chunk_post (p : Png.pngStream) (err : option error) (p' : Png.pngStream) : Prop :=
  0 <= Png.readable p' /\
  len (Png.r p') <= len (Png.r p) /\
  (err = None -> len (Png.r p') + 8 <= len (Png.r p)) /\
  not_overflow err /\
  Png.state p' = if len (Png.r p) <? 8 then Png.state p
                 else tag_state (chunk_tag (Png.r p)) (Png.state p).

Definition parse_post (p : Png.pngStream) (err : option error) (p' : Png.pngStream) : Prop :=
  0 <= Png.readable p' /\ len (Png.r p') <= len (Png.r p) /\ not_overflow err.

(** The fields of a separator lie well within the range of [int], the
    offset is not negative and the stride is positive. *)
Definition wf (a : Alpha.alphaSeparator) : Prop :=
  0 <= Alpha.chs a < 2 ^ 32 /\
  0 < Alpha.stride a < 2 ^ 63 /\
  0 <= Alpha.off a < 2 ^ 62 /\
  0 <= Alpha.h a * Alpha.stride a < 2 ^ 62.

(** [n] pixels put together again: [c] colour bytes from the colour
    stream, then one alpha byte from the mask stream, per pixel. *)
Fixpoint zip_pixels (n c : nat) (cs ms : list byte) : list byte :=
  match n with
  | O => []
  | S n' => firstn c cs ++ firstn 1 ms ++ zip_pixels n' c (skipn c cs) (skipn 1 ms)
  end.

(** Both streams are at the start of a row and show the same byte there. *)
Definition same_head (cs ms : list byte) : bool :=
  match cs, ms with
  | f :: _, g :: _ => Byte.eqb f g
  | _, _ => false
  end.

(** Re-interleaving as the streams of the code need it: a row of the colour
    stream is the filter byte and [w * c] colour bytes, a row of the mask
    stream is the same filter byte again and [w] alpha bytes.  Streams
    whose rows do not start with the same filter byte do not re-interleave:
    the result is [None]. *)
Fixpoint reinterleave (rows w c : nat) (cs ms : list byte) : option (list byte) :=
  match rows with
  | O => Some []
  | S rows' =>
      if same_head cs ms then
        match reinterleave rows' w c (skipn (1 + w * c) cs) (skipn (1 + w) ms) with
        | Some rest =>
            Some (firstn 1 cs ++ zip_pixels w c (skipn 1 cs) (skipn 1 ms) ++ rest)
        | None => None
        end
      else None
  end.

(** Re-interleaving by the words of the specification: "only the non-alpha
    bytes (filter byte + C samples per pixel)" are output, "every alpha
    byte" goes to the internal compressor and the filter byte is "never fed
    to the alpha buffer": a row of the mask stream is [w] alpha bytes. *)
Fixpoint reinterleave_spec (rows w c : nat) (cs ms : list byte) : list byte :=
  match rows with
  | O => []
  | S rows' =>
      firstn 1 cs ++ zip_pixels w c (skipn 1 cs) ms ++
      reinterleave_spec rows' w c (skipn (1 + w * c) cs) (skipn w ms)
  end.

(** Bytes [bs] read before the rest of a run of [ReadAll]. *)
Definition prepend {S : Type} (bs : list byte) (x : result S (list byte * option error))
  : result S (list byte * option error) :=
  match x with
  | Done (rest, e) s => Done (bs ++ rest, e) s
  | Panic e => Panic e
  | OutOfFuel => OutOfFuel
  end.

(** What one call of [Read] asks of upstream: one byte at the start of a
    row, else what is left of the current pixel, its alpha sample
    included. *)
Definition pixel_rest (a : Alpha.alphaSeparator) : Z :=
  let j := Alpha.off a mod Alpha.stride a in
  if j =? 0 then 1 else Alpha.chs a + 1 - (j - 1) mod (Alpha.chs a + 1).

(** The separator of an image of [h] rows of [w] pixels with [chs] colour
    channels, in row [y], [x] bytes into the row. *)
Definition sep_at (w h chs : Z) (rc wr : list byte) (y x : Z) : Alpha.alphaSeparator :=
  Alpha.mk rc w h chs (1 + (chs + 1) * w) wr (y * (1 + (chs + 1) * w) + x).

(** The transfer that ends a [Read]: up to [readable] bytes of payload, and
    the checksum once the chunk is drained. *)
Definition transfer (n : Z) (p : Png.pngStream) : result Png.pngStream (list byte * option error) :=
  let '((bs, err), rd') := Reader_Read (Png.r p) (Z.min n (int (Png.readable p))) in
  let p' := Png.set_readable (uint32 (Png.readable p - uint32 (len bs))) (Png.set_r rd' p) in
  if Png.readable p' <=? 0
  then match Png.next 4 p' with
       | Done (_, err') p'' => Done (bs, err') p''
       | Panic e => Panic e
       | OutOfFuel => OutOfFuel
       end
  else Done (bs, err) p'.

(** ** Sample streams *)

Definition be32 (z : Z) : list byte :=
  map (fun k => match Byte.of_N (Z.to_N ((z / 2 ^ (8 * k)) mod 256)) with
                | Some b => b
                | None => x00
                end) [3; 2; 1; 0].

(** The four bytes of a checksum. *)
Definition crc : Type := (byte * byte * byte * byte)%type.

Definition crc_bytes (k : crc) : list byte :=
  let '(k3, k2, k1, k0) := k in [k3; k2; k1; k0].

(** A chunk frame: length, type tag, payload, checksum. *)
Definition frame (tag : string) (payload : list byte) (k : crc) : list byte :=
  be32 (len payload) ++ list_byte_of_string tag ++ payload ++ crc_bytes k.

(** A frame with a placeholder for the checksum, which the decoder never
    looks at. *)
Definition chunk (tag : string) (payload : list byte) : list byte :=
  frame tag payload (xde, xad, xbe, xef).

Definition sig_bytes : list byte := list_byte_of_string pngSignature.

Definition ihdr_payload (w h : Z) (bpc ct : byte) : list byte :=
  be32 w ++ be32 h ++ [bpc; ct; x00; x00; x00].

Definition ihdr (w h : Z) (bpc ct : byte) : list byte :=
  chunk "IHDR" (ihdr_payload w h bpc ct).

(** An indexed image (colour type 3) whose IHDR is directly followed by
    IDAT: there is no PLTE chunk.  The checksums are whatever they are. *)
Definition png_indexed_no_plte (k1 k2 k3 : crc) : list byte :=
  sig_bytes ++ frame "IHDR" (ihdr_payload 2 1 x08 x03) k1 ++
  frame "IDAT" [x01; x02; x03] k2 ++ frame "IEND" [] k3.

(** A stream in which a second IHDR follows a pHYs chunk. *)
Definition png_ihdr_after_phys : list byte :=
  sig_bytes ++ ihdr 1 1 x08 x00 ++
  chunk "pHYs" (be32 2835 ++ be32 2835 ++ [x01]) ++
  ihdr 1 1 x08 x00 ++ chunk "IDAT" [x00; x00] ++ chunk "IEND" [].

(** A grey+alpha image of one pixel: filter byte 2, grey 10, alpha 255. *)
Definition one_pixel_ga : Alpha.alphaSeparator :=
  Alpha.newAlphaSeparator [x02; x0a; xff] 1 1 1.

(** An RGB+alpha image of one pixel, and its separator after the filter
    byte has been read. *)
Definition one_pixel_rgba : Alpha.alphaSeparator :=
  Alpha.newAlphaSeparator [x00; x0a; x0b; x0c; xff] 1 1 3.

Definition one_pixel_rgba_in_row : Alpha.alphaSeparator :=
  receiver_after (Alpha.Read (mkSlice 8 8)) one_pixel_rgba.

(** A grey image whose single IDAT chunk is followed by a tEXt chunk, as
    encoders commonly write it.  The checksums are whatever they are. *)
Definition png_text_after_idat (k1 k2 k3 k4 : crc) : list byte :=
  sig_bytes ++ frame "IHDR" (ihdr_payload 2 1 x08 x00) k1 ++
  frame "IDAT" [x01; x02; x03] k2 ++
  frame "tEXt" (list_byte_of_string "k=abc") k3 ++ frame "IEND" [] k4.

(** A grey image whose payload is split into an empty and a non-empty IDAT
    chunk. *)
Definition png_empty_idat : list byte :=
  sig_bytes ++ ihdr 2 1 x08 x00 ++ chunk "IDAT" [] ++
  chunk "IDAT" [x01; x02; x03] ++ chunk "IEND" [].

(** The run of IDAT frames with the given payloads and checksums. *)
Fixpoint idat_frames (ps : list (list byte * crc)) : list byte :=
  match ps with
  | [] => []
  | (payload, k) :: ps' => frame "IDAT" payload k ++ idat_frames ps'
  end.

(** A step that touches nothing but the source and the scratch buffer. *)
Definition only_io (p p' : Png.pngStream) : Prop :=
  Png.state p' = Png.state p /\ Png.readable p' = Png.readable p /\
  Png.trns p' = Png.trns p /\ Png.pal p' = Png.pal p /\
  Png.readdpi p' = Png.readdpi p /\ Png.dpi p' = Png.dpi p /\
  Png.w p' = Png.w p /\ Png.h p' = Png.h p /\
  Png.bpc p' = Png.bpc p /\ Png.ct p' = Png.ct p.

(** The thirteen bytes of an IHDR payload. *)
Definition ihdr_fields (w h : Z) (bpc ct cm fm im : byte) : list byte :=
  be32 w ++ be32 h ++ [bpc; ct; cm; fm; im].

(** The colour bytes and the alpha bytes of [n] pixels with [c] colour
    channels. *)
Fixpoint split_pixels (n c : nat) (d : list byte) : list byte * list byte :=
  match n with
  | O => ([], [])
  | S n' =>
      let '(cs, ms) := split_pixels n' c (skipn (S c) d) in
      (firstn c d ++ cs, firstn 1 (skipn c d) ++ ms)
  end.

(** The colour stream and the mask stream of [rows] rows: each row of
    either stream starts with the filter byte of the row. *)
Fixpoint split_rows (rows w c : nat) (d : list byte) : list byte * list byte :=
  match rows with
  | O => ([], [])
  | S rows' =>
      let '(cs, ms) := split_pixels w c (skipn 1 d) in
      let '(cs', ms') := split_rows rows' w c (skipn (S (w * S c)) d) in
      (firstn 1 d ++ cs ++ cs', firstn 1 d ++ ms ++ ms')
  end.

(** The metadata of the image is the same in both streams. *)
Definition same_meta (p p' : Png.pngStream) : Prop :=
  Png.trns p' = Png.trns p /\ Png.pal p' = Png.pal p /\
  Png.readdpi p' = Png.readdpi p /\ Png.dpi p' = Png.dpi p /\
  Png.w p' = Png.w p /\ Png.h p' = Png.h p /\
  Png.bpc p' = Png.bpc p /\ Png.ct p' = Png.ct p.

(** What [parseChunk] does once it has read length and type tag [ct] of a
    frame: the [switch] and the checksum. *)
Definition dispatch (ct : string) : M Png.pngStream (option error) :=
  if String.eqb ct "IDAT" then
    modify (Png.set_state stateData) ;;; ret None
  else
    err <- (if String.eqb ct "IHDR" then
              modify (Png.set_state stateHeader) ;;; Png.parseHeader
            else if String.eqb ct "PLTE" then
              modify (Png.set_state stateAnc) ;;; Png.parsePalette
            else if String.eqb ct "tRNS" then
              modify (Png.set_state stateAnc) ;;; Png.parsetRNS
            else if String.eqb ct "pHYs" then
              modify (Png.set_state stateAnc) ;;; Png.parsepHYs
            else if String.eqb ct "IEND" then
              modify (Png.set_state stateEnd) ;;; ret None
            else
              p <- get ;; Png.ignoreChunk (int (Png.readable p))) ;;
    guard err (
      '(_, err) <- Png.next 4 ;;
      ret err).

(** [i] is the place of the first zero byte of [t]. *)
Definition first_zero (t : list byte) (i : Z) : Prop :=
  0 <= i < len t /\ nth (Z.to_nat i) t x01 = x00 /\
  forall j, 0 <= j < i -> nth (Z.to_nat j) t x01 <> x00.

(** * Properties *)

(** ** The reader primitives *)

Lemma len_nonneg {A : Type} (l : list A) : 0 <= len l.
Proof. unfold len. lia. Qed.

Lemma len_app {A : Type} (l1 l2 : list A) : len (l1 ++ l2) = len l1 + len l2.
Proof. unfold len. rewrite length_app. lia. Qed.

Lemma len_firstn {A : Type} (l : list A) (n : Z) :
  0 <= n <= len l -> len (firstn (Z.to_nat n) l) = n.
Proof. unfold len. intros H. rewrite length_firstn. lia. Qed.

Lemma len_skipn {A : Type} (l : list A) (n : Z) :
  0 <= n <= len l -> len (skipn (Z.to_nat n) l) = len l - n.
Proof. unfold len. intros H. rewrite length_skipn. lia. Qed.

Lemma ReadFull_enough (rd : Reader) (n : Z) :
  0 < n <= len rd ->
  ReadFull rd n = ((firstn (Z.to_nat n) rd, None), skipn (Z.to_nat n) rd).
Proof.
  intros H. unfold ReadFull.
  destruct (Z.leb_spec n 0); [lia|].
  destruct rd as [|b rd']; [unfold len in H; simpl in H; lia|].
  destruct (Z.ltb_spec (len (b :: rd')) n); [lia|reflexivity].
Qed.

Lemma ReadFull_short (rd : Reader) (n : Z) :
  len rd < n ->
  ReadFull rd n = ((rd, Some (match rd with [] => EOF | _ => ErrUnexpectedEOF end)), []).
Proof.
  intros H. unfold ReadFull. pose proof (len_nonneg rd).
  destruct (Z.leb_spec n 0); [lia|].
  destruct rd as [|b rd']; [reflexivity|].
  destruct (Z.ltb_spec (len (b :: rd')) n); [reflexivity|lia].
Qed.

Lemma firstn_fill (bs old : list byte) : firstn (List.length bs) (fill bs old) = bs.
Proof.
  unfold fill. rewrite firstn_app, Nat.sub_diag, firstn_all. simpl.
  apply app_nil_r.
Qed.

Lemma next_enough (p : Png.pngStream) (n : Z) :
  0 < n <= len (Png.r p) ->
  Png.next n p =
  Done (n, None)
       (Png.set_buf (fill (firstn (Z.to_nat n) (Png.r p)) (Png.buf p))
                    (Png.set_r (skipn (Z.to_nat n) (Png.r p)) p)).
Proof.
  intros H. unfold Png.next, Png.readFull_buf, bind.
  rewrite ReadFull_enough by exact H.
  rewrite len_firstn by lia. reflexivity.
Qed.

(** A source that ends early makes [next] report plain end of stream, be it
    empty or cut in the middle of the [n] bytes. *)
Lemma next_short (p : Png.pngStream) (n : Z) :
  len (Png.r p) < n ->
  Png.next n p =
  Done (0, Some EOF) (Png.set_buf (fill (Png.r p) (Png.buf p)) (Png.set_r [] p)).
Proof.
  intros H. unfold Png.next, Png.readFull_buf, bind.
  rewrite ReadFull_short by exact H.
  destruct (Png.r p); reflexivity.
Qed.

Lemma readString_enough (p : Png.pngStream) (n : Z) :
  0 < n <= len (Png.r p) ->
  Png.readString n p =
  Done (string_of_list_byte (firstn (Z.to_nat n) (Png.r p)), None)
       (Png.set_buf (fill (firstn (Z.to_nat n) (Png.r p)) (Png.buf p))
                    (Png.set_r (skipn (Z.to_nat n) (Png.r p)) p)).
Proof.
  intros H. unfold Png.readString, bind. rewrite next_enough by exact H.
  unfold get, ret. cbn [Png.buf Png.set_buf].
  replace (Z.to_nat n) with (List.length (firstn (Z.to_nat n) (Png.r p))) at 1.
  - rewrite firstn_fill. reflexivity.
  - rewrite length_firstn. unfold len in H. lia.
Qed.

Lemma readString_short (p : Png.pngStream) (n : Z) :
  len (Png.r p) < n ->
  Png.readString n p =
  Done (EmptyString, Some EOF)
       (Png.set_buf (fill (Png.r p) (Png.buf p)) (Png.set_r [] p)).
Proof.
  intros H. unfold Png.readString, bind. rewrite next_short by exact H. reflexivity.
Qed.

Lemma string_of_list_byte_inj (a b : list byte) :
  string_of_list_byte a = string_of_list_byte b -> a = b.
Proof.
  intros H. rewrite <- (list_byte_of_string_of_list_byte a), H.
  apply list_byte_of_string_of_list_byte.
Qed.

(** ** Signature *)

Lemma parseSignature_short (p : Png.pngStream) :
  len (Png.r p) < 8 ->
  exists p', Png.parseSignature p = Done (Some EOF) p'.
Proof.
  intros H. unfold Png.parseSignature, bind, modify.
  change (Z.of_nat (String.length pngSignature)) with 8.
  rewrite readString_short by exact H.
  eexists. reflexivity.
Qed.

Lemma parseSignature_mismatch (p : Png.pngStream) :
  8 <= len (Png.r p) ->
  firstn 8 (Png.r p) <> sig_bytes ->
  exists p', Png.parseSignature p = Done (Some (Errorf "not a PNG buffer")) p'.
Proof.
  intros H Hne. unfold Png.parseSignature, bind, modify.
  change (Z.of_nat (String.length pngSignature)) with 8.
  rewrite readString_enough by (cbn [Png.r Png.set_state]; lia).
  cbn [Png.r Png.set_state guard]. change (Z.to_nat 8) with 8%nat.
  destruct (String.eqb_spec (string_of_list_byte (firstn 8 (Png.r p))) pngSignature) as [E|E].
  - exfalso. apply Hne. apply string_of_list_byte_inj.
    unfold sig_bytes. rewrite string_of_list_byte_of_string. exact E.
  - eexists. reflexivity.
Qed.

Lemma parseSignature_match (p : Png.pngStream) :
  firstn 8 (Png.r p) = sig_bytes ->
  Png.parseSignature p =
  Done None (Png.set_buf (fill sig_bytes (Png.buf p))
               (Png.set_r (skipn 8 (Png.r p)) (Png.set_state stateSignature p))).
Proof.
  intros E. unfold Png.parseSignature, bind, modify.
  change (Z.of_nat (String.length pngSignature)) with 8.
  assert (H : 8 <= len (Png.r p)).
  { unfold len. apply (f_equal (@List.length byte)) in E.
    rewrite length_firstn in E. change (List.length sig_bytes) with 8%nat in E. lia. }
  rewrite readString_enough by (cbn [Png.r Png.set_state]; lia).
  cbn [Png.r Png.set_state guard Png.buf]. change (Z.to_nat 8) with 8%nat.
  rewrite E. reflexivity.
Qed.

Lemma parseUntil_signature_error (p p' : Png.pngStream) (st : Z) (e : error) :
  Png.state p = stateInit ->
  Png.parseSignature p = Done (Some e) p' ->
  Png.parseUntil st p = Done (Some e) p'.
Proof.
  intros Hs Hp. unfold Png.parseUntil, bind, get.
  rewrite Hs. cbn [Z.eqb stateInit]. rewrite Hp. reflexivity.
Qed.

Lemma Read_parse_error (p p' : Png.pngStream) (n : Z) (e : error) :
  Png.state p <= stateData ->
  Png.parseUntil stateData p = Done (Some e) p' ->
  Png.Read n p = Done ([], Some e) p'.
Proof.
  intros Hs Hp. unfold Png.Read, bind, get.
  destruct (Z.gtb_spec (Png.state p) stateData); [lia|].
  rewrite Hp. reflexivity.
Qed.

(** C3, as the code has it: on the first read of a fresh stream, a source
    that ends before the eight signature bytes are there (empty or cut
    short) gives end of stream; eight bytes that are not the PNG magic give
    the format error "not a PNG buffer". *)
Theorem first_read_signature (rd : Reader) (readdpi : bool) (n : Z) :
  (len rd < 8 ->
   returned (Png.Read n (Png.new rd readdpi)) = Some ([], Some EOF)) /\
  (8 <= len rd -> firstn 8 rd <> sig_bytes ->
   returned (Png.Read n (Png.new rd readdpi)) =
   Some ([], Some (Errorf "not a PNG buffer"))).
Proof.
  split.
  - intros H.
    destruct (parseSignature_short (Png.new rd readdpi) H) as [p' Hp].
    rewrite (Read_parse_error _ p' n EOF); [reflexivity|cbv; discriminate|].
    apply parseUntil_signature_error; [reflexivity|exact Hp].
  - intros H Hne.
    destruct (parseSignature_mismatch (Png.new rd readdpi) H Hne) as [p' Hp].
    rewrite (Read_parse_error _ p' n (Errorf "not a PNG buffer"));
      [reflexivity|cbv; discriminate|].
    apply parseUntil_signature_error; [reflexivity|exact Hp].
Qed.

Lemma first_read_signature_witness :
  returned (Png.Read 16 (Png.new [x89; x50] true)) = Some ([], Some EOF) /\
  returned (Png.Read 16 (Png.new (list_byte_of_string "GIF89a..") true)) =
  Some ([], Some (Errorf "not a PNG buffer")).
Proof.
  split.
  - apply (proj1 (first_read_signature [x89; x50] true 16)). reflexivity.
  - apply (proj2 (first_read_signature (list_byte_of_string "GIF89a..") true 16)).
    + discriminate.
    + discriminate.
Defined.

(** C3 as stated fails: a source that ends after three of the eight
    signature bytes gives end of stream, not a format error. *)
Lemma truncated_signature_is_end_of_stream :
  returned (Png.Read 16 (Png.new [x89; x50; x4e] false)) = Some ([], Some EOF) /\
  ~ (exists msg, returned (Png.Read 16 (Png.new [x89; x50; x4e] false)) =
                 Some ([], Some (Errorf msg))).
Proof.
  split.
  - vm_compute. reflexivity.
  - intros [msg H]. vm_compute in H. discriminate.
Qed.

(** ** Missing palette *)

(** C1, the code at the failing input: the error "missing palette" is set,
    and no payload byte has been taken from the source, but the function
    goes on and returns a filled-in descriptor. *)
Theorem missing_palette_still_returns_descriptor
        (zr : zlibNewReader) (k1 k2 k3 : crc) :
  exists info p f',
    parsepngstream zr (png_indexed_no_plte k1 k2 k3) false (mkFpdf None "1.3") =
    Done (Some info) f' /\
    err f' = Some (Errorf "missing palette in PNG buffer") /\
    info_cs info = "Indexed"%string /\ info_pal info = [] /\
    info_w info = 2 /\ info_h info = 1 /\
    info_r info = RawIDAT p /\
    Png.r p = [x01; x02; x03] ++ crc_bytes k2 ++ frame "IEND" [] k3.
Proof.
  destruct k1 as [[[a3 a2] a1] a0], k2 as [[[b3 b2] b1] b0], k3 as [[[c3 c2] c1] c0].
  eexists. eexists. eexists.
  split; [vm_compute; reflexivity|].
  repeat split.
Qed.

(** ** tRNS *)

Lemma readFull_new_enough (p : Png.pngStream) (n : Z) :
  0 <= n <= len (Png.r p) ->
  Png.readFull_new n p =
  Done (firstn (Z.to_nat n) (Png.r p), None) (Png.set_r (skipn (Z.to_nat n) (Png.r p)) p).
Proof.
  intros H. unfold Png.readFull_new.
  destruct (Z.eq_dec n 0) as [->|Hn].
  - unfold ReadFull. simpl. reflexivity.
  - rewrite ReadFull_enough by lia. rewrite len_firstn by lia.
    rewrite Z.sub_diag. simpl. rewrite app_nil_r. reflexivity.
Qed.

(** C9: a tRNS chunk whose payload is all there but too short for the
    colour type makes the parser index past the end of the payload: offset 1
    for colour type 0, the first of the offsets 1, 3, 5 that is out of range
    for colour type 2.  The call panics; it returns no error. *)
Theorem parsetRNS_short_payload_panics (p : Png.pngStream) :
  0 <= Png.readable p <= len (Png.r p) ->
  (byte_to_Z (Png.ct p) = 0 /\ Png.readable p < 2) \/
  (byte_to_Z (Png.ct p) = 2 /\ Png.readable p < 6) ->
  Png.parsetRNS p =
  Panic (IndexOutOfRange (if byte_to_Z (Png.ct p) =? 0 then 1
                          else 2 * (Png.readable p / 2) + 1)
                         (Png.readable p)).
Proof.
  intros Hr Hc. unfold Png.parsetRNS, bind, get.
  rewrite readFull_new_enough by exact Hr.
  cbn [guard]. unfold Png.at_index, bind, throw, ret, modify.
  rewrite len_firstn by exact Hr.
  destruct Hc as [[Hct Hn]|[Hct Hn]]; rewrite Hct; cbn [Z.eqb].
  - destruct (Z.ltb_spec 1 (Png.readable p)); [lia|reflexivity].
  - assert (Hcase : Png.readable p = 0 \/ Png.readable p = 1 \/ Png.readable p = 2 \/
                    Png.readable p = 3 \/ Png.readable p = 4 \/ Png.readable p = 5) by lia.
    destruct Hcase as [E|[E|[E|[E|[E|E]]]]]; rewrite E; reflexivity.
Qed.

Lemma parsetRNS_short_payload_panics_witness :
  Png.parsetRNS (Png.set_readable 3 (Png.set_ct x02 (Png.new [x00; x0a; x00] false))) =
  Panic (IndexOutOfRange 3 3).
Proof.
  apply (parsetRNS_short_payload_panics
           (Png.set_readable 3 (Png.set_ct x02 (Png.new [x00; x0a; x00] false)))).
  - cbv. split; discriminate.
  - right. cbv. split; reflexivity.
Defined.

(** The same through the entry point: a grey image with an empty tRNS
    chunk. *)
Example parsepngstream_empty_tRNS_panics (zr : zlibNewReader) :
  parsepngstream zr (sig_bytes ++ ihdr 1 1 x08 x00 ++ chunk "tRNS" [] ++ chunk "IDAT" [x00])
                 false (mkFpdf None "1.3") =
  Panic (IndexOutOfRange 1 0).
Proof. vm_compute. reflexivity. Qed.

(** ** pHYs *)

(** C8: a pHYs chunk with x, y, unit read from its nine bytes.  The dpi
    field is written only if x = y and the stream was asked to read the
    resolution: x / 39.3701 for unit 1, x for any other unit.  Otherwise it
    keeps the value it had.  For x = y = 2835, unit 1, the result lies
    between 72.0 and 72.01. *)
Theorem parsepHYs_dpi (p : Png.pngStream)
        (x3 x2 x1 x0 y3 y2 y1 y0 u : byte) (rest : list byte) :
  let x := BigEndian_Uint32 [x3; x2; x1; x0] in
  let y := BigEndian_Uint32 [y3; y2; y1; y0] in
  let p0 := Png.set_r ([x3; x2; x1; x0] ++ [y3; y2; y1; y0] ++ [u] ++ rest) p in
  (exists p',
     Png.parsepHYs p0 = Done None p' /\
     Png.r p' = rest /\
     Png.dpi p' =
       if (x =? y) && Png.readdpi p
       then if byte_to_Z u =? 1 then (float64 x / 39.3701)%float else float64 x
       else Png.dpi p) /\
  (BigEndian_Uint32 [x00; x00; x0b; x13] = 2835 /\
   (72.0 <=? float64 2835 / 39.3701)%float = true /\
   (float64 2835 / 39.3701 <=? 72.01)%float = true).
Proof.
  intros x y p0. split.
  - unfold Png.parsepHYs, Png.readBeUint32, Png.readByte, bind, get, ret, modify.
    rewrite next_enough by (cbn; unfold len; simpl; lia).
    cbn [guard Png.buf Png.set_buf Png.r Png.set_r p0].
    rewrite next_enough by (cbn; unfold len; simpl; lia).
    cbn [guard Png.buf Png.set_buf Png.r Png.set_r].
    rewrite next_enough by (cbn; unfold len; simpl; lia).
    cbn [guard Png.buf Png.set_buf Png.r Png.set_r Png.readdpi].
    change (Z.to_nat 4) with 4%nat. change (Z.to_nat 1) with 1%nat.
    cbn [firstn skipn app fill List.length nth].
    fold x. fold y. change (Png.readdpi p0) with (Png.readdpi p).
    destruct ((x =? y) && Png.readdpi p).
    + destruct (byte_to_Z u =? 1); eexists; repeat split.
    + eexists; repeat split.
  - repeat split; vm_compute; reflexivity.
Qed.

(** ** A weakest-precondition calculus for the methods *)

Section WP.
Context {S : Type}.

Lemma wp_bind {A B : Type} (m : M S A) (k : A -> M S B) (Q : B -> S -> Prop) (s : S) :
  wp m (fun a s' => wp (k a) Q s') s -> wp (bind m k) Q s.
Proof. unfold wp, bind. destruct (m s); auto. Qed.

Lemma wp_ret {A : Type} (a : A) (Q : A -> S -> Prop) (s : S) :
  Q a s -> wp (ret a) Q s.
Proof. auto. Qed.

Lemma wp_get (Q : S -> S -> Prop) (s : S) : Q s s -> wp get Q s.
Proof. auto. Qed.

Lemma wp_modify (f : S -> S) (Q : unit -> S -> Prop) (s : S) :
  Q tt (f s) -> wp (modify f) Q s.
Proof. auto. Qed.

Lemma wp_throw {A : Type} (e : panic) (Q : A -> S -> Prop) (s : S) :
  wp (throw e) Q s.
Proof. exact I. Qed.

Lemma wp_conseq {A : Type} (m : M S A) (Q Q' : A -> S -> Prop) (s : S) :
  wp m Q s -> (forall a s', Q a s' -> Q' a s') -> wp m Q' s.
Proof. unfold wp. destruct (m s); auto. Qed.

Lemma wp_guard (err : option error) (k : M S (option error))
      (Q : option error -> S -> Prop) (s : S) :
  (forall e, err = Some e -> Q (Some e) s) ->
  (err = None -> wp k Q s) ->
  wp (guard err k) Q s.
Proof. destruct err; cbn; auto. Qed.

Lemma wp_Done {A : Type} (m : M S A) (Q : A -> S -> Prop) (s s' : S) (a : A) :
  wp m Q s -> m s = Done a s' -> Q a s'.
Proof. unfold wp. intros H E. rewrite E in H. exact H. Qed.

Lemma wp_not_OutOfFuel {A : Type} (m : M S A) (Q : A -> S -> Prop) (s : S) :
  wp m Q s -> m s <> OutOfFuel.
Proof. unfold wp. intros H E. rewrite E in H. exact H. Qed.

End WP.

(** Use the specification [spec] of the first method of a sequence. *)
Ltac wp_use spec :=
  apply wp_bind; eapply wp_conseq; [apply spec|cbv beta].

Lemma io_step_refl (p : Png.pngStream) : io_step p p.
Proof. unfold io_step. lia. Qed.

Lemma io_step_trans (p1 p2 p3 : Png.pngStream) :
  io_step p1 p2 -> io_step p2 p3 -> io_step p1 p3.
Proof. unfold io_step. intuition congruence || lia. Qed.

Create HintDb png.
#[local] Hint Resolve io_step_refl : png.

Lemma not_overflow_None : not_overflow None.
Proof. discriminate. Qed.

Lemma not_overflow_EOF : not_overflow (Some EOF).
Proof. discriminate. Qed.

#[local] Hint Resolve not_overflow_None not_overflow_EOF : png.

Lemma ReadFull_spec (rd rd' : Reader) (n : Z) (bs : list byte) (err : option error) :
  ReadFull rd n = ((bs, err), rd') ->
  len rd' <= len rd /\
  (err = None \/ err = Some EOF \/ err = Some ErrUnexpectedEOF) /\
  (err = None -> 0 < n -> len bs = n /\ len rd' = len rd - n).
Proof.
  unfold ReadFull. pose proof (len_nonneg rd) as Hrd.
  destruct (Z.leb_spec n 0).
  - intros E. inversion E; subst. split; [lia|]. split; [auto|]. intros; lia.
  - destruct rd as [|b rd0].
    + intros E. inversion E; subst. split; [lia|]. split; [auto|]. discriminate.
    + destruct (Z.ltb_spec (len (b :: rd0)) n).
      * intros E. inversion E; subst. split; [exact Hrd|]. split; [auto|]. discriminate.
      * intros E. inversion E; subst. rewrite len_firstn, len_skipn by lia.
        split; [lia|]. split; [auto|]. intros; lia.
Qed.

Lemma readFull_buf_spec (n : Z) (p : Png.pngStream) :
  wp (Png.readFull_buf n)
     (fun res p' =>
        io_step p p' /\ not_overflow (snd res) /\
        (snd res = None -> 0 < n -> fst res = n /\ len (Png.r p') = len (Png.r p) - n))
     p.
Proof.
  unfold wp, Png.readFull_buf.
  destruct (ReadFull (Png.r p) n) as [[bs err] rd'] eqn:E.
  apply ReadFull_spec in E. destruct E as (H1 & H2 & H3).
  cbn [fst snd]. split; [|split].
  - unfold io_step. cbn. auto.
  - destruct H2 as [->|[->| ->]]; discriminate.
  - cbn. exact H3.
Qed.

Lemma next_spec (n : Z) (p : Png.pngStream) :
  wp (Png.next n)
     (fun res p' =>
        io_step p p' /\ not_overflow (snd res) /\
        (snd res = None -> 0 < n -> len (Png.r p') = len (Png.r p) - n))
     p.
Proof.
  unfold Png.next. wp_use readFull_buf_spec.
  intros [m err] p' (H1 & H2 & H3). cbn [fst snd] in *.
  destruct err as [[| |msg]|]; apply wp_ret; cbn [fst snd];
    (split; [exact H1|split; [auto with png|]]); try discriminate.
  intros E Hn. apply (H3 E Hn).
Qed.

Ltac io_solve :=
  unfold io_step in *; cbn [Png.state Png.readable Png.r Png.set_r Png.set_state
    Png.set_readable Png.set_buf Png.set_trns Png.set_pal Png.set_dpi Png.set_w
    Png.set_h Png.set_bpc Png.set_ct fst snd] in *;
  repeat match goal with H : _ /\ _ |- _ => destruct H end;
  repeat split; try congruence; try lia.

Ltac overflow_solve :=
  solve [ assumption | unfold not_overflow, Png.overflow; discriminate ].

Ltac wp_basic :=
  match goal with
  | |- wp (bind get _) _ _ => apply wp_bind, wp_get
  | |- wp (bind (modify _) _) _ _ => apply wp_bind, wp_modify
  | |- wp (ret _) _ _ => apply wp_ret
  | |- wp (modify _) _ _ => apply wp_modify
  | |- wp (throw _) _ _ => apply wp_throw
  | |- wp (guard _ _) _ _ => apply wp_guard; [intros ? ?; subst|intros ?; subst]
  | |- wp (if ?b then _ else _) _ _ => destruct b eqn:?
  | |- wp (bind (if ?b then _ else _) _) _ _ => destruct b eqn:?
  end.

Lemma readByte_spec (p : Png.pngStream) :
  wp Png.readByte
     (fun res p' =>
        io_step p p' /\ not_overflow (snd res) /\
        (snd res = None -> len (Png.r p') = len (Png.r p) - 1))
     p.
Proof.
  unfold Png.readByte. wp_use next_spec.
  intros [m err] p' (H1 & H2 & H3). cbn [fst snd] in *.
  destruct err as [e|].
  - apply wp_ret. cbn [fst snd]. repeat split; try apply H1; auto; try discriminate.
  - apply wp_bind, wp_get, wp_ret. cbn [fst snd].
    repeat split; try apply H1; auto with png. intros _. apply H3; [reflexivity|lia].
Qed.

Lemma byte_to_Z_range (b : byte) : 0 <= byte_to_Z b < 256.
Proof.
  unfold byte_to_Z. pose proof (Byte.to_N_bounded b) as H.
  split; [apply N2Z.is_nonneg|]. lia.
Qed.

Lemma BigEndian_Uint32_nonneg (b : list byte) : 0 <= BigEndian_Uint32 b.
Proof.
  unfold BigEndian_Uint32.
  repeat (apply Z.lor_nonneg; split);
    try (apply Z.shiftl_nonneg); apply byte_to_Z_range.
Qed.

Lemma readBeUint32_spec (p : Png.pngStream) :
  wp Png.readBeUint32
     (fun res p' =>
        io_step p p' /\ not_overflow (snd res) /\ 0 <= fst res /\
        (snd res = None -> len (Png.r p') = len (Png.r p) - 4))
     p.
Proof.
  unfold Png.readBeUint32. wp_use next_spec.
  intros [m err] p' (H1 & H2 & H3). cbn [fst snd] in *.
  destruct err as [e|].
  - apply wp_ret. cbn [fst snd]. repeat split; try apply H1; auto; try lia; try discriminate.
  - apply wp_bind, wp_get, wp_ret. cbn [fst snd].
    repeat split; try apply H1; auto with png.
    + apply BigEndian_Uint32_nonneg.
    + intros _. apply H3; [reflexivity|lia].
Qed.

Lemma readString_spec (n : Z) (p : Png.pngStream) :
  wp (Png.readString n)
     (fun res p' =>
        io_step p p' /\ not_overflow (snd res) /\
        (snd res = None -> 0 < n -> len (Png.r p') = len (Png.r p) - n))
     p.
Proof.
  unfold Png.readString. wp_use next_spec.
  intros [m err] p' (H1 & H2 & H3). cbn [fst snd] in *.
  destruct err as [e|].
  - apply wp_ret. cbn [fst snd]. repeat split; try apply H1; auto; try discriminate.
  - apply wp_bind, wp_get, wp_ret. cbn [fst snd].
    repeat split; try apply H1; auto with png.
Qed.

Lemma parseHeader_spec (p : Png.pngStream) :
  wp Png.parseHeader (reads_only p) p.
Proof.
  unfold Png.parseHeader, reads_only.
  wp_use readBeUint32_spec. intros [v1 e1] p1 (S1 & O1 & _).
  repeat wp_basic; [split; [io_solve|overflow_solve]|].
  wp_use readBeUint32_spec. intros [v2 e2] p2 (S2 & O2 & _).
  repeat wp_basic; [split; [io_solve|overflow_solve]|].
  wp_use readByte_spec. intros [v3 e3] p3 (S3 & O3 & _).
  repeat wp_basic; [split; [io_solve|overflow_solve]..|].
  wp_use readByte_spec. intros [v4 e4] p4 (S4 & O4 & _).
  repeat wp_basic; [split; [io_solve|overflow_solve]|].
  wp_use readByte_spec. intros [v5 e5] p5 (S5 & O5 & _).
  repeat wp_basic; [split; [io_solve|overflow_solve]..|].
  wp_use readByte_spec. intros [v6 e6] p6 (S6 & O6 & _).
  repeat wp_basic; [split; [io_solve|overflow_solve]..|].
  wp_use readByte_spec. intros [v7 e7] p7 (S7 & O7 & _).
  repeat wp_basic; split; solve [io_solve|overflow_solve].
Qed.

Lemma readFull_new_spec (n : Z) (p : Png.pngStream) :
  wp (Png.readFull_new n)
     (fun res p' => io_step p p' /\ not_overflow (snd res))
     p.
Proof.
  unfold wp, Png.readFull_new.
  destruct (ReadFull (Png.r p) n) as [[bs err] rd'] eqn:E.
  apply ReadFull_spec in E. destruct E as (H1 & H2 & H3).
  cbn [fst snd]. split.
  - unfold io_step. cbn. auto.
  - destruct H2 as [->|[->| ->]]; discriminate.
Qed.

Lemma parsePalette_spec (p : Png.pngStream) :
  wp Png.parsePalette (reads_only p) p.
Proof.
  unfold Png.parsePalette, reads_only. wp_basic.
  wp_use readFull_new_spec. intros [t e] p1 (S1 & O1).
  repeat wp_basic. split; [io_solve|overflow_solve].
Qed.

Lemma at_index_spec (t : list byte) (i : Z) (p : Png.pngStream) :
  wp (Png.at_index t i) (fun _ p' => p' = p) p.
Proof.
  unfold Png.at_index. destruct (i <? len t); [apply wp_ret|apply wp_throw]. reflexivity.
Qed.

Lemma parsetRNS_spec (p : Png.pngStream) :
  wp Png.parsetRNS (reads_only p) p.
Proof.
  unfold Png.parsetRNS, reads_only. wp_basic.
  wp_use readFull_new_spec. intros [t e] p1 (S1 & O1).
  wp_basic; [split; [io_solve|overflow_solve]|].
  apply wp_bind.
  destruct (byte_to_Z (Png.ct p) =? 0); [|destruct (byte_to_Z (Png.ct p) =? 2)].
  - wp_use at_index_spec. intros a q ->.
    repeat wp_basic. split; [io_solve|overflow_solve].
  - wp_use at_index_spec. intros a q ->.
    wp_use at_index_spec. intros b q ->.
    wp_use at_index_spec. intros c q ->.
    repeat wp_basic. split; [io_solve|overflow_solve].
  - repeat wp_basic; split; solve [io_solve|overflow_solve].
Qed.

Lemma parsepHYs_spec (p : Png.pngStream) :
  wp Png.parsepHYs (reads_only p) p.
Proof.
  unfold Png.parsepHYs, reads_only.
  wp_use readBeUint32_spec. intros [x e1] p1 (S1 & O1 & _).
  wp_basic; [split; [io_solve|overflow_solve]|].
  wp_use readBeUint32_spec. intros [y e2] p2 (S2 & O2 & _).
  wp_basic; [split; [io_solve|overflow_solve]|].
  wp_use readByte_spec. intros [u e3] p3 (S3 & O3 & _).
  wp_basic; [split; [io_solve|overflow_solve]|].
  repeat wp_basic; split; solve [io_solve|overflow_solve].
Qed.

(** The skipping loop ends within the iterations it is given: each round
    that goes on has taken at least one byte. *)
Lemma ignoreChunk_loop_spec (fuel : nat) :
  forall (n : Z) (p : Png.pngStream),
    len (Png.r p) < Z.of_nat fuel ->
    wp (Png.ignoreChunk_loop fuel n) (reads_only p) p.
Proof.
  unfold reads_only.
  induction fuel as [|fuel IH]; intros n p Hf.
  - pose proof (len_nonneg (Png.r p)). lia.
  - cbn [Png.ignoreChunk_loop].
    destruct (Z.gtb_spec n 0) as [Hn|Hn].
    + wp_use readFull_buf_spec. intros [m e] p1 (S1 & O1 & L1). cbn [fst snd] in *.
      wp_basic; [split; [io_solve|overflow_solve]|].
      assert (Hmin : 0 < Z.min n Png.buf_len) by (unfold Png.buf_len; cbn; lia).
      destruct (L1 eq_refl Hmin) as [Hm HL].
      eapply wp_conseq; [apply IH; lia|].
      cbv beta. intros e' p2 (S2 & O2). split; [|exact O2].
      eapply io_step_trans; eassumption.
    + apply wp_ret. split; [io_solve|overflow_solve].
Qed.

Lemma ignoreChunk_spec (n : Z) (p : Png.pngStream) :
  wp (Png.ignoreChunk n) (reads_only p) p.
Proof.
  unfold Png.ignoreChunk.
  change (wp (Png.ignoreChunk_loop (S (List.length (Png.r p))) n) (reads_only p) p).
  apply ignoreChunk_loop_spec. unfold len. lia.
Qed.

Lemma readBeUint32_enough (p : Png.pngStream) :
  4 <= len (Png.r p) ->
  Png.readBeUint32 p =
  Done (BigEndian_Uint32 (firstn 4 (Png.r p)), None)
       (Png.set_buf (fill (firstn 4 (Png.r p)) (Png.buf p))
                    (Png.set_r (skipn 4 (Png.r p)) p)).
Proof.
  intros H. unfold Png.readBeUint32, bind. rewrite next_enough by lia.
  unfold get, ret. cbn [Png.buf Png.set_buf]. change (Z.to_nat 4) with 4%nat.
  replace 4%nat with (List.length (firstn 4 (Png.r p))) at 1.
  - rewrite firstn_fill. reflexivity.
  - rewrite length_firstn. unfold len in H. lia.
Qed.

Lemma readBeUint32_short (p : Png.pngStream) :
  len (Png.r p) < 4 ->
  Png.readBeUint32 p =
  Done (0, Some EOF) (Png.set_buf (fill (Png.r p) (Png.buf p)) (Png.set_r [] p)).
Proof.
  intros H. unfold Png.readBeUint32, bind. rewrite next_short by exact H. reflexivity.
Qed.

Lemma parseChunk_spec (p : Png.pngStream) :
  wp Png.parseChunk (chunk_post p) p.
Proof.
  unfold Png.parseChunk, chunk_post.
  pose proof (len_nonneg (Png.r p)) as Hnn.
  destruct (Z.ltb_spec (len (Png.r p)) 8) as [Hlt|Hge].
  - (* the frame header is cut short *)
    destruct (Z.lt_ge_cases (len (Png.r p)) 4) as [H4|H4].
    + unfold wp, bind. rewrite readBeUint32_short by exact H4.
      cbn. repeat split; try lia; try discriminate.
    + unfold wp, bind. rewrite readBeUint32_enough by exact H4.
      cbn [modify guard]. rewrite readString_short.
      * cbn. repeat split; try lia; try discriminate.
        apply BigEndian_Uint32_nonneg.
      * cbn [Png.r Png.set_readable Png.set_buf Png.set_r].
        change 4%nat with (Z.to_nat 4). rewrite len_skipn; lia.
  - apply wp_bind. unfold wp at 1. rewrite readBeUint32_enough by lia.
    apply wp_bind, wp_modify. cbn [guard].
    apply wp_bind. unfold wp at 1.
    assert (Hl4 : len (skipn 4 (Png.r p)) = len (Png.r p) - 4)
      by (change 4%nat with (Z.to_nat 4); rewrite len_skipn; lia).
    rewrite readString_enough
      by (cbn [Png.r Png.set_readable Png.set_buf Png.set_r]; lia).
    cbn [guard Png.r Png.set_readable Png.set_buf Png.set_r Png.buf].
    change (Z.to_nat 4) with 4%nat.
    fold (chunk_tag (Png.r p)).
    set (v := BigEndian_Uint32 (firstn 4 (Png.r p))).
    assert (Hv : 0 <= v) by apply BigEndian_Uint32_nonneg.
    set (p3 := Png.set_buf _ (Png.set_r (skipn 4 (skipn 4 (Png.r p))) _)).
    assert (Hr3 : len (Png.r p3) = len (Png.r p) - 8).
    { subst p3. cbn [Png.r Png.set_buf Png.set_r].
      change 4%nat with (Z.to_nat 4) at 1. rewrite len_skipn; lia. }
    assert (Hv3 : Png.readable p3 = v) by reflexivity.
    assert (Hs3 : Png.state p3 = Png.state p) by reflexivity.
    clearbody p3 v. generalize (chunk_tag (Png.r p)). intros tag.
    unfold tag_state.
    assert (Hbody : forall (m : M Png.pngStream (option error)) (st : Z),
               (forall q, wp m (reads_only q) q) ->
               wp (err <- (modify (Png.set_state st) ;;; m) ;;
                   guard err ('(_, err) <- Png.next 4 ;; ret err))
                  (fun err p' =>
                     0 <= Png.readable p' /\ len (Png.r p') <= len (Png.r p) /\
                     (err = None -> len (Png.r p') + 8 <= len (Png.r p)) /\
                     not_overflow err /\ Png.state p' = st) p3).
    { intros m st Hm. apply wp_bind, wp_bind, wp_modify.
      eapply wp_conseq; [apply Hm|]. cbv beta. intros e q (Sq & Oq).
      wp_basic; [io_solve; try overflow_solve|].
      wp_use next_spec. intros [k e'] q' (Sq' & Oq' & _).
      apply wp_ret. io_solve; try exact Oq'. }
    destruct (String.eqb_spec tag "IDAT") as [->|N1].
    { repeat wp_basic. cbn. repeat split; try lia. discriminate. }
    destruct (String.eqb_spec tag "IHDR") as [->|N2].
    { apply (Hbody Png.parseHeader stateHeader). apply parseHeader_spec. }
    destruct (String.eqb_spec tag "PLTE") as [->|N3].
    { apply (Hbody Png.parsePalette stateAnc). apply parsePalette_spec. }
    destruct (String.eqb_spec tag "tRNS") as [->|N4].
    { apply (Hbody Png.parsetRNS stateAnc). apply parsetRNS_spec. }
    destruct (String.eqb_spec tag "pHYs") as [->|N5].
    { apply (Hbody Png.parsepHYs stateAnc). apply parsepHYs_spec. }
    cbn [orb].
    destruct (String.eqb_spec tag "IEND") as [->|N6].
    { eapply wp_conseq; [apply (Hbody (ret None) stateEnd)|].
      - intros q. apply wp_ret. split; [apply io_step_refl|discriminate].
      - cbv beta. intros e q H. exact H. }
    apply wp_bind, wp_bind, wp_get.
    eapply wp_conseq; [apply ignoreChunk_spec|]. cbv beta. intros e q (Sq & Oq).
    wp_basic; [io_solve; try overflow_solve|].
    wp_use next_spec. intros [k e'] q' (Sq' & Oq' & _).
    apply wp_ret. io_solve; try exact Oq'.
Qed.

(** ** Parser state *)

(** C7, as the code has it: a chunk dispatch sets the parser state from the
    type tag of the chunk alone (IHDR: Header; PLTE, tRNS, pHYs: Ancillary;
    IDAT: Data; IEND: End; any other tag, or a frame header cut short: no
    change), whatever the state was.  So the state does not go back across
    a dispatch exactly when the state of the tag is not earlier than the
    current one. *)
Theorem parseChunk_state_by_tag (p p' : Png.pngStream) (e : option error) :
  Png.parseChunk p = Done e p' ->
  Png.state p' = (if len (Png.r p) <? 8 then Png.state p
                  else tag_state (chunk_tag (Png.r p)) (Png.state p)) /\
  (Png.state p <= Png.state p' <->
   len (Png.r p) < 8 \/ Png.state p <= tag_state (chunk_tag (Png.r p)) (Png.state p)).
Proof.
  intros H. pose proof (wp_Done _ _ _ _ _ (parseChunk_spec p) H) as (_ & _ & _ & _ & Hs).
  split; [exact Hs|]. rewrite Hs.
  destruct (Z.ltb_spec (len (Png.r p)) 8); split; intros; lia.
Qed.

Lemma parseChunk_state_by_tag_witness :
  let p := Png.set_state stateAnc (Png.new (ihdr 1 1 x08 x00) false) in
  Png.state (receiver_after Png.parseChunk p) = stateHeader /\
  ~ Png.state p <= Png.state (receiver_after Png.parseChunk p).
Proof.
  intros p.
  destruct (parseChunk_state_by_tag p (receiver_after Png.parseChunk p) None) as [Hs Hm].
  - vm_compute. reflexivity.
  - split.
    + rewrite Hs. vm_compute. reflexivity.
    + rewrite Hm. vm_compute. intros [H|H]; [discriminate H|apply H; reflexivity].
Defined.

(** C7 as stated fails: in this stream the state is Ancillary after the
    second chunk (pHYs) and back to Header after the third (IHDR). *)
Lemma state_goes_back_on_second_IHDR :
  state_after 1 png_ihdr_after_phys = Some stateHeader /\
  state_after 2 png_ihdr_after_phys = Some stateAnc /\
  state_after 3 png_ihdr_after_phys = Some stateHeader /\
  stateHeader < stateAnc.
Proof. repeat split; vm_compute; reflexivity. Qed.

(** ** The read path *)

Lemma parseSignature_spec (p : Png.pngStream) :
  0 <= Png.readable p ->
  wp Png.parseSignature (parse_post p) p.
Proof.
  intros Hr. unfold Png.parseSignature, parse_post. wp_basic.
  wp_use readString_spec. intros [sign e] p1 (S1 & O1 & _).
  repeat wp_basic; io_solve; try overflow_solve.
Qed.

Lemma parseUntil_loop_spec (fuel : nat) (st : Z) :
  forall p : Png.pngStream,
    len (Png.r p) < Z.of_nat fuel ->
    0 <= Png.readable p ->
    wp (Png.parseUntil_loop fuel st)
       (fun err p' => parse_post p err p' /\ (err = None -> st <= Png.state p')) p.
Proof.
  unfold parse_post.
  induction fuel as [|fuel IH]; intros p Hf Hr.
  - pose proof (len_nonneg (Png.r p)). lia.
  - cbn [Png.parseUntil_loop]. unfold wp at 1.
    destruct (Z.ltb_spec (Png.state p) st) as [Hs|Hs].
    + change (wp (err <- Png.parseChunk ;; guard err (Png.parseUntil_loop fuel st))
                 (fun err p' => (0 <= Png.readable p' /\ len (Png.r p') <= len (Png.r p) /\
                                 not_overflow err) /\ (err = None -> st <= Png.state p')) p).
      wp_use parseChunk_spec. intros e p1 (R1 & L1 & D1 & O1 & _).
      wp_basic.
      * repeat split; auto. discriminate.
      * eapply wp_conseq; [apply IH; [specialize (D1 eq_refl); lia|exact R1]|].
        cbv beta. intros e' p2 ((R2 & L2 & O2) & S2). repeat split; auto. lia.
    + repeat split; auto with png; lia.
Qed.

Lemma parseUntil_spec (st : Z) (p : Png.pngStream) :
  0 <= Png.readable p ->
  wp (Png.parseUntil st)
     (fun err p' => parse_post p err p' /\ (err = None -> st <= Png.state p')) p.
Proof.
  intros Hr. unfold Png.parseUntil. wp_basic. apply wp_bind.
  assert (Hloop : forall p1, 0 <= Png.readable p1 -> len (Png.r p1) <= len (Png.r p) ->
            wp (fun q => Png.parseUntil_loop (S (List.length (Png.r q))) st q)
               (fun err p' => parse_post p err p' /\ (err = None -> st <= Png.state p')) p1).
  { intros p1 R1 L1.
    change (wp (Png.parseUntil_loop (S (List.length (Png.r p1))) st)
               (fun err p' => parse_post p err p' /\ (err = None -> st <= Png.state p')) p1).
    eapply wp_conseq; [apply parseUntil_loop_spec; [unfold len; lia|exact R1]|].
    cbv beta. unfold parse_post. intros e p2 ((R2 & L2 & O2) & S2).
    repeat split; auto. lia. }
  destruct (Png.state p =? stateInit).
  - eapply wp_conseq; [apply parseSignature_spec; exact Hr|].
    cbv beta. intros e p1 (R1 & L1 & O1).
    wp_basic.
    + split; [repeat split; auto|discriminate].
    + apply Hloop; assumption.
  - apply wp_ret. cbn [guard]. apply Hloop; [exact Hr|lia].
Qed.

Lemma Read_loop_spec (fuel : nat) :
  forall p : Png.pngStream,
    len (Png.r p) < Z.of_nat fuel ->
    0 <= Png.readable p ->
    wp (Png.Read_loop fuel) (parse_post p) p.
Proof.
  unfold parse_post.
  induction fuel as [|fuel IH]; intros p Hf Hr.
  - pose proof (len_nonneg (Png.r p)). lia.
  - cbn [Png.Read_loop]. unfold wp at 1.
    destruct (Png.readable p =? 0).
    + change (wp (err <- Png.parseChunk ;; guard err (Png.Read_loop fuel))
                 (fun err p' => 0 <= Png.readable p' /\ len (Png.r p') <= len (Png.r p) /\
                                not_overflow err) p).
      wp_use parseChunk_spec. intros e p1 (R1 & L1 & D1 & O1 & _).
      wp_basic.
      * repeat split; auto.
      * eapply wp_conseq; [apply IH; [specialize (D1 eq_refl); lia|exact R1]|].
        cbv beta. intros e' p2 (R2 & L2 & O2). repeat split; auto. lia.
    + repeat split; auto with png; lia.
Qed.

Lemma Reader_Read_spec (rd rd' : Reader) (n : Z) (bs : list byte) (err : option error) :
  Reader_Read rd n = ((bs, err), rd') ->
  len rd' <= len rd /\ (err = None \/ err = Some EOF).
Proof.
  unfold Reader_Read. destruct rd as [|b rd0].
  - intros E. inversion E; subst. split; [lia|auto].
  - intros E. inversion E; subst. split; [|auto].
    unfold len. rewrite length_skipn. lia.
Qed.

Lemma uint32_range (z : Z) : 0 <= uint32 z < 2 ^ 32.
Proof. unfold uint32. apply Z.mod_pos_bound. lia. Qed.

(** [Read] keeps the chunk counter in its unsigned range, ends within the
    iterations of its loops, and never reports the overflow error. *)
Lemma Read_spec (n : Z) (p : Png.pngStream) :
  0 <= Png.readable p ->
  wp (Png.Read n) (fun res p' => parse_post p (snd res) p') p.
Proof.
  intros Hr. unfold Png.Read, parse_post. wp_basic. wp_basic.
  { apply wp_ret. cbn [snd]. repeat split; auto with png; lia. }
  wp_use parseUntil_spec; [exact Hr|].
  intros e p1 ((R1 & L1 & O1) & _).
  destruct e as [e|].
  { apply wp_ret. cbn [snd]. repeat split; auto. }
  wp_basic.
  destruct (Z.ltb_spec (Png.readable p1) 0) as [Hneg|_]; [lia|].
  apply wp_bind.
  change (wp (Png.Read_loop (S (List.length (Png.r p1))))
             (fun a s' =>
                wp match a with
                   | Some e => ret ([], Some e)
                   | None =>
                     p0 <- get ;;
                     (let '(bs, err, rd') :=
                        Reader_Read (Png.r p0) (Z.min n (int (Png.readable p0))) in
                      modify (Png.set_r rd') ;;;
                      modify (Png.set_readable (uint32 (Png.readable p0 - uint32 (len bs)))) ;;;
                      p2 <- get ;;
                      (if Png.readable p2 <=? 0
                       then ' (_, err0) <- Png.next 4 ;; ret (bs, err0)
                       else ret (bs, err)))
                   end
                   (fun res p' => 0 <= Png.readable p' /\ len (Png.r p') <= len (Png.r p) /\
                                  not_overflow (snd res)) s') p1).
  eapply wp_conseq; [apply Read_loop_spec; [unfold len; lia|exact R1]|].
  cbv beta. intros e p2 (R2 & L2 & O2).
  destruct e as [e|].
  { apply wp_ret. cbn [snd]. repeat split; auto. lia. }
  wp_basic.
  destruct (Reader_Read (Png.r p2) (Z.min n (int (Png.readable p2))))
    as [[bs err] rd'] eqn:E.
  apply Reader_Read_spec in E. destruct E as [Lr Er].
  repeat wp_basic.
  - wp_use next_spec. intros [k e'] p3 (S3 & O3 & _). apply wp_ret.
    cbn [snd fst] in *. io_solve; auto.
    match goal with H : Png.readable p3 = _ |- _ => rewrite H end.
    apply uint32_range.
  - apply wp_ret. cbn [snd]. cbn [Png.readable Png.set_readable Png.set_r Png.r].
    repeat split; try lia; [apply uint32_range|].
    destruct Er as [->| ->]; discriminate.
Qed.

Lemma reads_never_overflow (bufs : list Z) :
  forall p : Png.pngStream,
    0 <= Png.readable p ->
    Forall (fun res => snd res <> Some Png.overflow) (reads bufs p).
Proof.
  induction bufs as [|n bufs IH]; intros p Hr; cbn [reads].
  - constructor.
  - pose proof (Read_spec n p Hr) as H. unfold wp in H.
    destruct (Png.Read n p) as [res p'| |]; [|constructor..].
    destruct H as (R & _ & O). constructor; [exact O|apply IH; exact R].
Qed.

(** C10: whatever the input and however the stream is read, no call to
    [Read] returns the error "IDAT chunk length overflow": the counter
    [readable] is never negative, so the test guarding that error is never
    true. *)
Theorem overflow_error_never_returned (rd : Reader) (readdpi : bool) (bufs : list Z) :
  Forall (fun res => snd res <> Some (Errorf "IDAT chunk length overflow"))
         (reads bufs (Png.new rd readdpi)).
Proof.
  apply reads_never_overflow. cbn. lia.
Qed.


Lemma parseUntil_terminates (st : Z) (p : Png.pngStream) :
  0 <= Png.readable p -> Png.parseUntil st p <> OutOfFuel.
Proof.
  intros Hr. eapply wp_not_OutOfFuel. apply parseUntil_spec. exact Hr.
Qed.

Example reads_sample :
  reads [2; 2; 2; 2]
        (Png.new (sig_bytes ++ ihdr 2 1 x08 x00 ++ chunk "IDAT" [x01; x02; x03] ++
                  chunk "IDAT" [x04; x05] ++ chunk "IEND" []) false) =
  [([x01; x02], None); ([x03], None); ([x04; x05], None); ([], Some EOF)].
Proof. vm_compute. reflexivity. Qed.

(** ** The alpha separator, one read at a time *)

Lemma int_small (z : Z) : - 2 ^ 63 <= z < 2 ^ 63 -> int z = z.
Proof. intros H. unfold int. rewrite Z.mod_small; lia. Qed.

Lemma skipn_len_app {A : Type} (l1 l2 : list A) (n : Z) :
  len l1 = n -> skipn (Z.to_nat n) (l1 ++ l2) = l2.
Proof.
  intros <-. unfold len. rewrite Nat2Z.id, skipn_app, skipn_all, Nat.sub_diag. reflexivity.
Qed.

Lemma firstn_len_app {A : Type} (l1 l2 : list A) (n : Z) :
  len l1 = n -> firstn (Z.to_nat n) (l1 ++ l2) = l1.
Proof.
  intros <-. unfold len.
  rewrite Nat2Z.id, firstn_app, firstn_all, Nat.sub_diag. simpl. apply app_nil_r.
Qed.

Lemma ReadFull_prefix (bs rest : list byte) (n : Z) :
  0 < n -> len bs = n -> ReadFull (bs ++ rest) n = ((bs, None), rest).
Proof.
  intros Hn Hl. rewrite ReadFull_enough.
  - rewrite firstn_len_app, skipn_len_app by exact Hl. reflexivity.
  - rewrite len_app. pose proof (len_nonneg rest). lia.
Qed.

(** At the start of a row the byte read is handed to the caller and written
    to the alpha writer as well. *)
Lemma Read_row_start (a : Alpha.alphaSeparator) (b : slice) (f : byte) (rest : list byte) :
  wf a -> slen b <> 0 -> 1 <= scap b ->
  Alpha.off a < Alpha.h a * Alpha.stride a ->
  Alpha.off a mod Alpha.stride a = 0 ->
  Alpha.rc a = f :: rest ->
  Alpha.Read b a =
  Done ([f], None)
       (Alpha.mk rest (Alpha.w a) (Alpha.h a) (Alpha.chs a) (Alpha.stride a)
                 (Alpha.writer a ++ [f]) (Alpha.off a + 1)).
Proof.
  intros (Hc & Hs & Ho & Hh) Hb Hcap Hlt Hj Hrc. unfold Alpha.Read.
  destruct (Z.eqb_spec (slen b) 0); [contradiction|].
  unfold bind at 1. unfold get at 1. cbv beta iota.
  rewrite int_small by lia.
  destruct (Z.geb_spec (Alpha.off a) (Alpha.h a * Alpha.stride a)); [lia|].
  destruct (Z.eqb_spec (Alpha.stride a) 0); [lia|].
  rewrite Z.rem_mod_nonneg by lia. rewrite Hj. cbn [Z.eqb].
  unfold Alpha.readPaletteIndex.
  destruct (Z.gtb_spec 1 (scap b)); [lia|].
  unfold bind, get. rewrite Hrc.
  change (f :: rest) with ([f] ++ rest).
  rewrite ReadFull_prefix by (reflexivity || lia).
  cbn. rewrite int_small by lia. reflexivity.
Qed.

(** Inside a row, at channel position [c] of a pixel, one read takes the
    rest of the pixel: the colour samples [px] that are left go to the
    caller, the alpha sample [al] that ends the pixel goes to the alpha
    writer. *)
Lemma Read_in_pixel (a : Alpha.alphaSeparator) (b : slice)
      (px : list byte) (al : byte) (rest : list byte) :
  wf a -> slen b <> 0 ->
  Alpha.off a < Alpha.h a * Alpha.stride a ->
  Alpha.off a mod Alpha.stride a <> 0 ->
  let c := (Alpha.off a mod Alpha.stride a - 1) mod (Alpha.chs a + 1) in
  Alpha.chs a + 1 - c <= scap b ->
  len px = Alpha.chs a - c ->
  Alpha.rc a = px ++ al :: rest ->
  Alpha.Read b a =
  Done (px, None)
       (Alpha.mk rest (Alpha.w a) (Alpha.h a) (Alpha.chs a) (Alpha.stride a)
                 (Alpha.writer a ++ [al]) (Alpha.off a + (Alpha.chs a + 1 - c))).
Proof.
  intros (Hc & Hs & Ho & Hh) Hb Hlt Hj c Hcap Hpx Hrc. unfold Alpha.Read.
  destruct (Z.eqb_spec (slen b) 0); [contradiction|].
  unfold bind at 1. unfold get at 1. cbv beta iota.
  rewrite int_small by lia.
  destruct (Z.geb_spec (Alpha.off a) (Alpha.h a * Alpha.stride a)); [lia|].
  destruct (Z.eqb_spec (Alpha.stride a) 0); [lia|].
  rewrite Z.rem_mod_nonneg by lia.
  destruct (Z.eqb_spec (Alpha.off a mod Alpha.stride a) 0); [contradiction|].
  pose proof (Z.mod_pos_bound (Alpha.off a) (Alpha.stride a) ltac:(lia)) as Hjr.
  cbv zeta. rewrite (int_small (Alpha.chs a + 1)) by lia.
  destruct (Z.eqb_spec (Alpha.chs a + 1) 0); [lia|].
  rewrite (int_small (Alpha.off a mod Alpha.stride a - 1)) by lia.
  rewrite Z.rem_mod_nonneg by lia. fold c.
  pose proof (Z.mod_pos_bound (Alpha.off a mod Alpha.stride a - 1) (Alpha.chs a + 1)
                              ltac:(lia)) as Hcr.
  fold c in Hcr.
  rewrite (int_small (Alpha.chs a + 1 - c)) by lia.
  destruct (Z.ltb_spec (Alpha.chs a + 1 - c) 0); [lia|].
  destruct (Z.gtb_spec (Alpha.chs a + 1 - c) (scap b)); [lia|].
  cbn [orb]. rewrite Hrc.
  replace (px ++ al :: rest) with ((px ++ [al]) ++ rest)
    by (rewrite <- app_assoc; reflexivity).
  assert (Hl : len (px ++ [al]) = Alpha.chs a + 1 - c)
    by (rewrite len_app; unfold len at 2; cbn; lia).
  rewrite ReadFull_prefix by (exact Hl || lia).
  unfold bind, modify, get, ret, Alpha.Write.
  cbn [Alpha.rc Alpha.w Alpha.h Alpha.chs Alpha.stride Alpha.writer Alpha.off
       Alpha.set_rc Alpha.set_off Alpha.set_writer].
  rewrite (int_small (Alpha.chs a - c)) by lia.
  destruct (Z.ltb_spec (Alpha.chs a - c) 0); [lia|].
  destruct (Z.gtb_spec (Alpha.chs a - c) (Alpha.chs a + 1 - c)); [lia|].
  cbn [orb].
  rewrite Hl.
  rewrite skipn_len_app by exact Hpx.
  replace (Alpha.chs a + 1 - c - (Alpha.chs a - c)) with 1 by lia.
  replace (Alpha.chs a + 1 - c - 1) with (Alpha.chs a - c) by lia.
  rewrite firstn_len_app by exact Hpx.
  rewrite int_small by lia.
  reflexivity.
Qed.

(** C2, as the code has it: at the start of a row a read forwards the
    filter-type byte to the caller and also writes it to the alpha
    compressor; inside a row a read forwards the colour samples left in the
    current pixel and writes to the alpha compressor exactly the byte at
    channel position C of that pixel, the alpha sample. *)
Theorem filter_byte_to_both_alpha_sample_to_writer
        (a : Alpha.alphaSeparator) (b : slice) :
  wf a -> slen b <> 0 ->
  Alpha.off a < Alpha.h a * Alpha.stride a ->
  (forall f rest,
      1 <= scap b ->
      Alpha.off a mod Alpha.stride a = 0 ->
      Alpha.rc a = f :: rest ->
      exists a', Alpha.Read b a = Done ([f], None) a' /\
                 Alpha.writer a' = Alpha.writer a ++ [f] /\ Alpha.rc a' = rest) /\
  (forall px al rest,
      Alpha.off a mod Alpha.stride a <> 0 ->
      let c := (Alpha.off a mod Alpha.stride a - 1) mod (Alpha.chs a + 1) in
      Alpha.chs a + 1 - c <= scap b ->
      len px = Alpha.chs a - c ->
      Alpha.rc a = px ++ al :: rest ->
      exists a', Alpha.Read b a = Done (px, None) a' /\
                 Alpha.writer a' = Alpha.writer a ++ [al] /\ Alpha.rc a' = rest).
Proof.
  intros Hwf Hb Hlt. split.
  - intros f rest Hcap Hj Hrc. eexists. split.
    + apply Read_row_start; eassumption.
    + split; reflexivity.
  - intros px al rest Hj c Hcap Hpx Hrc. eexists. split.
    + apply Read_in_pixel; eassumption.
    + split; reflexivity.
Qed.

Lemma filter_byte_to_both_alpha_sample_to_writer_witness :
  exists a', Alpha.Read (mkSlice 8 8) one_pixel_ga = Done ([x02], None) a' /\
             Alpha.writer a' = Alpha.writer one_pixel_ga ++ [x02] /\
             Alpha.rc a' = [x0a; xff].
Proof.
  apply (proj1 (filter_byte_to_both_alpha_sample_to_writer
                  one_pixel_ga (mkSlice 8 8)
                  ltac:(cbv; repeat split; discriminate || reflexivity)
                  ltac:(discriminate) ltac:(reflexivity))).
  - cbv. discriminate.
  - reflexivity.
  - reflexivity.
Defined.

(** C2 as stated fails: the read at offset 0 of the one-pixel image puts the
    filter byte into the alpha writer, which was empty. *)
Lemma filter_byte_is_written_to_alpha_writer :
  Alpha.off one_pixel_ga mod Alpha.stride one_pixel_ga = 0 /\
  Alpha.writer one_pixel_ga = [] /\
  exists a', Alpha.Read (mkSlice 8 8) one_pixel_ga = Done ([x02], None) a' /\
             Alpha.writer a' = [x02].
Proof.
  split; [reflexivity|]. split; [reflexivity|].
  eexists. split; [vm_compute; reflexivity|reflexivity].
Qed.



(** The channel position inside a row, for a separator in order. *)
Lemma Read_inside_row (a : Alpha.alphaSeparator) (b : slice) :
  wf a -> slen b <> 0 ->
  Alpha.off a < Alpha.h a * Alpha.stride a ->
  Alpha.off a mod Alpha.stride a <> 0 ->
  let c := (Alpha.off a mod Alpha.stride a - 1) mod (Alpha.chs a + 1) in
  0 <= c <= Alpha.chs a /\
  Alpha.Read b a =
  (if Alpha.chs a + 1 - c >? scap b
   then Panic (SliceBoundsOutOfRange (Alpha.chs a + 1 - c) (scap b))
   else
     (let '((bs, err), rd') := ReadFull (Alpha.rc a) (Alpha.chs a + 1 - c) in
      modify (Alpha.set_rc rd') ;;;
      modify (Alpha.set_off (int (Alpha.off a + len bs))) ;;;
      match err with
      | Some e => ret (bs, Some e)
      | None =>
          err <- Alpha.Write (firstn 1 (skipn (Z.to_nat (Alpha.chs a - c)) bs)) ;;
          ret (firstn (Z.to_nat (len bs - 1)) bs, err)
      end) a).
Proof.
  intros (Hc & Hs & Ho & Hh) Hb Hlt Hj c. unfold Alpha.Read.
  destruct (Z.eqb_spec (slen b) 0); [contradiction|].
  unfold bind at 1. unfold get at 1. cbv beta iota.
  rewrite int_small by lia.
  destruct (Z.geb_spec (Alpha.off a) (Alpha.h a * Alpha.stride a)); [lia|].
  destruct (Z.eqb_spec (Alpha.stride a) 0); [lia|].
  rewrite Z.rem_mod_nonneg by lia.
  destruct (Z.eqb_spec (Alpha.off a mod Alpha.stride a) 0); [contradiction|].
  pose proof (Z.mod_pos_bound (Alpha.off a) (Alpha.stride a) ltac:(lia)) as Hjr.
  cbv zeta. rewrite (int_small (Alpha.chs a + 1)) by lia.
  destruct (Z.eqb_spec (Alpha.chs a + 1) 0); [lia|].
  rewrite (int_small (Alpha.off a mod Alpha.stride a - 1)) by lia.
  rewrite Z.rem_mod_nonneg by lia. fold c.
  pose proof (Z.mod_pos_bound (Alpha.off a mod Alpha.stride a - 1) (Alpha.chs a + 1)
                              ltac:(lia)) as Hcr.
  fold c in Hcr. split; [lia|].
  rewrite (int_small (Alpha.chs a + 1 - c)) by lia.
  destruct (Z.ltb_spec (Alpha.chs a + 1 - c) 0); [lia|]. cbn [orb].
  destruct (Alpha.chs a + 1 - c >? scap b); [reflexivity|].
  destruct (ReadFull (Alpha.rc a) (Alpha.chs a + 1 - c)) as [[bs err] rd'].
  unfold bind at 1 3. unfold modify at 1 3. unfold bind at 1 2. unfold modify at 1 2.
  destruct err as [e|]; [reflexivity|].
  rewrite (int_small (Alpha.chs a - c)) by lia.
  destruct (Z.ltb_spec (Alpha.chs a - c) 0); [lia|].
  destruct (Z.gtb_spec (Alpha.chs a - c) (Alpha.chs a + 1 - c)); [lia|].
  cbn [orb].
  replace (Alpha.chs a + 1 - c - (Alpha.chs a - c)) with 1 by lia.
  reflexivity.
Qed.





(** The transfer inside the row of the RGB+alpha pixel: four bytes are
    asked of upstream, the three colour bytes go to the caller and the
    alpha sample to the writer. *)
Example rgba_transfer_sample :
  pixel_rest one_pixel_rgba_in_row = 4 /\
  ReadFull (Alpha.rc one_pixel_rgba_in_row) 4 = (([x0a; x0b; x0c; xff], None), []) /\
  returned (Alpha.Read (mkSlice 8 8) one_pixel_rgba_in_row) = Some ([x0a; x0b; x0c], None) /\
  Alpha.writer (receiver_after (Alpha.Read (mkSlice 8 8)) one_pixel_rgba_in_row) =
  [x00; xff].
Proof. repeat split. Qed.


(** ** Splitting and re-interleaving whole images *)

Lemma firstn_length_app {A : Type} (l1 l2 : list A) (n : nat) :
  List.length l1 = n -> firstn n (l1 ++ l2) = l1.
Proof.
  intros <-. rewrite firstn_app, firstn_all, Nat.sub_diag. simpl. apply app_nil_r.
Qed.

Lemma skipn_length_app {A : Type} (l1 l2 : list A) (n : nat) :
  List.length l1 = n -> skipn n (l1 ++ l2) = l2.
Proof.
  intros <-. rewrite skipn_app, skipn_all, Nat.sub_diag. reflexivity.
Qed.

Lemma zip_pixels_cons (n c : nat) (px : list byte) (al : byte) (cs ms : list byte) :
  List.length px = c ->
  zip_pixels (S n) c (px ++ cs) (al :: ms) = px ++ al :: zip_pixels n c cs ms.
Proof.
  intros H. cbn [zip_pixels].
  rewrite firstn_length_app, skipn_length_app by exact H. reflexivity.
Qed.

Lemma zip_pixels_app (n c : nat) :
  forall cs ms cs' ms',
    List.length cs = (n * c)%nat -> List.length ms = n ->
    zip_pixels n c (cs ++ cs') (ms ++ ms') = zip_pixels n c cs ms.
Proof.
  induction n as [|n IH]; intros cs ms cs' ms' Hc Hm; [reflexivity|].
  destruct ms as [|al ms]; [discriminate|].
  cbn [zip_pixels]. cbn [Nat.mul] in Hc. cbn [List.length] in Hm.
  rewrite !firstn_app, !skipn_app.
  replace (c - List.length cs)%nat with 0%nat by lia.
  cbn [firstn skipn app]. rewrite !app_nil_r.
  f_equal. f_equal.
  apply IH; [rewrite length_skipn; lia|lia].
Qed.

Lemma reinterleave_row (rows w c : nat) (f : byte) (cs ms cs' ms' : list byte) :
  List.length cs = (w * c)%nat -> List.length ms = w ->
  reinterleave (S rows) w c (f :: cs ++ cs') (f :: ms ++ ms') =
  option_map (fun rest => f :: zip_pixels w c cs ms ++ rest)
             (reinterleave rows w c cs' ms').
Proof.
  intros Hc Hm. cbn [reinterleave same_head firstn skipn app Nat.add].
  rewrite (Byte.byte_dec_lb eq_refl).
  rewrite zip_pixels_app by assumption.
  rewrite !skipn_length_app by assumption.
  destruct (reinterleave rows w c cs' ms'); reflexivity.
Qed.

Lemma prepend_app {S : Type} (bs1 bs2 : list byte) (x : result S (list byte * option error)) :
  prepend bs1 (prepend bs2 x) = prepend (bs1 ++ bs2) x.
Proof. destruct x as [[rest e] s| |]; cbn; [rewrite app_assoc|..]; reflexivity. Qed.

Lemma ReadAll_more {S : Type} (read : M S (list byte * option error))
      (fuel : nat) (s s' : S) (bs : list byte) :
  read s = Done (bs, None) s' ->
  ReadAll read (Datatypes.S fuel) s = prepend bs (ReadAll read fuel s').
Proof.
  intros E. cbn [ReadAll]. unfold bind. rewrite E.
  destruct (ReadAll read fuel s') as [[rest e] s''| |]; reflexivity.
Qed.

Lemma ReadAll_end {S : Type} (read : M S (list byte * option error))
      (fuel : nat) (s s' : S) (bs : list byte) :
  read s = Done (bs, Some EOF) s' ->
  ReadAll read (Datatypes.S fuel) s = Done (bs, None) s'.
Proof. intros E. cbn [ReadAll]. unfold bind. rewrite E. reflexivity. Qed.

Section Separation.

Variables wn hn cn : nat.
Variable b : slice.

Let w : Z := Z.of_nat wn.
Let h : Z := Z.of_nat hn.
Let chs : Z := Z.of_nat cn.
Let stride : Z := 1 + (chs + 1) * w.

Hypothesis chs_small : chs < 2 ^ 32.
Hypothesis stride_small : stride < 2 ^ 62.
Hypothesis image_small : h * stride < 2 ^ 62.
Hypothesis buf_nonempty : slen b <> 0.
Hypothesis buf_holds_pixel : chs + 1 <= scap b.

Let sep : list byte -> list byte -> Z -> Z -> Alpha.alphaSeparator := sep_at w h chs.

Ltac unsep := unfold sep, sep_at; fold stride.

Lemma stride_pos : 0 < stride.
Proof. subst stride chs w. nia. Qed.

Lemma wf_sep (rc wr : list byte) (y x : Z) :
  0 <= y < h -> 0 <= x < stride -> wf (sep rc wr y x).
Proof.
  intros Hy Hx. pose proof stride_pos as Hs.
  assert (Hc : 0 <= chs) by (subst chs; lia).
  unfold wf. unsep. cbn [Alpha.chs Alpha.stride Alpha.off Alpha.h].
  pose proof stride_small. pose proof image_small. pose proof chs_small.
  clearbody stride chs h w.
  assert (y * stride + x < h * stride) by nia.
  repeat split; try lia; nia.
Qed.

Lemma sep_off_mod (y x : Z) : 0 <= x < stride -> (y * stride + x) mod stride = x.
Proof.
  intros Hx. rewrite Z.add_comm, Z.mod_add by lia. apply Z.mod_small. exact Hx.
Qed.

(** One pixel. *)
Lemma sep_Read_pixel (px : list byte) (al : byte) (rest wr : list byte) (y i : Z) :
  0 <= y < h -> 0 <= i < w -> len px = chs ->
  Alpha.Read b (sep (px ++ al :: rest) wr y (1 + i * (chs + 1))) =
  Done (px, None) (sep rest (wr ++ [al]) y (1 + (i + 1) * (chs + 1))).
Proof.
  intros Hy Hi Hpx.
  assert (Hc : 0 <= chs) by (subst chs; lia).
  assert (Hx : 0 <= 1 + i * (chs + 1) < stride) by (subst stride; nia).
  assert (Hcm : (1 + i * (chs + 1) - 1) mod (chs + 1) = 0).
  { replace (1 + i * (chs + 1) - 1) with (i * (chs + 1)) by lia.
    apply Z.mod_mul. lia. }
  rewrite (Read_in_pixel _ b px al rest).
  - unsep; cbn [Alpha.rc Alpha.w Alpha.h Alpha.chs Alpha.stride Alpha.writer Alpha.off].
    rewrite sep_off_mod by exact Hx. rewrite Hcm. unsep. f_equal. f_equal. lia.
  - apply wf_sep; assumption.
  - exact buf_nonempty.
  - unsep; cbn [Alpha.h Alpha.stride Alpha.off]. nia.
  - unsep; cbn [Alpha.stride Alpha.off]. rewrite sep_off_mod by exact Hx. lia.
  - unsep; cbn [Alpha.chs Alpha.stride Alpha.off]. rewrite sep_off_mod by exact Hx.
    rewrite Hcm. lia.
  - unsep; cbn [Alpha.chs Alpha.stride Alpha.off]. rewrite sep_off_mod by exact Hx.
    rewrite Hcm. lia.
  - reflexivity.
Qed.

(** The filter byte that starts a row. *)
Lemma sep_Read_filter (f : byte) (rest wr : list byte) (y : Z) :
  0 <= y < h ->
  Alpha.Read b (sep (f :: rest) wr y 0) = Done ([f], None) (sep rest (wr ++ [f]) y 1).
Proof.
  intros Hy. pose proof stride_pos as Hs.
  assert (Hc : 0 <= chs) by (subst chs; lia).
  rewrite (Read_row_start _ b f rest).
  - unsep. cbn. f_equal. f_equal. lia.
  - apply wf_sep; lia.
  - exact buf_nonempty.
  - lia.
  - unsep; cbn [Alpha.h Alpha.stride Alpha.off]. nia.
  - unsep; cbn [Alpha.stride Alpha.off]. apply sep_off_mod. lia.
  - reflexivity.
Qed.

(** After the last row. *)
Lemma sep_Read_end (rc wr : list byte) :
  Alpha.Read b (sep rc wr h 0) = Done ([], Some EOF) (sep rc wr h 0).
Proof.
  unfold Alpha.Read.
  destruct (Z.eqb_spec (slen b) 0); [contradiction|].
  unfold bind, get. unsep; cbn [Alpha.h Alpha.stride Alpha.off].
  pose proof stride_pos. assert (0 <= h) by (subst h; lia).
  rewrite int_small by nia.
  destruct (Z.geb_spec (h * stride + 0) (h * stride)); [reflexivity|lia].
Qed.

Lemma prepend_nil {S : Type} (x : result S (list byte * option error)) :
  prepend [] x = x.
Proof. destruct x as [[rest e] s| |]; reflexivity. Qed.

Lemma split_pixel (n : nat) (px : list byte) :
  List.length px = (S n * S cn)%nat ->
  exists p1 al px',
    px = p1 ++ al :: px' /\ List.length p1 = cn /\ List.length px' = (n * S cn)%nat.
Proof.
  intros H. cbn [Nat.mul] in H.
  destruct (skipn cn px) as [|al px'] eqn:E.
  - apply (f_equal (@List.length byte)) in E. rewrite length_skipn in E. cbn in E. lia.
  - exists (firstn cn px), al, px'. split; [|split].
    + rewrite <- E. symmetry. apply firstn_skipn.
    + rewrite length_firstn. lia.
    + apply (f_equal (@List.length byte)) in E. rewrite length_skipn in E. cbn in E. lia.
Qed.

(** The [n] pixels that end a row. *)
Lemma run_pixels (n : nat) :
  forall (i : Z) (px rest wr : list byte) (y : Z),
    0 <= y < h -> 0 <= i -> i + Z.of_nat n = w ->
    List.length px = (n * S cn)%nat ->
    exists cs ms,
      List.length cs = (n * cn)%nat /\ List.length ms = n /\
      zip_pixels n cn cs ms = px /\
      forall fuel,
        ReadAll (Alpha.Read b) (n + fuel) (sep (px ++ rest) wr y (1 + i * (chs + 1))) =
        prepend cs (ReadAll (Alpha.Read b) fuel (sep rest (wr ++ ms) (y + 1) 0)).
Proof.
  induction n as [|n IH]; intros i px rest wr y Hy Hi Hw Hpx.
  - destruct px; [|discriminate]. exists [], [].
    repeat split. intros fuel. rewrite prepend_nil, app_nil_r. cbn [app Nat.add].
    f_equal. unsep. f_equal. unfold stride. lia.
  - destruct (split_pixel n px Hpx) as (p1 & al & px' & -> & Hp1 & Hpx').
    destruct (IH (i + 1) px' rest (wr ++ [al]) y Hy ltac:(lia) ltac:(lia) Hpx')
      as (cs & ms & Hcs & Hms & Hzip & Hrun).
    exists (p1 ++ cs), (al :: ms). split; [|split; [|split]].
    + rewrite length_app. cbn [Nat.mul]. lia.
    + cbn [List.length]. lia.
    + rewrite zip_pixels_cons by exact Hp1. rewrite Hzip. reflexivity.
    + intros fuel. cbn [Nat.add]. rewrite <- app_assoc. cbn [app].
      rewrite (ReadAll_more _ _ _ _ _
                 (sep_Read_pixel p1 al (px' ++ rest) wr y i Hy ltac:(lia)
                                 ltac:(unfold len, chs; lia))).
      rewrite Hrun, prepend_app. rewrite <- app_assoc. reflexivity.
Qed.

Lemma split_row (m : nat) (d : list byte) :
  List.length d = (S m * S (wn * S cn))%nat ->
  exists f px d',
    d = f :: px ++ d' /\ List.length px = (wn * S cn)%nat /\
    List.length d' = (m * S (wn * S cn))%nat.
Proof.
  intros H. cbn [Nat.mul] in H.
  destruct d as [|f d0]; [discriminate|]. cbn [List.length] in H.
  exists f, (firstn (wn * S cn) d0), (skipn (wn * S cn) d0). split; [|split].
  - rewrite firstn_skipn. reflexivity.
  - rewrite length_firstn. lia.
  - rewrite length_skipn. lia.
Qed.

(** The [m] rows that end the image. *)
Lemma run_rows (m : nat) :
  forall (y : Z) (d rest wr : list byte),
    0 <= y -> y + Z.of_nat m = h ->
    List.length d = (m * S (wn * S cn))%nat ->
    exists cs ms,
      reinterleave m wn cn cs ms = Some d /\
      List.length cs = (m * S (wn * cn))%nat /\ List.length ms = (m * S wn)%nat /\
      forall fuel,
        ReadAll (Alpha.Read b) (m * S wn + fuel) (sep (d ++ rest) wr y 0) =
        prepend cs (ReadAll (Alpha.Read b) fuel (sep rest (wr ++ ms) h 0)).
Proof.
  induction m as [|m IH]; intros y d rest wr Hy Hh Hd.
  - destruct d; [|discriminate]. exists [], [].
    split; [reflexivity|]. split; [reflexivity|]. split; [reflexivity|].
    intros fuel. rewrite prepend_nil, app_nil_r. cbn [app Nat.mul Nat.add].
    f_equal. unsep. f_equal. lia.
  - destruct (split_row m d Hd) as (f & px & d' & -> & Hpx & Hd').
    destruct (run_pixels wn 0 px (d' ++ rest) (wr ++ [f]) y ltac:(lia) ltac:(lia)
                         ltac:(unfold w; lia) Hpx)
      as (cs1 & ms1 & Hcs1 & Hms1 & Hzip & Hrun1).
    destruct (IH (y + 1) d' rest ((wr ++ [f]) ++ ms1) ltac:(lia) ltac:(lia) Hd')
      as (cs2 & ms2 & Hre & Hcs2 & Hms2 & Hrun2).
    exists (f :: cs1 ++ cs2), (f :: ms1 ++ ms2). split; [|split; [|split]].
    + rewrite reinterleave_row by assumption. rewrite Hzip, Hre. reflexivity.
    + cbn [List.length]. rewrite length_app. cbn [Nat.mul]. lia.
    + cbn [List.length]. rewrite length_app. cbn [Nat.mul]. lia.
    + intros fuel.
      replace (S m * S wn + fuel)%nat with (S (wn + (m * S wn + fuel)))%nat by lia.
      cbn [app]. rewrite <- app_assoc.
      rewrite (ReadAll_more _ _ _ _ _
                 (sep_Read_filter f (px ++ d' ++ rest) wr y ltac:(lia))).
      change 1 with (1 + 0 * (chs + 1)) at 1.
      rewrite Hrun1, Hrun2, !prepend_app.
      rewrite <- !app_assoc. reflexivity.
Qed.

(** Reading the separator of a whole image to its end: the bytes handed
    out and the bytes written to the alpha writer re-interleave to the
    image. *)
Lemma separator_splits_image (D : list byte) :
  List.length D = (hn * S (wn * S cn))%nat ->
  exists cs ms,
    reinterleave hn wn cn cs ms = Some D /\
    List.length cs = (hn * S (wn * cn))%nat /\ List.length ms = (hn * S wn)%nat /\
    forall fuel,
      (hn * S wn < fuel)%nat ->
      ReadAll (Alpha.Read b) fuel (sep D [] 0 0) = Done (cs, None) (sep [] ms h 0).
Proof.
  intros HD.
  destruct (run_rows hn 0 D [] [] ltac:(lia) ltac:(unfold h; lia) HD)
    as (cs & ms & Hre & Hcs & Hms & Hrun).
  exists cs, ms. split; [exact Hre|]. split; [exact Hcs|]. split; [exact Hms|].
  intros fuel Hf.
  replace fuel with (hn * S wn + S (fuel - hn * S wn - 1))%nat by lia.
  rewrite <- (app_nil_r D) at 1. rewrite Hrun.
  rewrite (ReadAll_end _ _ _ _ _ (sep_Read_end [] ([] ++ ms))).
  cbn [prepend app]. rewrite app_nil_r. reflexivity.
Qed.

End Separation.

Lemma newAlphaSeparator_sep (w h chs : Z) (D : list byte) :
  0 <= w < 2 ^ 32 -> 0 <= chs < 2 ^ 28 ->
  Alpha.newAlphaSeparator D w h chs = sep_at w h chs D [] 0 0.
Proof.
  intros Hw Hc. unfold Alpha.newAlphaSeparator, sep_at.
  rewrite (int_small (chs + 1)) by lia.
  rewrite (int_small ((chs + 1) * w)) by nia.
  rewrite int_small by nia. reflexivity.
Qed.

(** C4, as the code has it: for an image of colour type 4 or 6 whose
    decompressed scanline stream is [D], reading the recompressed colour
    stream to its end and then flushing the separator gives two streams
    that inflate to a colour stream of [h * (1 + w * C)] bytes and a mask
    stream of [h * (1 + w)] bytes from which [D] is rebuilt byte for byte,
    when each row of the colour stream is taken as the filter byte followed
    by the colour bytes and each row of the mask stream as the same filter
    byte followed by one alpha byte per pixel. *)
Theorem split_streams_reinterleave
        (deflate inflate : list byte -> list byte)
        (ct : byte) (w h : Z) (D : list byte) (b : slice) (fuel : nat) :
  (forall x, inflate (deflate x) = x) ->
  byte_to_Z ct = 4 \/ byte_to_Z ct = 6 ->
  0 <= w < 2 ^ 32 -> 0 <= h < 2 ^ 32 ->
  h * (1 + (channels ct + 1) * w) < 2 ^ 62 ->
  len D = h * (1 + (channels ct + 1) * w) ->
  slen b <> 0 -> channels ct + 1 <= scap b ->
  h * (w + 1) < Z.of_nat fuel ->
  exists colour a',
    compressor_readAll deflate fuel b (Alpha.newAlphaSeparator D w h (channels ct)) =
    Done (colour, None) a' /\
    Alpha.rc a' = [] /\
    len (inflate colour) = h * (1 + w * channels ct) /\
    len (inflate (Alpha_Flush deflate a')) = h * (1 + w) /\
    reinterleave (Z.to_nat h) (Z.to_nat w) (Z.to_nat (channels ct))
                 (inflate colour) (inflate (Alpha_Flush deflate a')) = Some D.
Proof.
  intros Hcodec Hct Hw Hh Hsmall HD Hb Hcap Hfuel.
  assert (Hchs : 0 <= channels ct < 4) by (unfold channels; destruct (byte_to_Z ct =? 4); lia).
  set (chs := channels ct) in *.
  assert (Ew : w = Z.of_nat (Z.to_nat w)) by lia.
  assert (Eh : h = Z.of_nat (Z.to_nat h)) by lia.
  assert (Ec : chs = Z.of_nat (Z.to_nat chs)) by lia.
  destruct (separator_splits_image (Z.to_nat w) (Z.to_nat h) (Z.to_nat chs) b) with (D := D)
    as (cs & ms & Hre & Hcs & Hms & Hrun).
  - lia.
  - rewrite <- Ew, <- Ec. nia.
  - rewrite <- Ew, <- Ec, <- Eh. exact Hsmall.
  - exact Hb.
  - rewrite <- Ec. exact Hcap.
  - unfold len in HD. nia.
  - rewrite <- Ew, <- Eh, <- Ec in Hrun.
    exists (deflate cs), (sep_at w h chs [] ms h 0).
    unfold compressor_readAll, bind.
    rewrite newAlphaSeparator_sep by lia.
    rewrite Hrun by nia.
    split; [reflexivity|]. split; [reflexivity|].
    unfold Alpha_Flush. cbn [Alpha.writer sep_at]. rewrite !Hcodec.
    split; [unfold len; rewrite Hcs; nia|].
    split; [unfold len; rewrite Hms; nia|].
    exact Hre.
Qed.

Lemma split_streams_reinterleave_witness :
  exists colour a',
    compressor_readAll stored 3 (mkSlice 8 8) (Alpha.newAlphaSeparator [x02; x0a; xff] 1 1 (channels x04)) =
    Done (colour, None) a' /\
    Alpha.rc a' = [] /\
    len (stored colour) = 1 * (1 + 1 * channels x04) /\
    len (stored (Alpha_Flush stored a')) = 1 * (1 + 1) /\
    reinterleave (Z.to_nat 1) (Z.to_nat 1) (Z.to_nat (channels x04))
                 (stored colour) (stored (Alpha_Flush stored a')) = Some [x02; x0a; xff].
Proof.
  apply (split_streams_reinterleave stored stored x04 1 1 [x02; x0a; xff] (mkSlice 8 8) 3).
  - reflexivity.
  - left. reflexivity.
  - split; [discriminate|reflexivity].
  - split; [discriminate|reflexivity].
  - reflexivity.
  - reflexivity.
  - discriminate.
  - cbv. discriminate.
  - reflexivity.
Defined.

(** The mask row has to start with the filter byte of the colour row: with
    another byte in its place the streams do not re-interleave. *)
Example reinterleave_checks_filter_byte :
  reinterleave 1 1 1 [x02; x0a] [x02; xff] = Some [x02; x0a; xff] /\
  reinterleave 1 1 1 [x02; x0a] [x00; xff] = None /\
  reinterleave 1 1 1 [x02; x0a] [] = None.
Proof. repeat split. Qed.

(** C4 as stated fails: with the mask stream read as the specification lays
    it out (alpha bytes only), the one-pixel grey+alpha image with filter
    byte 2, grey 10, alpha 255 is rebuilt as 2, 10, 2: the mask stream of
    the code starts with the filter byte. *)
Lemma reinterleave_by_spec_layout_fails :
  exists colour a',
    compressor_readAll stored 3 (mkSlice 8 8) one_pixel_ga = Done (colour, None) a' /\
    stored colour = [x02; x0a] /\
    stored (Alpha_Flush stored a') = [x02; xff] /\
    reinterleave_spec 1 1 1 (stored colour) (stored (Alpha_Flush stored a')) = [x02; x0a; x02] /\
    reinterleave_spec 1 1 1 (stored colour) (stored (Alpha_Flush stored a')) <> [x02; x0a; xff].
Proof.
  eexists. eexists. split; [vm_compute; reflexivity|].
  repeat split. discriminate.
Qed.

(** ** Pass-through of the IDAT payload *)

(** C5, the code at the failing input: the descriptor is classified as
    DeviceGray, but the colour stream does not end with the IDAT payload
    01 02 03: the length of the tEXt chunk stays in [readable], and five
    bytes of the IEND frame are handed out as payload. *)
Theorem text_chunk_after_idat_leaks_into_colour_stream
        (zr : zlibNewReader) (k1 k2 k3 k4 : crc) :
  colour_stream_bytes zr (png_text_after_idat k1 k2 k3 k4) 512 8 =
  Some ("DeviceGray"%string, [x01; x02; x03] ++ [x00; x00; x00; x00; x49], None) /\
  [x01; x02; x03] ++ [x00; x00; x00; x00; x49] <> [x01; x02; x03].
Proof.
  destruct k1 as [[[a3 a2] a1] a0], k2 as [[[b3 b2] b1] b0],
           k3 as [[[c3 c2] c1] c0], k4 as [[[d3 d2] d1] d0].
  split; [vm_compute; reflexivity|discriminate].
Qed.

(** A second defect on the same path: the checksum of an empty IDAT chunk
    is not consumed before the next frame is parsed, so it is taken for a
    chunk length, and the read fails without any payload. *)
Example empty_idat_breaks_colour_stream (zr : zlibNewReader) :
  colour_stream_bytes zr png_empty_idat 512 8 =
  Some ("DeviceGray"%string, [], Some ErrUnexpectedEOF).
Proof. vm_compute. reflexivity. Qed.

(** Two IDAT chunks in a row, then IEND: the payloads pass through. *)
Example contiguous_idat_passes_through (zr : zlibNewReader) :
  colour_stream_bytes zr
    (sig_bytes ++ ihdr 2 1 x08 x00 ++ chunk "IDAT" [x01; x02; x03] ++
     chunk "IDAT" [x04; x05] ++ chunk "IEND" []) 2 8 =
  Some ("DeviceGray"%string, [x01; x02; x03; x04; x05], None).
Proof. vm_compute. reflexivity. Qed.

(** ** Contiguous IDAT chunks

    What the read path does get right: a run of non-empty IDAT chunks
    closed by IEND at the end of the input is handed out as the
    concatenation of the payloads. *)

Lemma byte_of_N_to_Z (n : Z) :
  0 <= n < 256 ->
  byte_to_Z (match Byte.of_N (Z.to_N n) with Some b => b | None => x00 end) = n.
Proof.
  intros H. destruct (Byte.of_N (Z.to_N n)) as [b|] eqn:E.
  - apply Byte.to_of_N in E. unfold byte_to_Z. rewrite E. lia.
  - apply Byte.of_N_None_iff in E. lia.
Qed.

Lemma testbit_byte_of (z k m : Z) :
  0 <= k ->
  Z.testbit ((z / 2 ^ k) mod 2 ^ 8) m = (0 <=? m) && (m <? 8) && Z.testbit z (m + k).
Proof.
  intros Hk. destruct (Z.leb_spec 0 m) as [Hm|Hm].
  - destruct (Z.ltb_spec m 8) as [H8|H8]; cbn [andb].
    + rewrite Z.mod_pow2_bits_low by lia. rewrite Z.div_pow2_bits by lia. reflexivity.
    + apply Z.mod_pow2_bits_high. lia.
  - apply Z.testbit_neg_r. lia.
Qed.

Lemma BigEndian_Uint32_be32 (z : Z) :
  0 <= z < 2 ^ 32 -> BigEndian_Uint32 (be32 z) = z.
Proof.
  intros Hz. unfold be32, BigEndian_Uint32. cbn [map nth].
  rewrite !byte_of_N_to_Z by (apply Z.mod_pos_bound; lia).
  apply Z.bits_inj'. intros n Hn.
  rewrite !Z.lor_spec, !Z.shiftl_spec by lia.
  change 256 with (2 ^ 8).
  rewrite !testbit_byte_of by lia.
  destruct (Z.lt_ge_cases n 32) as [H32|H32].
  - destruct (Z.leb_spec 0 (n - 24)), (Z.ltb_spec (n - 24) 8);
    destruct (Z.leb_spec 0 (n - 16)), (Z.ltb_spec (n - 16) 8);
    destruct (Z.leb_spec 0 (n - 8)), (Z.ltb_spec (n - 8) 8);
    destruct (Z.leb_spec 0 n), (Z.ltb_spec n 8); try lia; cbn [andb orb];
    rewrite ?orb_false_r; f_equal; lia.
  - assert (Hhigh : Z.testbit z n = false).
    { destruct (Z.eq_dec z 0) as [->|Hnz]; [apply Z.bits_0|].
      apply Z.bits_above_log2; [lia|].
      apply Z.lt_le_trans with 32; [|exact H32].
      apply Z.log2_lt_pow2; lia. }
    rewrite Hhigh.
    destruct (Z.ltb_spec (n - 24) 8), (Z.ltb_spec (n - 16) 8),
             (Z.ltb_spec (n - 8) 8), (Z.ltb_spec n 8); try lia;
    rewrite ?andb_false_r; reflexivity.
Qed.

Lemma len_be32 (z : Z) : len (be32 z) = 4.
Proof. reflexivity. Qed.

Lemma len_crc_bytes (k : crc) : len (crc_bytes k) = 4.
Proof. destruct k as [[[k3 k2] k1] k0]. reflexivity. Qed.

Lemma parseUntil_in_Data (p : Png.pngStream) :
  Png.state p = stateData -> Png.parseUntil stateData p = Done None p.
Proof.
  intros Hs. unfold Png.parseUntil, bind, get. rewrite Hs. cbn. rewrite Hs. reflexivity.
Qed.

(** The frame header of the next IDAT chunk. *)
Lemma parseChunk_IDAT (p : Png.pngStream) (payload : list byte) (k : crc) (rest : list byte) :
  len payload < 2 ^ 32 ->
  Png.r p = frame "IDAT" payload k ++ rest ->
  exists p',
    Png.parseChunk p = Done None p' /\
    Png.state p' = stateData /\ Png.readable p' = len payload /\
    Png.r p' = payload ++ crc_bytes k ++ rest.
Proof.
  intros HL Hr. pose proof (len_nonneg payload) as H0.
  unfold frame in Hr. rewrite <- !app_assoc in Hr.
  unfold Png.parseChunk, bind.
  rewrite readBeUint32_enough
    by (rewrite Hr, len_app, len_be32; pose proof (len_nonneg
          (list_byte_of_string "IDAT" ++ payload ++ crc_bytes k ++ rest)); lia).
  rewrite Hr. rewrite (firstn_length_app (be32 (len payload))) by reflexivity.
  rewrite (skipn_length_app (be32 (len payload))) by reflexivity.
  rewrite BigEndian_Uint32_be32 by lia.
  cbn [modify guard Png.r Png.set_readable Png.set_buf Png.set_r].
  rewrite readString_enough.
  2:{ cbn [Png.r Png.set_readable Png.set_buf Png.set_r]. rewrite len_app.
      pose proof (len_nonneg (payload ++ crc_bytes k ++ rest)).
      change (len (list_byte_of_string "IDAT")) with 4. lia. }
  cbn [guard Png.r Png.set_readable Png.set_buf Png.set_r]. change (Z.to_nat 4) with 4%nat.
  rewrite (firstn_length_app (list_byte_of_string "IDAT")) by reflexivity.
  rewrite (skipn_length_app (list_byte_of_string "IDAT")) by reflexivity.
  rewrite string_of_list_byte_of_string. cbn [String.eqb Ascii.eqb Bool.eqb].
  eexists. split; [reflexivity|]. repeat split.
Qed.

(** The IEND frame at the end of the input. *)
Lemma parseChunk_IEND (p : Png.pngStream) (k : crc) :
  Png.r p = frame "IEND" [] k ->
  exists p',
    Png.parseChunk p = Done None p' /\
    Png.state p' = stateEnd /\ Png.readable p' = 0 /\ Png.r p' = [].
Proof.
  intros Hr. destruct k as [[[k3 k2] k1] k0].
  unfold Png.parseChunk, bind.
  rewrite readBeUint32_enough by (rewrite Hr; cbv; discriminate).
  rewrite Hr.
  cbn [modify guard Png.r Png.set_readable Png.set_buf Png.set_r].
  rewrite readString_enough by (cbv; split; [reflexivity|discriminate]).
  cbn [guard Png.r Png.set_readable Png.set_buf Png.set_r].
  change (string_of_list_byte (firstn (Z.to_nat 4) (skipn 4 (frame "IEND" [] (k3, k2, k1, k0)))))
    with "IEND"%string.
  cbn [String.eqb Ascii.eqb Bool.eqb modify guard ret].
  rewrite next_enough by (cbv; split; [reflexivity|discriminate]).
  eexists. split; [reflexivity|]. repeat split.
Qed.

Lemma Read_after_loop (n : Z) (p p1 : Png.pngStream) :
  Png.state p = stateData ->
  0 <= Png.readable p ->
  Png.Read_loop (S (List.length (Png.r p))) p = Done None p1 ->
  Png.Read n p = transfer n p1.
Proof.
  intros Hs Hrd Hloop. unfold Png.Read. unfold bind at 1. unfold get at 1.
  rewrite Hs. change (stateData >? stateData) with false. cbv iota.
  unfold bind at 1. rewrite parseUntil_in_Data by exact Hs.
  unfold bind at 1. unfold get at 1.
  destruct (Z.ltb_spec (Png.readable p) 0); [lia|].
  unfold bind at 1. rewrite Hloop.
  unfold bind at 1. unfold get at 1. unfold transfer.
  destruct (Reader_Read (Png.r p1) (Z.min n (int (Png.readable p1)))) as [[bs err] rd'].
  unfold bind, modify, get, ret.
  cbn [Png.readable Png.set_readable Png.set_r].
  destruct (uint32 (Png.readable p1 - uint32 (len bs)) <=? 0); [|reflexivity].
  destruct (Png.next 4 _) as [[m e] p3| |]; reflexivity.
Qed.

Lemma Reader_Read_some (rd : Reader) (n : Z) :
  0 < len rd ->
  Reader_Read rd n =
  ((firstn (Z.to_nat (Z.min n (len rd))) rd, None), skipn (Z.to_nat (Z.min n (len rd))) rd).
Proof.
  intros H. destruct rd; [cbn in H; lia|reflexivity].
Qed.

(** One read inside an IDAT chunk whose remaining payload is [payload]. *)
Lemma Read_in_chunk (p : Png.pngStream) (n : Z) (payload : list byte) (k : crc)
      (rest : list byte) :
  0 < n ->
  Png.state p = stateData ->
  Png.readable p = len payload ->
  0 < len payload < 2 ^ 32 ->
  Png.r p = payload ++ crc_bytes k ++ rest ->
  exists p',
    Png.Read n p = Done (firstn (Z.to_nat n) payload, None) p' /\
    Png.state p' = stateData /\
    Png.readable p' = len (skipn (Z.to_nat n) payload) /\
    Png.r p' = if n <? len payload
               then skipn (Z.to_nat n) payload ++ crc_bytes k ++ rest
               else rest.
Proof.
  intros Hn Hs Hrd HL Hr.
  rewrite (Read_after_loop n p p Hs ltac:(lia)).
  2:{ cbn [Png.Read_loop]. destruct (Z.eqb_spec (Png.readable p) 0); [lia|reflexivity]. }
  unfold transfer.
  rewrite int_small by lia. rewrite Hrd, Hr.
  rewrite Reader_Read_some
    by (rewrite len_app; pose proof (len_nonneg (crc_bytes k ++ rest)); lia).
  assert (Hmin : Z.min (Z.min n (len payload)) (len (payload ++ crc_bytes k ++ rest)) =
                 Z.min n (len payload)).
  { rewrite len_app. pose proof (len_nonneg (crc_bytes k ++ rest)). lia. }
  rewrite Hmin.
  assert (Hfirst : firstn (Z.to_nat (Z.min n (len payload))) (payload ++ crc_bytes k ++ rest) =
                   firstn (Z.to_nat n) payload).
  { rewrite firstn_app.
    replace (Z.to_nat (Z.min n (len payload)) - List.length payload)%nat with 0%nat
      by (unfold len; lia).
    cbn [firstn]. rewrite app_nil_r.
    destruct (Z.le_ge_cases n (len payload)).
    - rewrite Z.min_l by lia. reflexivity.
    - rewrite Z.min_r by lia. unfold len. rewrite Nat2Z.id.
      rewrite firstn_all. symmetry. apply firstn_all2. unfold len in *. lia. }
  assert (Hskip : skipn (Z.to_nat (Z.min n (len payload))) (payload ++ crc_bytes k ++ rest) =
                  skipn (Z.to_nat n) payload ++ crc_bytes k ++ rest).
  { rewrite skipn_app.
    replace (Z.to_nat (Z.min n (len payload)) - List.length payload)%nat with 0%nat
      by (unfold len; lia).
    cbn [skipn]. f_equal.
    destruct (Z.le_ge_cases n (len payload)).
    - rewrite Z.min_l by lia. reflexivity.
    - rewrite Z.min_r by lia. unfold len. rewrite Nat2Z.id.
      rewrite skipn_all. symmetry. apply skipn_all2. unfold len in *. lia. }
  rewrite Hfirst, Hskip.
  assert (Hlenf : len (firstn (Z.to_nat n) payload) = Z.min n (len payload)).
  { unfold len. rewrite length_firstn. lia. }
  assert (Hlens : len (skipn (Z.to_nat n) payload) = len payload - Z.min n (len payload)).
  { unfold len. rewrite length_skipn. lia. }
  cbn [Png.r Png.readable Png.set_r Png.set_readable].
  rewrite Hlenf.
  assert (Hu : uint32 (len payload - uint32 (Z.min n (len payload))) =
               len payload - Z.min n (len payload)).
  { unfold uint32. rewrite (Z.mod_small (Z.min n (len payload))) by lia.
    apply Z.mod_small. lia. }
  rewrite Hu.
  destruct (Z.leb_spec (len payload - Z.min n (len payload)) 0) as [Hz|Hz].
  - (* the chunk is drained: its checksum is skipped *)
    assert (Hge : len payload <= n) by lia.
    assert (Hnil : skipn (Z.to_nat n) payload = []).
    { apply skipn_all2. unfold len in *. lia. }
    rewrite Hnil. cbn [app].
    rewrite next_enough.
    2:{ cbn [Png.r Png.set_r Png.set_readable]. rewrite len_app, len_crc_bytes.
        pose proof (len_nonneg rest). lia. }
    eexists. split; [reflexivity|].
    cbn [Png.state Png.readable Png.r Png.set_r Png.set_readable Png.set_buf].
    destruct (Z.ltb_spec n (len payload)); [lia|].
    split; [exact Hs|]. split.
    + cbn. lia.
    + apply skipn_len_app. apply len_crc_bytes.
  - eexists. split; [reflexivity|].
    cbn [Png.state Png.readable Png.r Png.set_r Png.set_readable Png.set_buf].
    destruct (Z.ltb_spec n (len payload)); [|lia].
    split; [exact Hs|]. split; [lia|reflexivity].
Qed.

Lemma Read_loop_stops (fuel : nat) (p : Png.pngStream) :
  Png.readable p <> 0 -> Png.Read_loop fuel p = Done None p.
Proof.
  intros H. destruct fuel; cbn [Png.Read_loop];
    destruct (Z.eqb_spec (Png.readable p) 0); try contradiction; reflexivity.
Qed.

(** Between two IDAT chunks a read parses the frame header of the next
    chunk and goes on as a read inside that chunk. *)
Lemma Read_at_boundary (p : Png.pngStream) (n : Z) (payload : list byte) (k : crc)
      (rest : list byte) :
  Png.state p = stateData -> Png.readable p = 0 ->
  0 < len payload < 2 ^ 32 ->
  Png.r p = frame "IDAT" payload k ++ rest ->
  exists p2,
    Png.Read n p = Png.Read n p2 /\
    Png.state p2 = stateData /\ Png.readable p2 = len payload /\
    Png.r p2 = payload ++ crc_bytes k ++ rest.
Proof.
  intros Hs Hrd HL Hr.
  destruct (parseChunk_IDAT p payload k rest ltac:(lia) Hr) as (p2 & Hpc & Hs2 & Hrd2 & Hr2).
  exists p2. split; [|auto].
  rewrite (Read_after_loop n p p2 Hs ltac:(lia)).
  - symmetry. apply Read_after_loop; [exact Hs2|lia|].
    apply Read_loop_stops. lia.
  - cbn [Png.Read_loop]. rewrite Hrd. cbn [Z.eqb]. unfold bind. rewrite Hpc.
    cbn [guard]. apply Read_loop_stops. lia.
Qed.

(** After the last IDAT chunk: IEND is parsed, and the parse that follows
    finds the end of the input. *)
Lemma Read_at_end (p : Png.pngStream) (n : Z) (k : crc) :
  Png.state p = stateData -> Png.readable p = 0 ->
  Png.r p = frame "IEND" [] k ->
  exists p', Png.Read n p = Done ([], Some EOF) p'.
Proof.
  intros Hs Hrd Hr.
  destruct (parseChunk_IEND p k Hr) as (p2 & Hpc & Hs2 & Hrd2 & Hr2).
  unfold Png.Read. unfold bind at 1. unfold get at 1.
  rewrite Hs. change (stateData >? stateData) with false. cbv iota.
  unfold bind at 1. rewrite parseUntil_in_Data by exact Hs.
  unfold bind at 1. unfold get at 1. rewrite Hrd. cbn [Z.ltb Z.compare].
  unfold bind at 1.
  replace (List.length (Png.r p)) with 12%nat
    by (rewrite Hr; destruct k as [[[k3 k2] k1] k0]; reflexivity).
  cbn [Png.Read_loop]. rewrite Hrd. cbn [Z.eqb]. unfold bind at 1. rewrite Hpc.
  cbn [guard]. rewrite Hrd2. cbn [Z.eqb].
  unfold bind at 1. unfold Png.parseChunk. unfold bind at 1.
  rewrite readBeUint32_short by (rewrite Hr2; reflexivity).
  unfold bind at 1. cbn [modify guard ret].
  eexists. reflexivity.
Qed.

(** The payload that is left of the current chunk, read in pieces of at
    most [n] bytes. *)
Lemma drain_chunk (n : Z) (m : nat) :
  0 < n ->
  forall (payload : list byte) (p : Png.pngStream) (k : crc) (rest : list byte),
    (List.length payload <= m)%nat ->
    Png.state p = stateData ->
    Png.readable p = len payload ->
    0 < len payload < 2 ^ 32 ->
    Png.r p = payload ++ crc_bytes k ++ rest ->
    exists j p',
      Png.state p' = stateData /\ Png.readable p' = 0 /\ Png.r p' = rest /\
      forall fuel,
        ReadAll (Png.Read n) (j + fuel) p = prepend payload (ReadAll (Png.Read n) fuel p').
Proof.
  intros Hn. induction m as [|m IH]; intros payload p k rest Hm Hs Hrd HL Hr.
  - unfold len in HL. lia.
  - destruct (Read_in_chunk p n payload k rest Hn Hs Hrd HL Hr)
      as (p1 & HR & Hs1 & Hrd1 & Hr1).
    destruct (Z.ltb_spec n (len payload)) as [Hlt|Hge].
    + assert (Hlen1 : len (skipn (Z.to_nat n) payload) = len payload - n)
        by (apply len_skipn; lia).
      destruct (IH (skipn (Z.to_nat n) payload) p1 k rest) as (j & p' & Hs' & Hrd' & Hr' & Hrun);
        try assumption; try lia.
      { rewrite length_skipn. unfold len in *. lia. }
      exists (S j), p'. repeat split; try assumption.
      intros fuel. cbn [Nat.add]. rewrite (ReadAll_more _ _ _ _ _ HR).
      rewrite Hrun, prepend_app, firstn_skipn. reflexivity.
    + exists 1%nat, p1. split; [exact Hs1|]. split; [|split; [exact Hr1|]].
      * rewrite Hrd1. rewrite skipn_all2 by (unfold len in *; lia). reflexivity.
      * intros fuel. cbn [Nat.add]. rewrite (ReadAll_more _ _ _ _ _ HR).
        rewrite firstn_all2 by (unfold len in *; lia). reflexivity.
Qed.

Lemma ReadAll_same_first {S : Type} (read : M S (list byte * option error))
      (fuel : nat) (s1 s2 : S) :
  read s1 = read s2 ->
  ReadAll read (Datatypes.S fuel) s1 = ReadAll read (Datatypes.S fuel) s2.
Proof. intros E. cbn [ReadAll]. unfold bind. rewrite E. reflexivity. Qed.

(** A run of contiguous, non-empty IDAT chunks closed by IEND at the end of
    the input passes through: read to its end in pieces of any size, the
    stream is the concatenation of the payloads. *)
Lemma contiguous_idat_pass_through (n : Z) (ps : list (list byte * crc)) :
  0 < n ->
  forall (payload : list byte) (k kend : crc) (p : Png.pngStream),
    Forall (fun c => 0 < len (fst c) < 2 ^ 32) ps ->
    Png.state p = stateData ->
    Png.readable p = len payload ->
    0 < len payload < 2 ^ 32 ->
    Png.r p = payload ++ crc_bytes k ++ idat_frames ps ++ frame "IEND" [] kend ->
    exists j p',
      forall fuel,
        (j <= fuel)%nat ->
        ReadAll (Png.Read n) fuel p = Done (payload ++ concat (map fst ps), None) p'.
Proof.
  intros Hn. induction ps as [|[payload2 k2] ps IH];
    intros payload k kend p Hall Hs Hrd HL Hr.
  - cbn [idat_frames app] in Hr.
    destruct (drain_chunk n (List.length payload) Hn payload p k _ (le_n _) Hs Hrd HL Hr)
      as (j & p1 & Hs1 & Hrd1 & Hr1 & Hrun).
    destruct (Read_at_end p1 n kend Hs1 Hrd1 Hr1) as (p' & HR).
    exists (j + 1)%nat, p'. intros fuel Hf.
    replace fuel with (j + S (fuel - j - 1))%nat by lia.
    rewrite Hrun, (ReadAll_end _ _ _ _ _ HR). cbn [prepend map concat]. reflexivity.
  - cbn [idat_frames] in Hr. rewrite <- app_assoc in Hr.
    inversion Hall as [|c cs Hc Hcs]; subst. cbn [fst] in Hc.
    destruct (drain_chunk n (List.length payload) Hn payload p k _ (le_n _) Hs Hrd HL Hr)
      as (j & p1 & Hs1 & Hrd1 & Hr1 & Hrun).
    destruct (Read_at_boundary p1 n payload2 k2 _ Hs1 Hrd1 Hc Hr1)
      as (p2 & HR & Hs2 & Hrd2 & Hr2).
    destruct (IH payload2 k2 kend p2 Hcs Hs2 Hrd2 Hc Hr2) as (j2 & p' & Hrun2).
    exists (j + S j2)%nat, p'. intros fuel Hf.
    replace fuel with (j + S (fuel - j - 1))%nat by lia.
    rewrite Hrun, (ReadAll_same_first _ _ _ _ HR), Hrun2 by lia.
    cbn [prepend map concat fst]. rewrite app_assoc. reflexivity.
Qed.

(** ** What the descriptor holds *)

(** A descriptor is returned only for the colour types 0, 2, 3, 4, 6; it is
    classified by the colour type; below colour type 4 its colour stream is
    the chunk reader itself, otherwise it is the recompressor over a
    separator with one colour channel for type 4 and three for type 6. *)
Lemma parsepngstream_descriptor (zr : zlibNewReader)
      (rd : Reader) (readdpi : bool) (f f' : Fpdf) (info : ImageInfoType) :
  parsepngstream zr rd readdpi f = Done (Some info) f' ->
  exists p,
    Png.parseUntil stateData (Png.new rd readdpi) = Done None p /\
    (byte_to_Z (Png.ct p) = 0 \/ byte_to_Z (Png.ct p) = 2 \/ byte_to_Z (Png.ct p) = 3 \/
     byte_to_Z (Png.ct p) = 4 \/ byte_to_Z (Png.ct p) = 6) /\
    info_cs info =
      (if (byte_to_Z (Png.ct p) =? 0) || (byte_to_Z (Png.ct p) =? 4)
       then "DeviceGray"%string
       else if (byte_to_Z (Png.ct p) =? 2) || (byte_to_Z (Png.ct p) =? 6)
            then "DeviceRGB"%string
            else "Indexed"%string) /\
    (byte_to_Z (Png.ct p) < 4 -> info_r info = RawIDAT p) /\
    (forall astm, info_r info = Recompressed astm ->
       exists stm, fst (zr p) = inl stm /\
         astm = Alpha.newAlphaSeparator stm (Png.w p) (Png.h p) (channels (Png.ct p))).
Proof.
  unfold parsepngstream.
  destruct (Png.parseUntil stateData (Png.new rd readdpi)) as [[e|] p| |]; try discriminate.
  intros H. exists p. split; [reflexivity|].
  unfold bind, pngColorSpace, get, modify, ret, channels in *.
  set (c := byte_to_Z (Png.ct p)) in *.
  repeat match type of H with
         | context [err (mkFpdf _ _)] => cbn [err] in H
         | context [if ?b then _ else _] => destruct b eqn:?
         | context [match err ?g with _ => _ end] => destruct (err g) eqn:?
         | context [match zr p with _ => _ end] => destruct (zr p) as [[?|?] ?] eqn:?
         end;
    try discriminate H; inversion H; subst; clear H;
    cbn [info_cs info_r];
    repeat match goal with
           | E : (_ || _) = true |- _ => apply orb_true_iff in E; destruct E
           | E : (_ || _) = false |- _ => apply orb_false_iff in E; destruct E
           | E : (_ =? _) = true |- _ => apply Z.eqb_eq in E
           | E : (_ =? _) = false |- _ => apply Z.eqb_neq in E
           | E : (_ >=? _) = true |- _ => apply Z.geb_le in E
           | E : (_ >=? _) = false |- _ => rewrite Z.geb_leb in E; apply Z.leb_gt in E
           end;
    (split; [lia|]); (split; [reflexivity|]);
    (split; [intros; first [reflexivity|exfalso; lia]|]);
    intros astm Ha; try discriminate Ha; inversion Ha; subst;
    eexists; (split; [reflexivity|]); first [reflexivity|exfalso; lia].
Qed.

(** * Further properties of the decoder *)

(** ** Skipping and storing chunk payloads *)

Lemma only_io_refl (p : Png.pngStream) : only_io p p.
Proof. unfold only_io. repeat split. Qed.

Lemma only_io_trans (p1 p2 p3 : Png.pngStream) :
  only_io p1 p2 -> only_io p2 p3 -> only_io p1 p3.
Proof. unfold only_io. intuition congruence. Qed.

Lemma readFull_buf_enough (p : Png.pngStream) (n : Z) :
  0 < n <= len (Png.r p) ->
  Png.readFull_buf n p =
  Done (n, None)
       (Png.set_buf (fill (firstn (Z.to_nat n) (Png.r p)) (Png.buf p))
                    (Png.set_r (skipn (Z.to_nat n) (Png.r p)) p)).
Proof.
  intros H. unfold Png.readFull_buf. rewrite ReadFull_enough by exact H.
  rewrite len_firstn by lia. reflexivity.
Qed.

Lemma ignoreChunk_loop_enough (fuel : nat) :
  forall (n : Z) (p : Png.pngStream),
    0 <= n <= len (Png.r p) ->
    len (Png.r p) < Z.of_nat fuel ->
    exists p',
      Png.ignoreChunk_loop fuel n p = Done None p' /\
      Png.r p' = skipn (Z.to_nat n) (Png.r p) /\ only_io p p'.
Proof.
  induction fuel as [|fuel IH]; intros n p Hn Hf.
  - pose proof (len_nonneg (Png.r p)). lia.
  - cbn [Png.ignoreChunk_loop]. destruct (Z.gtb_spec n 0) as [Hpos|Hz].
    + set (m := Z.min n Png.buf_len).
      assert (Hm : 0 < m <= n) by (subst m; unfold Png.buf_len; cbn; lia).
      unfold bind. rewrite readFull_buf_enough by lia. cbn [guard].
      destruct (IH (n - m) (Png.set_buf (fill (firstn (Z.to_nat m) (Png.r p)) (Png.buf p))
                                        (Png.set_r (skipn (Z.to_nat m) (Png.r p)) p)))
        as (p' & HE & Hr & Hio).
      * cbn [Png.r Png.set_buf Png.set_r]. rewrite len_skipn by lia. lia.
      * cbn [Png.r Png.set_buf Png.set_r]. rewrite len_skipn by lia. lia.
      * exists p'. split; [exact HE|]. split.
        -- rewrite Hr. cbn [Png.r Png.set_buf Png.set_r]. rewrite skipn_skipn.
           f_equal. lia.
        -- eapply only_io_trans; [|exact Hio]. unfold only_io. cbn. repeat split.
    + exists p. split; [reflexivity|]. split; [|apply only_io_refl].
      replace n with 0 by lia. reflexivity.
Qed.

Lemma ignoreChunk_loop_short (fuel : nat) :
  forall (n : Z) (p : Png.pngStream),
    len (Png.r p) < n ->
    len (Png.r p) < Z.of_nat fuel ->
    exists e p',
      Png.ignoreChunk_loop fuel n p = Done (Some e) p' /\
      (e = EOF \/ e = ErrUnexpectedEOF) /\
      Png.r p' = [] /\ only_io p p'.
Proof.
  induction fuel as [|fuel IH]; intros n p Hn Hf.
  - pose proof (len_nonneg (Png.r p)). lia.
  - pose proof (len_nonneg (Png.r p)) as H0.
    cbn [Png.ignoreChunk_loop]. destruct (Z.gtb_spec n 0) as [Hpos|Hz]; [|lia].
    set (m := Z.min n Png.buf_len).
    assert (Hm : 0 < m <= n) by (subst m; unfold Png.buf_len; cbn; lia).
    destruct (Z.lt_ge_cases (len (Png.r p)) m) as [Hshort|Hlong].
    + unfold bind, Png.readFull_buf. rewrite ReadFull_short by exact Hshort.
      cbn [guard ret].
      eexists. eexists. split; [reflexivity|]. split.
      * destruct (Png.r p); auto.
      * split; [reflexivity|]. unfold only_io. cbn. repeat split.
    + unfold bind. rewrite readFull_buf_enough by lia. cbn [guard].
      destruct (IH (n - m) (Png.set_buf (fill (firstn (Z.to_nat m) (Png.r p)) (Png.buf p))
                                        (Png.set_r (skipn (Z.to_nat m) (Png.r p)) p)))
        as (e & p' & HE & He & Hr & Hio).
      * cbn [Png.r Png.set_buf Png.set_r]. rewrite len_skipn by lia. lia.
      * cbn [Png.r Png.set_buf Png.set_r]. rewrite len_skipn by lia. lia.
      * exists e, p'. split; [exact HE|]. split; [exact He|]. split; [exact Hr|].
        eapply only_io_trans; [|exact Hio]. unfold only_io. cbn. repeat split.
Qed.

Lemma ignoreChunk_enough (n : Z) (p : Png.pngStream) :
  0 <= n <= len (Png.r p) ->
  exists p',
    Png.ignoreChunk n p = Done None p' /\
    Png.r p' = skipn (Z.to_nat n) (Png.r p) /\ only_io p p'.
Proof.
  intros H. unfold Png.ignoreChunk. apply ignoreChunk_loop_enough; [exact H|].
  unfold len. lia.
Qed.

(** X1: [ignoreChunk(n)] on a source that holds at least [n] bytes takes
    exactly [n] bytes from it, in pieces of at most 768, returns no error
    and leaves every field of the stream but the source and the scratch
    buffer as it was. *)
Theorem ignoreChunk_skips_exactly (n : Z) (p : Png.pngStream) :
  0 <= n <= len (Png.r p) ->
  exists p',
    Png.ignoreChunk n p = Done None p' /\
    Png.r p' = skipn (Z.to_nat n) (Png.r p) /\ only_io p p'.
Proof.
  intros H. destruct (ignoreChunk_enough n p H) as (p' & HE & Hr & Hio).
  exists p'. split; [exact HE|]. split; [exact Hr|exact Hio].
Qed.

Lemma ignoreChunk_skips_exactly_witness :
  exists p',
    Png.ignoreChunk 2 (Png.new [x01; x02; x03] false) = Done None p' /\
    Png.r p' = skipn (Z.to_nat 2) (Png.r (Png.new [x01; x02; x03] false)) /\
    only_io (Png.new [x01; x02; x03] false) p'.
Proof.
  apply (ignoreChunk_skips_exactly 2 (Png.new [x01; x02; x03] false)).
  split; [discriminate|]. cbv. discriminate.
Defined.

(** X2: [ignoreChunk(n)] on a source that ends before [n] bytes have been
    skipped drains the source and returns the error of [io.ReadFull] as it
    is, [io.EOF] or [io.ErrUnexpectedEOF]: unlike [next], it does not turn
    the second into the first. *)
Theorem ignoreChunk_truncated (n : Z) (p : Png.pngStream) :
  len (Png.r p) < n ->
  exists e p',
    Png.ignoreChunk n p = Done (Some e) p' /\
    (e = EOF \/ e = ErrUnexpectedEOF) /\
    (0 < len (Png.r p) < Png.buf_len -> e = ErrUnexpectedEOF) /\
    Png.r p' = [] /\ only_io p p'.
Proof.
  intros H. unfold Png.ignoreChunk.
  destruct (ignoreChunk_loop_short (S (List.length (Png.r p))) n p H ltac:(unfold len; lia))
    as (e & p' & HE & He & Hr & Hio).
  exists e, p'.
  split; [exact HE|]. split; [exact He|]. split; [|split; [exact Hr|exact Hio]].
  intros Hsmall. cbn [Png.ignoreChunk_loop] in HE.
  destruct (Z.gtb_spec n 0); [|lia].
  unfold bind, Png.readFull_buf in HE.
  rewrite ReadFull_short in HE by (unfold Png.buf_len in *; cbn in *; lia).
  destruct (Png.r p) as [|b0 rd0]; [cbn in Hsmall; lia|].
  cbn [guard ret] in HE. inversion HE. reflexivity.
Qed.

Lemma ignoreChunk_truncated_witness :
  exists e p',
    Png.ignoreChunk 5 (Png.new [x01; x02; x03] false) = Done (Some e) p' /\
    (e = EOF \/ e = ErrUnexpectedEOF) /\
    (0 < len (Png.r (Png.new [x01; x02; x03] false)) < Png.buf_len -> e = ErrUnexpectedEOF) /\
    Png.r p' = [] /\ only_io (Png.new [x01; x02; x03] false) p'.
Proof.
  apply (ignoreChunk_truncated 5 (Png.new [x01; x02; x03] false)).
  reflexivity.
Defined.

Lemma same_meta_refl (p : Png.pngStream) : same_meta p p.
Proof. unfold same_meta. repeat split. Qed.

Lemma same_meta_trans (p1 p2 p3 : Png.pngStream) :
  same_meta p1 p2 -> same_meta p2 p3 -> same_meta p1 p3.
Proof. unfold same_meta. intuition congruence. Qed.

Lemma only_io_same_meta (p p' : Png.pngStream) : only_io p p' -> same_meta p p'.
Proof. unfold only_io, same_meta. intuition. Qed.

(** Reading the head of a frame: length and type tag. *)
Lemma parseChunk_frame (p : Png.pngStream) (tag : string) (payload : list byte)
      (k : crc) (rest : list byte) :
  len payload < 2 ^ 32 ->
  List.length (list_byte_of_string tag) = 4%nat ->
  Png.r p = frame tag payload k ++ rest ->
  exists p1,
    Png.parseChunk p = dispatch tag p1 /\
    Png.r p1 = payload ++ crc_bytes k ++ rest /\
    Png.readable p1 = len payload /\
    Png.state p1 = Png.state p /\ same_meta p p1.
Proof.
  intros HL Htag Hr. pose proof (len_nonneg payload) as H0.
  unfold frame in Hr. rewrite <- !app_assoc in Hr.
  unfold Png.parseChunk. unfold bind at 1.
  rewrite readBeUint32_enough
    by (rewrite Hr, len_app, len_be32; pose proof (len_nonneg
          (list_byte_of_string tag ++ payload ++ crc_bytes k ++ rest)); lia).
  rewrite Hr. rewrite (firstn_length_app (be32 (len payload))) by reflexivity.
  rewrite (skipn_length_app (be32 (len payload))) by reflexivity.
  rewrite BigEndian_Uint32_be32 by lia.
  unfold bind at 1. cbn [modify guard].
  unfold bind at 1.
  rewrite readString_enough.
  2:{ cbn [Png.r Png.set_readable Png.set_buf Png.set_r]. rewrite len_app.
      pose proof (len_nonneg (payload ++ crc_bytes k ++ rest)).
      unfold len at 1. rewrite Htag. lia. }
  cbn [guard Png.r Png.set_readable Png.set_buf Png.set_r]. change (Z.to_nat 4) with 4%nat.
  rewrite (firstn_length_app (list_byte_of_string tag)) by exact Htag.
  rewrite (skipn_length_app (list_byte_of_string tag)) by exact Htag.
  rewrite string_of_list_byte_of_string.
  eexists. split; [reflexivity|].
  cbn. repeat split.
Qed.

Lemma next_crc (p : Png.pngStream) (k : crc) (rest : list byte) :
  Png.r p = crc_bytes k ++ rest ->
  exists p', Png.next 4 p = Done (4, None) p' /\ Png.r p' = rest /\ only_io p p'.
Proof.
  intros Hr. rewrite next_enough.
  - eexists. split; [reflexivity|]. split.
    + cbn [Png.r Png.set_buf Png.set_r]. rewrite Hr.
      apply skipn_len_app. apply len_crc_bytes.
    + unfold only_io. cbn. repeat split.
  - rewrite Hr, len_app, len_crc_bytes. pose proof (len_nonneg rest). lia.
Qed.

(** X3: a chunk whose type tag is none of IHDR, PLTE, tRNS, pHYs, IDAT,
    IEND is skipped by its declared length and its checksum: the source is
    left at the next frame, the parser state and the image metadata are
    untouched, and [readable] is left at the length of the skipped chunk. *)
Theorem unknown_chunk_is_skipped (p : Png.pngStream) (tag : string)
        (payload : list byte) (k : crc) (rest : list byte) :
  len payload < 2 ^ 32 ->
  List.length (list_byte_of_string tag) = 4%nat ->
  ~ In tag ["IHDR"; "PLTE"; "tRNS"; "pHYs"; "IDAT"; "IEND"]%string ->
  Png.r p = frame tag payload k ++ rest ->
  exists p',
    Png.parseChunk p = Done None p' /\
    Png.r p' = rest /\ Png.state p' = Png.state p /\
    Png.readable p' = len payload /\ same_meta p p'.
Proof.
  intros HL Htag Hnot Hr. pose proof (len_nonneg payload) as H0.
  destruct (parseChunk_frame p tag payload k rest HL Htag Hr)
    as (p1 & HE & Hr1 & Hrd1 & Hs1 & Hm1).
  rewrite HE. unfold dispatch.
  repeat match goal with
         | |- context [String.eqb tag ?c] =>
             destruct (String.eqb_spec tag c) as [->|_];
             [exfalso; apply Hnot; cbn; tauto|]
         end.
  unfold bind at 1. unfold bind at 1. unfold get at 1.
  rewrite Hrd1, int_small by lia.
  destruct (ignoreChunk_enough (len payload) p1) as (p2 & HI & Hr2 & Hio2).
  { rewrite Hr1, len_app. pose proof (len_nonneg (crc_bytes k ++ rest)). lia. }
  rewrite HI. cbn [guard].
  rewrite Hr1, skipn_len_app in Hr2 by reflexivity.
  destruct (next_crc p2 k rest Hr2) as (p3 & HN & Hr3 & Hio3).
  unfold bind. rewrite HN. exists p3.
  split; [reflexivity|]. split; [exact Hr3|].
  pose proof (only_io_same_meta _ _ Hio2) as M2.
  pose proof (only_io_same_meta _ _ Hio3) as M3.
  destruct Hio2 as (S2 & R2 & _). destruct Hio3 as (S3 & R3 & _).
  split; [congruence|]. split; [congruence|].
  eapply same_meta_trans; [exact Hm1|].
  eapply same_meta_trans; [exact M2|exact M3].
Qed.

Lemma unknown_chunk_is_skipped_witness :
  exists p',
    Png.parseChunk (Png.new (frame "tEXt" [x41; x42] (x01, x02, x03, x04) ++ [x99]) false) =
    Done None p' /\
    Png.r p' = [x99] /\
    Png.state p' = Png.state (Png.new (frame "tEXt" [x41; x42] (x01, x02, x03, x04) ++ [x99]) false) /\
    Png.readable p' = len [x41; x42] /\
    same_meta (Png.new (frame "tEXt" [x41; x42] (x01, x02, x03, x04) ++ [x99]) false) p'.
Proof.
  apply (unknown_chunk_is_skipped
           (Png.new (frame "tEXt" [x41; x42] (x01, x02, x03, x04) ++ [x99]) false)
           "tEXt" [x41; x42] (x01, x02, x03, x04) [x99]).
  - reflexivity.
  - reflexivity.
  - cbn. intuition discriminate.
  - reflexivity.
Defined.

Lemma readFull_new_short (p : Png.pngStream) (n : Z) :
  len (Png.r p) < n ->
  Png.readFull_new n p =
  Done (Png.r p ++ repeat x00 (Z.to_nat (n - len (Png.r p))),
        Some (match Png.r p with [] => EOF | _ => ErrUnexpectedEOF end))
       (Png.set_r [] p).
Proof.
  intros H. unfold Png.readFull_new. rewrite ReadFull_short by exact H. reflexivity.
Qed.

Lemma chunk_PLTE (p : Png.pngStream) (payload : list byte)
        (k : crc) (rest : list byte) :
  len payload < 2 ^ 32 ->
  Png.r p = frame "PLTE" payload k ++ rest ->
  exists p',
    Png.parseChunk p = Done None p' /\
    Png.pal p' = payload /\ Png.state p' = stateAnc /\ Png.r p' = rest /\
    Png.trns p' = Png.trns p /\ Png.w p' = Png.w p /\ Png.h p' = Png.h p /\
    Png.bpc p' = Png.bpc p /\ Png.ct p' = Png.ct p /\ Png.dpi p' = Png.dpi p.
Proof.
  intros HL Hr. pose proof (len_nonneg payload) as H0.
  destruct (parseChunk_frame p "PLTE" payload k rest HL eq_refl Hr)
    as (p1 & HE & Hr1 & Hrd1 & Hs1 & Hm1).
  rewrite HE. unfold dispatch. cbn [String.eqb Ascii.eqb Bool.eqb].
  unfold Png.parsePalette, bind, modify, get, ret.
  rewrite readFull_new_enough
    by (cbn [Png.readable Png.r Png.set_state]; rewrite Hrd1, Hr1, len_app;
        pose proof (len_nonneg (crc_bytes k ++ rest)); lia).
  cbn [Png.readable Png.r Png.set_state Png.set_r Png.set_pal guard].
  rewrite Hrd1, Hr1. rewrite firstn_len_app, skipn_len_app by reflexivity.
  rewrite next_enough
    by (cbn [Png.r Png.set_pal Png.set_r]; rewrite len_app, len_crc_bytes;
        pose proof (len_nonneg rest); lia).
  eexists. split; [reflexivity|].
  cbn [Png.pal Png.state Png.r Png.trns Png.w Png.h Png.bpc Png.ct Png.dpi
       Png.set_buf Png.set_r Png.set_pal Png.set_state].
  destruct Hm1 as (T & P & RD & D & W & H & B & C).
  repeat split; auto.
  apply skipn_len_app. apply len_crc_bytes.
Qed.

(** X4: a PLTE chunk stores its payload, all bytes of the declared length
    and nothing else, as the palette; the state becomes Ancillary, the
    checksum is skipped and no other metadata changes.  It replaces
    whatever palette an earlier PLTE chunk left. *)
Theorem PLTE_chunk_stores_payload (p : Png.pngStream) (payload : list byte)
        (k : crc) (rest : list byte) :
  len payload < 2 ^ 32 ->
  Png.r p = frame "PLTE" payload k ++ rest ->
  exists p',
    Png.parseChunk p = Done None p' /\
    Png.pal p' = payload /\ Png.state p' = stateAnc /\ Png.r p' = rest /\
    Png.trns p' = Png.trns p /\ Png.w p' = Png.w p /\ Png.h p' = Png.h p /\
    Png.bpc p' = Png.bpc p /\ Png.ct p' = Png.ct p /\ Png.dpi p' = Png.dpi p.
Proof.
  intros HL Hr. exact (chunk_PLTE p payload k rest HL Hr).
Qed.

Lemma PLTE_chunk_stores_payload_witness :
  exists p',
    Png.parseChunk (Png.new (frame "PLTE" [xff; x00; x00] (x01, x02, x03, x04)) false) =
    Done None p' /\
    Png.pal p' = [xff; x00; x00] /\ Png.state p' = stateAnc /\ Png.r p' = [] /\
    Png.trns p' = [] /\ Png.w p' = 0 /\ Png.h p' = 0 /\
    Png.bpc p' = x00 /\ Png.ct p' = x00 /\ Png.dpi p' = 0%float.
Proof.
  apply (PLTE_chunk_stores_payload
           (Png.new (frame "PLTE" [xff; x00; x00] (x01, x02, x03, x04)) false)
           [xff; x00; x00] (x01, x02, x03, x04) []).
  - reflexivity.
  - reflexivity.
Defined.

(** ** tRNS *)

Lemma index_zero_none (t : list byte) : ~ In x00 t -> index_zero t = -1.
Proof.
  induction t as [|b t IH]; intros Hn; [reflexivity|].
  cbn [index_zero]. destruct (Byte.eqb b x00) eqn:E.
  - exfalso. apply Hn. left. apply Byte.byte_dec_bl. exact E.
  - rewrite IH by (intros H; apply Hn; right; exact H). reflexivity.
Qed.

Lemma index_zero_first (t : list byte) :
  forall i, first_zero t i -> index_zero t = i.
Proof.
  induction t as [|b t IH]; intros i (Hi & Hz & Hbefore).
  - cbn in Hi. lia.
  - cbn [index_zero]. destruct (Byte.eqb b x00) eqn:E.
    + destruct (Z.eq_dec i 0) as [->|Hne]; [reflexivity|].
      exfalso. apply (Hbefore 0); [lia|]. cbn. apply Byte.byte_dec_bl. exact E.
    + assert (Hi0 : i <> 0).
      { intros ->. cbn in Hz. subst b. discriminate E. }
      assert (Hnat : Z.to_nat i = S (Z.to_nat (i - 1))) by lia.
      rewrite (IH (i - 1)).
      * destruct (Z.ltb_spec (i - 1) 0); lia.
      * unfold first_zero, len in *. cbn [List.length] in Hi. split; [lia|]. split.
        -- rewrite Hnat in Hz. exact Hz.
        -- intros j Hj. specialize (Hbefore (j + 1) ltac:(lia)).
           replace (Z.to_nat (j + 1)) with (S (Z.to_nat j)) in Hbefore by lia.
           exact Hbefore.
Qed.

Lemma parsetRNS_payload (p : Png.pngStream) (t rest : list byte) :
  Png.readable p = len t ->
  Png.r p = t ++ rest ->
  Png.readFull_new (Png.readable p) p = Done (t, None) (Png.set_r rest p).
Proof.
  intros Hrd Hr. rewrite readFull_new_enough.
  - rewrite Hrd, Hr, firstn_len_app, skipn_len_app by reflexivity. reflexivity.
  - rewrite Hrd, Hr, len_app. pose proof (len_nonneg t). pose proof (len_nonneg rest). lia.
Qed.

(** X5: with the payload [t] of a tRNS chunk in the source, colour type 0
    takes the byte at offset 1 as the transparent grey level and needs two
    bytes of payload; colour type 2 takes the bytes at offsets 1, 3 and 5
    as the transparent colour and needs six.  The payload is consumed
    whole, whatever its length. *)
Theorem tRNS_low_bytes_of_samples (p : Png.pngStream) (t rest : list byte) :
  Png.readable p = len t ->
  Png.r p = t ++ rest ->
  (byte_to_Z (Png.ct p) = 0 /\ 2 <= len t) \/ (byte_to_Z (Png.ct p) = 2 /\ 6 <= len t) ->
  exists p',
    Png.parsetRNS p = Done None p' /\
    Png.r p' = rest /\
    Png.trns p' =
      (if byte_to_Z (Png.ct p) =? 0
       then [byte_to_Z (nth 1 t x00)]
       else [byte_to_Z (nth 1 t x00); byte_to_Z (nth 3 t x00); byte_to_Z (nth 5 t x00)]).
Proof.
  intros Hrd Hr Hc. unfold Png.parsetRNS. unfold bind at 1. unfold get at 1.
  unfold bind at 1. rewrite (parsetRNS_payload p t rest Hrd Hr). cbn [guard].
  unfold Png.at_index, bind, modify, ret, throw.
  destruct Hc as [[Hct HL]|[Hct HL]]; rewrite Hct; cbn [Z.eqb].
  - destruct (Z.ltb_spec 1 (len t)); [|lia].
    eexists. split; [reflexivity|]. split; reflexivity.
  - destruct (Z.ltb_spec 1 (len t)); [|lia].
    destruct (Z.ltb_spec 3 (len t)); [|lia].
    destruct (Z.ltb_spec 5 (len t)); [|lia].
    eexists. split; [reflexivity|]. split; reflexivity.
Qed.

Lemma tRNS_low_bytes_of_samples_witness :
  exists p',
    Png.parsetRNS (Png.set_readable 6 (Png.set_ct x02
                     (Png.new [x00; x0a; x00; x14; x00; x1e; x77] false))) = Done None p' /\
    Png.r p' = [x77] /\
    Png.trns p' = [10; 20; 30].
Proof.
  apply (tRNS_low_bytes_of_samples
           (Png.set_readable 6 (Png.set_ct x02
              (Png.new [x00; x0a; x00; x14; x00; x1e; x77] false)))
           [x00; x0a; x00; x14; x00; x1e] [x77]).
  - reflexivity.
  - reflexivity.
  - right. split; [reflexivity|]. cbv. discriminate.
Defined.

(** X6: for every colour type other than 0 and 2 the transparency read
    from a tRNS payload is the index of its first zero byte; a payload
    without a zero byte leaves the transparency as it was.  No error is
    returned in either case. *)
Theorem tRNS_index_of_first_zero (p : Png.pngStream) (t rest : list byte) :
  Png.readable p = len t ->
  Png.r p = t ++ rest ->
  byte_to_Z (Png.ct p) <> 0 -> byte_to_Z (Png.ct p) <> 2 ->
  exists p',
    Png.parsetRNS p = Done None p' /\
    Png.r p' = rest /\
    (forall i, first_zero t i -> Png.trns p' = [i]) /\
    (~ In x00 t -> Png.trns p' = Png.trns p).
Proof.
  intros Hrd Hr H0 H2. unfold Png.parsetRNS. unfold bind at 1. unfold get at 1.
  unfold bind at 1. rewrite (parsetRNS_payload p t rest Hrd Hr). cbn [guard].
  destruct (Z.eqb_spec (byte_to_Z (Png.ct p)) 0); [contradiction|].
  destruct (Z.eqb_spec (byte_to_Z (Png.ct p)) 2); [contradiction|].
  unfold bind, modify, ret.
  destruct (Z.geb_spec (index_zero t) 0) as [Hge|Hlt].
  - eexists. split; [reflexivity|]. split; [reflexivity|]. split.
    + intros i Hi. cbn. rewrite (index_zero_first t i Hi). reflexivity.
    + intros Hn. rewrite (index_zero_none t Hn) in Hge. lia.
  - eexists. split; [reflexivity|]. split; [reflexivity|]. split.
    + intros i Hi. rewrite (index_zero_first t i Hi) in Hlt. destruct Hi. lia.
    + intros _. reflexivity.
Qed.

Lemma tRNS_index_of_first_zero_witness :
  exists p',
    Png.parsetRNS (Png.set_readable 2 (Png.set_ct x03 (Png.new [x01; x00] false))) =
    Done None p' /\
    Png.r p' = [] /\
    (forall i, first_zero [x01; x00] i -> Png.trns p' = [i]) /\
    (~ In x00 [x01; x00] -> Png.trns p' = []).
Proof.
  apply (tRNS_index_of_first_zero
           (Png.set_readable 2 (Png.set_ct x03 (Png.new [x01; x00] false)))
           [x01; x00] []).
  - reflexivity.
  - reflexivity.
  - cbv. discriminate.
  - cbv. discriminate.
Defined.

Example tRNS_indexed_first_zero_at_1 :
  first_zero [x01; x00] 1 /\
  returned (Png.parsetRNS (Png.set_readable 2 (Png.set_ct x03 (Png.new [x01; x00] false)))) =
  Some None /\
  Png.trns (receiver_after Png.parsetRNS
              (Png.set_readable 2 (Png.set_ct x03 (Png.new [x01; x00] false)))) = [1].
Proof.
  split; [|split; vm_compute; reflexivity].
  split; [cbv; split; [discriminate|reflexivity]|]. split; [reflexivity|].
  intros j Hj. replace j with 0 by lia. cbv. discriminate.
Qed.

(** ** IHDR *)

Lemma readByte_cons (p : Png.pngStream) (b : byte) (rest : list byte) :
  Png.r p = b :: rest ->
  Png.readByte p = Done (b, None) (Png.set_buf (fill [b] (Png.buf p)) (Png.set_r rest p)).
Proof.
  intros Hr. unfold Png.readByte, bind.
  rewrite next_enough by (rewrite Hr; unfold len; cbn [List.length]; lia).
  rewrite Hr. reflexivity.
Qed.

Lemma readBeUint32_cons (p : Png.pngStream) (b3 b2 b1 b0 : byte) (rest : list byte) :
  Png.r p = b3 :: b2 :: b1 :: b0 :: rest ->
  Png.readBeUint32 p =
  Done (BigEndian_Uint32 [b3; b2; b1; b0], None)
       (Png.set_buf (fill [b3; b2; b1; b0] (Png.buf p)) (Png.set_r rest p)).
Proof.
  intros Hr. rewrite readBeUint32_enough by (rewrite Hr; unfold len; cbn [List.length]; lia).
  rewrite Hr. reflexivity.
Qed.

Ltac png_cbn :=
  cbn [guard Png.r Png.state Png.readable Png.buf Png.trns Png.pal Png.readdpi Png.dpi
       Png.w Png.h Png.bpc Png.ct
       Png.set_r Png.set_state Png.set_readable Png.set_buf Png.set_trns Png.set_pal
       Png.set_dpi Png.set_w Png.set_h Png.set_bpc Png.set_ct].

(** The bytes of a header that passes all checks. *)
Lemma parseHeader_fields (p : Png.pngStream)
      (w3 w2 w1 w0 h3 h2 h1 h0 bpc ct cm fm im : byte) (rest : list byte) :
  Png.r p = w3 :: w2 :: w1 :: w0 :: h3 :: h2 :: h1 :: h0 :: bpc :: ct :: cm :: fm :: im :: rest ->
  byte_to_Z bpc <= 8 ->
  byte_to_Z cm = 0 -> byte_to_Z fm = 0 -> byte_to_Z im = 0 ->
  exists p',
    Png.parseHeader p = Done None p' /\
    Png.w p' = BigEndian_Uint32 [w3; w2; w1; w0] /\
    Png.h p' = BigEndian_Uint32 [h3; h2; h1; h0] /\
    Png.bpc p' = bpc /\ Png.ct p' = ct /\ Png.r p' = rest /\
    Png.state p' = Png.state p /\ Png.readable p' = Png.readable p /\
    Png.pal p' = Png.pal p /\ Png.trns p' = Png.trns p /\
    Png.dpi p' = Png.dpi p /\ Png.readdpi p' = Png.readdpi p.
Proof.
  intros Hr Hbpc Hcm Hfm Him.
  unfold Png.parseHeader, bind, modify, get, ret.
  rewrite (readBeUint32_cons p w3 w2 w1 w0 _ Hr). png_cbn.
  erewrite readBeUint32_cons by (png_cbn; reflexivity). png_cbn.
  erewrite readByte_cons by (png_cbn; reflexivity). png_cbn.
  destruct (Z.gtb_spec (byte_to_Z bpc) 8); [lia|].
  erewrite readByte_cons by (png_cbn; reflexivity). png_cbn.
  erewrite readByte_cons by (png_cbn; reflexivity). png_cbn.
  rewrite Hcm. cbn [Z.eqb negb].
  erewrite readByte_cons by (png_cbn; reflexivity). png_cbn.
  rewrite Hfm. cbn [Z.eqb negb].
  erewrite readByte_cons by (png_cbn; reflexivity). png_cbn.
  rewrite Him. cbn [Z.eqb negb].
  eexists. split; [reflexivity|]. png_cbn. repeat split.
Qed.

(** X7: a thirteen-byte header whose bit depth is at most 8 and whose
    compression, filter and interlace bytes are zero is accepted: width and
    height are the two big-endian words, bit depth and colour type are
    stored as they come (any depth from 0 to 8, any colour type), exactly
    thirteen bytes are taken from the source and nothing else changes. *)
Theorem header_is_decoded (p : Png.pngStream)
        (w3 w2 w1 w0 h3 h2 h1 h0 bpc ct cm fm im : byte) (rest : list byte) :
  Png.r p = w3 :: w2 :: w1 :: w0 :: h3 :: h2 :: h1 :: h0 :: bpc :: ct :: cm :: fm :: im :: rest ->
  byte_to_Z bpc <= 8 ->
  byte_to_Z cm = 0 -> byte_to_Z fm = 0 -> byte_to_Z im = 0 ->
  exists p',
    Png.parseHeader p = Done None p' /\
    Png.w p' = BigEndian_Uint32 [w3; w2; w1; w0] /\
    Png.h p' = BigEndian_Uint32 [h3; h2; h1; h0] /\
    Png.bpc p' = bpc /\ Png.ct p' = ct /\ Png.r p' = rest /\
    Png.state p' = Png.state p /\ Png.readable p' = Png.readable p /\
    Png.pal p' = Png.pal p /\ Png.trns p' = Png.trns p /\
    Png.dpi p' = Png.dpi p /\ Png.readdpi p' = Png.readdpi p.
Proof.
  intros Hr Hbpc Hcm Hfm Him.
  exact (parseHeader_fields p w3 w2 w1 w0 h3 h2 h1 h0 bpc ct cm fm im rest Hr Hbpc Hcm Hfm Him).
Qed.

Lemma header_is_decoded_witness :
  exists p',
    Png.parseHeader (Png.new [x00; x00; x01; x00; x00; x00; x00; x80;
                              x03; x07; x00; x00; x00; xaa] false) = Done None p' /\
    Png.w p' = BigEndian_Uint32 [x00; x00; x01; x00] /\
    Png.h p' = BigEndian_Uint32 [x00; x00; x00; x80] /\
    Png.bpc p' = x03 /\ Png.ct p' = x07 /\ Png.r p' = [xaa] /\
    Png.state p' = stateInit /\ Png.readable p' = 0 /\
    Png.pal p' = [] /\ Png.trns p' = [] /\
    Png.dpi p' = 0%float /\ Png.readdpi p' = false.
Proof.
  apply (header_is_decoded
           (Png.new [x00; x00; x01; x00; x00; x00; x00; x80;
                     x03; x07; x00; x00; x00; xaa] false)
           x00 x00 x01 x00 x00 x00 x00 x80 x03 x07 x00 x00 x00 [xaa]).
  - reflexivity.
  - cbv. discriminate.
  - reflexivity.
  - reflexivity.
  - reflexivity.
Defined.

Lemma parseHeader_depth (p : Png.pngStream)
      (w3 w2 w1 w0 h3 h2 h1 h0 bpc : byte) (rest : list byte) :
  Png.r p = w3 :: w2 :: w1 :: w0 :: h3 :: h2 :: h1 :: h0 :: bpc :: rest ->
  8 < byte_to_Z bpc ->
  exists p',
    Png.parseHeader p = Done (Some (Errorf "16-bit depth not supported in PNG file")) p' /\
    Png.r p' = rest /\ Png.ct p' = Png.ct p /\ Png.state p' = Png.state p.
Proof.
  intros Hr Hbpc.
  unfold Png.parseHeader, bind, modify, get, ret.
  rewrite (readBeUint32_cons p w3 w2 w1 w0 _ Hr). png_cbn.
  erewrite readBeUint32_cons by (png_cbn; reflexivity). png_cbn.
  erewrite readByte_cons by (png_cbn; reflexivity). png_cbn.
  destruct (Z.gtb_spec (byte_to_Z bpc) 8); [|lia].
  eexists. split; [reflexivity|]. png_cbn. repeat split.
Qed.

(** The first header check that fails. *)
Lemma parseHeader_rejects (p : Png.pngStream)
        (w3 w2 w1 w0 h3 h2 h1 h0 bpc ct cm fm im : byte) (rest : list byte) :
  Png.r p = w3 :: w2 :: w1 :: w0 :: h3 :: h2 :: h1 :: h0 :: bpc :: ct :: cm :: fm :: im :: rest ->
  byte_to_Z bpc > 8 \/ byte_to_Z cm <> 0 \/ byte_to_Z fm <> 0 \/ byte_to_Z im <> 0 ->
  exists p',
    Png.parseHeader p =
    Done (Some (Errorf
      (if byte_to_Z bpc >? 8 then "16-bit depth not supported in PNG file"
       else if negb (byte_to_Z cm =? 0) then "'unknown compression method in PNG buffer"
       else if negb (byte_to_Z fm =? 0) then "'unknown filter method in PNG buffer"
       else "interlacing not supported in PNG buffer"))) p' /\
    Png.r p' =
      (if byte_to_Z bpc >? 8 then ct :: cm :: fm :: im :: rest
       else if negb (byte_to_Z cm =? 0) then fm :: im :: rest
       else if negb (byte_to_Z fm =? 0) then im :: rest
       else rest) /\
    (byte_to_Z bpc > 8 -> Png.ct p' = Png.ct p).
Proof.
  intros Hr Hbad.
  destruct (Z.gtb_spec (byte_to_Z bpc) 8) as [Hb|Hb].
  { destruct (parseHeader_depth p w3 w2 w1 w0 h3 h2 h1 h0 bpc _ Hr Hb)
      as (p' & HE & Hr' & Hct & _).
    exists p'. split; [exact HE|]. split; [exact Hr'|]. intros _. exact Hct. }
  unfold Png.parseHeader, bind, modify, get, ret.
  rewrite (readBeUint32_cons p w3 w2 w1 w0 _ Hr). png_cbn.
  erewrite readBeUint32_cons by (png_cbn; reflexivity). png_cbn.
  erewrite readByte_cons by (png_cbn; reflexivity). png_cbn.
  destruct (Z.gtb_spec (byte_to_Z bpc) 8); [lia|].
  erewrite readByte_cons by (png_cbn; reflexivity). png_cbn.
  erewrite readByte_cons by (png_cbn; reflexivity). png_cbn.
  destruct (Z.eqb_spec (byte_to_Z cm) 0) as [Ecm|Ncm]; cbn [negb].
  2:{ eexists. split; [reflexivity|]. png_cbn. split; [reflexivity|]. intros; lia. }
  erewrite readByte_cons by (png_cbn; reflexivity). png_cbn.
  destruct (Z.eqb_spec (byte_to_Z fm) 0) as [Efm|Nfm]; cbn [negb].
  2:{ eexists. split; [reflexivity|]. png_cbn. split; [reflexivity|]. intros; lia. }
  erewrite readByte_cons by (png_cbn; reflexivity). png_cbn.
  destruct (Z.eqb_spec (byte_to_Z im) 0) as [Eim|Nim]; cbn [negb].
  { exfalso. lia. }
  eexists. split; [reflexivity|]. png_cbn. split; [reflexivity|]. intros; lia.
Qed.

(** X8: a header is rejected at the first check that fails, in the order
    bit depth, compression method, filter method, interlace method, with
    the message of that check; the bytes after the failing one are not
    read.  A bit depth above 8 is rejected before the colour type is
    read. *)
Theorem header_rejections (p : Png.pngStream)
        (w3 w2 w1 w0 h3 h2 h1 h0 bpc ct cm fm im : byte) (rest : list byte) :
  Png.r p = w3 :: w2 :: w1 :: w0 :: h3 :: h2 :: h1 :: h0 :: bpc :: ct :: cm :: fm :: im :: rest ->
  byte_to_Z bpc > 8 \/ byte_to_Z cm <> 0 \/ byte_to_Z fm <> 0 \/ byte_to_Z im <> 0 ->
  exists p',
    Png.parseHeader p =
    Done (Some (Errorf
      (if byte_to_Z bpc >? 8 then "16-bit depth not supported in PNG file"
       else if negb (byte_to_Z cm =? 0) then "'unknown compression method in PNG buffer"
       else if negb (byte_to_Z fm =? 0) then "'unknown filter method in PNG buffer"
       else "interlacing not supported in PNG buffer"))) p' /\
    Png.r p' =
      (if byte_to_Z bpc >? 8 then ct :: cm :: fm :: im :: rest
       else if negb (byte_to_Z cm =? 0) then fm :: im :: rest
       else if negb (byte_to_Z fm =? 0) then im :: rest
       else rest) /\
    (byte_to_Z bpc > 8 -> Png.ct p' = Png.ct p).
Proof.
  intros Hr Hbad.
  exact (parseHeader_rejects p w3 w2 w1 w0 h3 h2 h1 h0 bpc ct cm fm im rest Hr Hbad).
Qed.

Lemma header_rejections_witness :
  exists p',
    Png.parseHeader (Png.new [x00; x00; x00; x01; x00; x00; x00; x01;
                              x10; x02; x00; x00; x00] false) =
    Done (Some (Errorf
      (if byte_to_Z x10 >? 8 then "16-bit depth not supported in PNG file"
       else if negb (byte_to_Z x00 =? 0) then "'unknown compression method in PNG buffer"
       else if negb (byte_to_Z x00 =? 0) then "'unknown filter method in PNG buffer"
       else "interlacing not supported in PNG buffer"))) p' /\
    Png.r p' =
      (if byte_to_Z x10 >? 8 then [x02; x00; x00; x00]
       else if negb (byte_to_Z x00 =? 0) then [x00; x00]
       else if negb (byte_to_Z x00 =? 0) then [x00]
       else []) /\
    (byte_to_Z x10 > 8 -> Png.ct p' = x00).
Proof.
  apply (header_rejections
           (Png.new [x00; x00; x00; x01; x00; x00; x00; x01; x10; x02; x00; x00; x00] false)
           x00 x00 x00 x01 x00 x00 x00 x01 x10 x02 x00 x00 x00 []).
  - reflexivity.
  - left. reflexivity.
Defined.

(** ** From the signature to the image data *)

Lemma parseUntil_loop_done (fuel : nat) (st : Z) (p : Png.pngStream) :
  st <= Png.state p -> Png.parseUntil_loop fuel st p = Done None p.
Proof.
  intros H. destruct fuel; cbn [Png.parseUntil_loop];
    destruct (Z.ltb_spec (Png.state p) st); try lia; reflexivity.
Qed.

(** One round of the loop of [parseUntil]; the chunk takes at least eight
    bytes, so the rounds that are left still suffice. *)
Lemma parseUntil_loop_step (fuel : nat) (st : Z) (p p' : Png.pngStream) :
  len (Png.r p) < Z.of_nat fuel ->
  Png.state p < st ->
  Png.parseChunk p = Done None p' ->
  Png.parseUntil_loop fuel st p = Png.parseUntil_loop (Nat.pred fuel) st p' /\
  len (Png.r p') < Z.of_nat (Nat.pred fuel).
Proof.
  intros Hf Hs HE. pose proof (len_nonneg (Png.r p)) as H0.
  destruct fuel as [|fuel]; [lia|].
  cbn [Nat.pred Png.parseUntil_loop].
  destruct (Z.ltb_spec (Png.state p) st); [|lia].
  unfold bind. rewrite HE. cbn [guard]. split; [reflexivity|].
  pose proof (wp_Done _ _ _ _ _ (parseChunk_spec p) HE) as (_ & _ & D & _).
  specialize (D eq_refl). lia.
Qed.

Lemma parseUntil_loop_error (fuel : nat) (st : Z) (p p' : Png.pngStream) (e : error) :
  len (Png.r p) < Z.of_nat fuel ->
  Png.state p < st ->
  Png.parseChunk p = Done (Some e) p' ->
  Png.parseUntil_loop fuel st p = Done (Some e) p'.
Proof.
  intros Hf Hs HE. pose proof (len_nonneg (Png.r p)) as H0.
  destruct fuel as [|fuel]; [lia|].
  cbn [Png.parseUntil_loop].
  destruct (Z.ltb_spec (Png.state p) st); [|lia].
  unfold bind. rewrite HE. reflexivity.
Qed.

(** A fresh stream over a source that starts with the signature. *)
Lemma parseUntil_fresh (X : list byte) (readdpi : bool) (st : Z) :
  exists p1,
    Png.parseUntil st (Png.new (sig_bytes ++ X) readdpi) =
    Png.parseUntil_loop (S (List.length X)) st p1 /\
    Png.r p1 = X /\ Png.state p1 = stateSignature /\ Png.readable p1 = 0 /\
    same_meta (Png.new (sig_bytes ++ X) readdpi) p1.
Proof.
  eexists. split.
  - unfold Png.parseUntil. unfold bind at 1. unfold get at 1.
    change (Png.state (Png.new (sig_bytes ++ X) readdpi) =? stateInit) with true.
    cbv iota. unfold bind at 1.
    rewrite parseSignature_match
      by (cbn [Png.r Png.new]; apply firstn_length_app; reflexivity).
    cbn [guard Png.r Png.new Png.set_buf Png.set_r Png.set_state].
    rewrite (skipn_length_app sig_bytes) by reflexivity. reflexivity.
  - cbn [Png.r Png.state Png.readable Png.new Png.set_buf Png.set_r Png.set_state].
    repeat split.
Qed.

Lemma chunk_IHDR (p : Png.pngStream) (w h : Z) (bpc ct : byte) (k : crc) (rest : list byte) :
  0 <= w < 2 ^ 32 -> 0 <= h < 2 ^ 32 -> byte_to_Z bpc <= 8 ->
  Png.r p = frame "IHDR" (ihdr_fields w h bpc ct x00 x00 x00) k ++ rest ->
  exists p',
    Png.parseChunk p = Done None p' /\
    Png.state p' = stateHeader /\ Png.r p' = rest /\
    Png.w p' = w /\ Png.h p' = h /\ Png.bpc p' = bpc /\ Png.ct p' = ct /\
    Png.pal p' = Png.pal p /\ Png.trns p' = Png.trns p /\
    Png.dpi p' = Png.dpi p /\ Png.readdpi p' = Png.readdpi p.
Proof.
  intros Hw Hh Hbpc Hr.
  destruct (parseChunk_frame p "IHDR" (ihdr_fields w h bpc ct x00 x00 x00) k rest
              ltac:(cbv; reflexivity) eq_refl Hr)
    as (p1 & HE & Hr1 & Hrd1 & Hs1 & (T1 & P1 & RD1 & D1 & _)).
  rewrite HE. unfold dispatch. cbn [String.eqb Ascii.eqb Bool.eqb].
  unfold bind at 1. unfold bind at 1. cbn [modify].
  destruct (parseHeader_fields (Png.set_state stateHeader p1)
              (nth 0 (be32 w) x00) (nth 1 (be32 w) x00) (nth 2 (be32 w) x00) (nth 3 (be32 w) x00)
              (nth 0 (be32 h) x00) (nth 1 (be32 h) x00) (nth 2 (be32 h) x00) (nth 3 (be32 h) x00)
              bpc ct x00 x00 x00 (crc_bytes k ++ rest))
    as (p2 & HH & W2 & H2 & B2 & C2 & R2 & S2 & _ & P2 & T2 & D2 & RD2);
    [cbn [Png.r Png.set_state]; rewrite Hr1; reflexivity|exact Hbpc|reflexivity..|].
  rewrite HH. cbn [guard].
  destruct (next_crc p2 k rest R2) as (p3 & HN & Hr3 & Hio3).
  unfold bind. rewrite HN. exists p3. split; [reflexivity|].
  destruct Hio3 as (S3 & _ & T3 & P3 & RD3 & D3 & W3 & H3 & B3 & C3).
  cbn [Png.state Png.pal Png.trns Png.dpi Png.readdpi Png.set_state] in *.
  repeat split; try congruence.
  - rewrite W3, W2. change [nth 0 (be32 w) x00; nth 1 (be32 w) x00; nth 2 (be32 w) x00;
                            nth 3 (be32 w) x00] with (be32 w).
    apply BigEndian_Uint32_be32. lia.
  - rewrite H3, H2. change [nth 0 (be32 h) x00; nth 1 (be32 h) x00; nth 2 (be32 h) x00;
                            nth 3 (be32 h) x00] with (be32 h).
    apply BigEndian_Uint32_be32. lia.
Qed.

Lemma chunk_IDAT (p : Png.pngStream) (payload : list byte) (k : crc) (rest : list byte) :
  len payload < 2 ^ 32 ->
  Png.r p = frame "IDAT" payload k ++ rest ->
  exists p',
    Png.parseChunk p = Done None p' /\
    Png.state p' = stateData /\ Png.readable p' = len payload /\
    Png.r p' = payload ++ crc_bytes k ++ rest /\ same_meta p p'.
Proof.
  intros HL Hr.
  destruct (parseChunk_frame p "IDAT" payload k rest HL eq_refl Hr)
    as (p1 & HE & Hr1 & Hrd1 & Hs1 & Hm1).
  rewrite HE. unfold dispatch. cbn [String.eqb Ascii.eqb Bool.eqb].
  unfold bind, modify, ret. eexists. split; [reflexivity|].
  cbn [Png.state Png.readable Png.r Png.set_state].
  repeat split; try assumption; apply Hm1.
Qed.

(** Signature, header and the frame head of the first IDAT chunk. *)
Lemma parseUntil_header_data (w h : Z) (bpc ct : byte) (k1 k2 : crc)
      (payload rest : list byte) (readdpi : bool) :
  0 <= w < 2 ^ 32 -> 0 <= h < 2 ^ 32 -> byte_to_Z bpc <= 8 ->
  len payload < 2 ^ 32 ->
  exists p,
    Png.parseUntil stateData
      (Png.new (sig_bytes ++ frame "IHDR" (ihdr_fields w h bpc ct x00 x00 x00) k1 ++
                frame "IDAT" payload k2 ++ rest) readdpi) = Done None p /\
    Png.state p = stateData /\ Png.readable p = len payload /\
    Png.r p = payload ++ crc_bytes k2 ++ rest /\
    Png.w p = w /\ Png.h p = h /\ Png.bpc p = bpc /\ Png.ct p = ct /\
    Png.pal p = [] /\ Png.trns p = [].
Proof.
  intros Hw Hh Hbpc HL.
  destruct (parseUntil_fresh
              (frame "IHDR" (ihdr_fields w h bpc ct x00 x00 x00) k1 ++
               frame "IDAT" payload k2 ++ rest) readdpi stateData)
    as (p1 & HU & Hr1 & Hs1 & _ & (T1 & P1 & _)).
  rewrite HU. clear HU.
  set (fuel := S (List.length (frame "IHDR" (ihdr_fields w h bpc ct x00 x00 x00) k1 ++
                               frame "IDAT" payload k2 ++ rest))).
  assert (Hf1 : len (Png.r p1) < Z.of_nat fuel) by (rewrite Hr1; unfold len, fuel; lia).
  clearbody fuel.
  destruct (chunk_IHDR p1 w h bpc ct k1 _ Hw Hh Hbpc Hr1)
    as (p2 & HE2 & Hs2 & Hr2 & W2 & H2 & B2 & C2 & P2 & T2 & _).
  destruct (parseUntil_loop_step fuel stateData p1 p2 Hf1
              ltac:(rewrite Hs1; reflexivity) HE2) as (E1 & Hf2).
  rewrite E1.
  destruct (chunk_IDAT p2 payload k2 rest HL Hr2)
    as (p3 & HE3 & Hs3 & Hrd3 & Hr3 & (T3 & P3 & _ & _ & W3 & H3 & B3 & C3)).
  destruct (parseUntil_loop_step (Nat.pred fuel) stateData p2 p3 Hf2
              ltac:(rewrite Hs2; reflexivity) HE3) as (E2 & Hf3).
  rewrite E2.
  rewrite parseUntil_loop_done by (rewrite Hs3; apply Z.le_refl).
  exists p3. split; [reflexivity|].
  cbn [Png.pal Png.trns Png.new] in *.
  repeat split; congruence.
Qed.

(** The descriptor of an image without alpha channel, from the stream that
    [parseUntil] leaves. *)
Lemma parsepngstream_raw (zr : zlibNewReader) (rd : Reader)
      (readdpi : bool) (f : Fpdf) (p : Png.pngStream) :
  Png.parseUntil stateData (Png.new rd readdpi) = Done None p ->
  err f = None ->
  byte_to_Z (Png.ct p) = 0 \/ byte_to_Z (Png.ct p) = 2 \/
  (byte_to_Z (Png.ct p) = 3 /\ Png.pal p <> []) ->
  parsepngstream zr rd readdpi f =
  Done (Some (mkInfo (Png.w p) (Png.h p)
                (if byte_to_Z (Png.ct p) =? 0 then "DeviceGray"
                 else if byte_to_Z (Png.ct p) =? 2 then "DeviceRGB" else "Indexed")
                (byte_to_Z (Png.bpc p)) "FlateDecode"
                ("/Predictor 15 /Colors " ++
                 sprintf_d (if byte_to_Z (Png.ct p) =? 2 then 3 else 1) ++
                 " /BitsPerComponent " ++ sprintf_d (byte_to_Z (Png.bpc p)) ++
                 " /Columns " ++ sprintf_d (Png.w p))
                (Png.pal p) (Png.trns p) (RawIDAT p) false false [])) f.
Proof.
  intros HU Hf Hct. unfold parsepngstream. rewrite HU.
  unfold bind, pngColorSpace, get, modify, ret.
  destruct f as [e v]. cbn [err] in Hf. subst e.
  destruct Hct as [E|[E|[E Hpal]]]; rewrite E; cbn [Z.eqb orb Pos.eqb err Z.geb Z.compare Pos.compare Pos.compare_cont];
    try reflexivity.
  cbn [String.eqb Ascii.eqb Bool.eqb andb].
  destruct (Z.eqb_spec (len (Png.pal p)) 0) as [E0|_]; [|reflexivity].
  exfalso. apply Hpal. destruct (Png.pal p); [reflexivity|discriminate E0].
Qed.

(** X9: an input that starts with the signature, a well-formed IHDR chunk
    of colour type 0 or 2 and an IDAT chunk is described without error:
    the descriptor holds width, height and bit depth of the header, the
    colour space and the decode parameters that go with the colour type,
    no palette, no transparency and no mask, and its colour stream is the
    chunk reader itself, positioned at the first payload byte of the IDAT
    chunk with the whole payload still to be read. *)
Theorem plain_image_is_described
        (zr : zlibNewReader) (w h : Z) (bpc ct : byte) (k1 k2 : crc)
        (payload rest : list byte) (readdpi : bool) (f : Fpdf) :
  0 <= w < 2 ^ 32 -> 0 <= h < 2 ^ 32 -> byte_to_Z bpc <= 8 ->
  len payload < 2 ^ 32 ->
  byte_to_Z ct = 0 \/ byte_to_Z ct = 2 ->
  err f = None ->
  exists info p,
    parsepngstream zr
      (sig_bytes ++ frame "IHDR" (ihdr_fields w h bpc ct x00 x00 x00) k1 ++
       frame "IDAT" payload k2 ++ rest) readdpi f = Done (Some info) f /\
    info_w info = w /\ info_h info = h /\
    info_cs info = (if byte_to_Z ct =? 0 then "DeviceGray"%string else "DeviceRGB"%string) /\
    info_bpc info = byte_to_Z bpc /\ info_f info = "FlateDecode"%string /\
    info_dp info =
      String.append "/Predictor 15 /Colors "
        (String.append (sprintf_d (if byte_to_Z ct =? 0 then 1 else 3))
          (String.append " /BitsPerComponent "
            (String.append (sprintf_d (byte_to_Z bpc))
              (String.append " /Columns " (sprintf_d w))))) /\
    info_pal info = [] /\ info_trns info = [] /\
    info_smask info = false /\ info_flush info = false /\ info_close info = [] /\
    info_r info = RawIDAT p /\
    Png.state p = stateData /\ Png.readable p = len payload /\
    Png.r p = payload ++ crc_bytes k2 ++ rest.
Proof.
  intros Hw Hh Hbpc HL Hct Hf.
  destruct (parseUntil_header_data w h bpc ct k1 k2 payload rest readdpi Hw Hh Hbpc HL)
    as (p & HU & Hs & Hrd & Hr & W & H & B & C & P & T).
  eexists. exists p. split.
  - apply (parsepngstream_raw zr _ readdpi f p HU Hf).
    rewrite C. destruct Hct as [E|E]; auto.
  - cbn [info_w info_h info_cs info_bpc info_f info_dp info_pal info_trns info_smask
         info_flush info_close info_r].
    rewrite W, H, B, C, P, T.
    destruct Hct as [E|E]; rewrite E; cbn [Z.eqb Pos.eqb]; repeat split; assumption.
Qed.

Lemma plain_image_is_described_witness :
  exists info p,
    parsepngstream (fun p => (inl [], p))
      (sig_bytes ++ frame "IHDR" (ihdr_fields 2 1 x08 x02 x00 x00 x00) (x01, x02, x03, x04) ++
       frame "IDAT" [x0a; x0b; x0c] (x05, x06, x07, x08) ++ [x99]) false (mkFpdf None "1.3") =
    Done (Some info) (mkFpdf None "1.3") /\
    info_w info = 2 /\ info_h info = 1 /\
    info_cs info = (if byte_to_Z x02 =? 0 then "DeviceGray"%string else "DeviceRGB"%string) /\
    info_bpc info = byte_to_Z x08 /\ info_f info = "FlateDecode"%string /\
    info_dp info =
      String.append "/Predictor 15 /Colors "
        (String.append (sprintf_d (if byte_to_Z x02 =? 0 then 1 else 3))
          (String.append " /BitsPerComponent "
            (String.append (sprintf_d (byte_to_Z x08))
              (String.append " /Columns " (sprintf_d 2))))) /\
    info_pal info = [] /\ info_trns info = [] /\
    info_smask info = false /\ info_flush info = false /\ info_close info = [] /\
    info_r info = RawIDAT p /\
    Png.state p = stateData /\ Png.readable p = len [x0a; x0b; x0c] /\
    Png.r p = [x0a; x0b; x0c] ++ crc_bytes (x05, x06, x07, x08) ++ [x99].
Proof.
  apply (plain_image_is_described (fun p => (inl [], p)) 2 1 x08 x02
           (x01, x02, x03, x04) (x05, x06, x07, x08) [x0a; x0b; x0c] [x99]
           false (mkFpdf None "1.3")).
  - split; [discriminate|reflexivity].
  - split; [discriminate|reflexivity].
  - cbv. discriminate.
  - reflexivity.
  - right. reflexivity.
  - reflexivity.
Defined.

(** X10: an indexed image whose non-empty PLTE chunk stands between IHDR
    and IDAT is described without error: the colour space is Indexed with
    one colour per sample, and the palette of the descriptor is the
    payload of the PLTE chunk, whatever its length. *)
Theorem indexed_image_carries_palette
        (zr : zlibNewReader) (w h : Z) (bpc ct : byte) (k1 k2 k3 : crc)
        (palette payload rest : list byte) (readdpi : bool) (f : Fpdf) :
  0 <= w < 2 ^ 32 -> 0 <= h < 2 ^ 32 -> byte_to_Z bpc <= 8 ->
  0 < len palette < 2 ^ 32 -> len payload < 2 ^ 32 ->
  byte_to_Z ct = 3 ->
  err f = None ->
  exists info p,
    parsepngstream zr
      (sig_bytes ++ frame "IHDR" (ihdr_fields w h bpc ct x00 x00 x00) k1 ++
       frame "PLTE" palette k2 ++ frame "IDAT" payload k3 ++ rest) readdpi f =
    Done (Some info) f /\
    info_w info = w /\ info_h info = h /\
    info_cs info = "Indexed"%string /\
    info_dp info =
      String.append "/Predictor 15 /Colors 1 /BitsPerComponent "
        (String.append (sprintf_d (byte_to_Z bpc))
          (String.append " /Columns " (sprintf_d w))) /\
    info_pal info = palette /\ info_trns info = [] /\ info_smask info = false /\
    info_r info = RawIDAT p /\
    Png.readable p = len payload /\ Png.r p = payload ++ crc_bytes k3 ++ rest.
Proof.
  intros Hw Hh Hbpc HP HL Hct Hf.
  destruct (parseUntil_fresh
              (frame "IHDR" (ihdr_fields w h bpc ct x00 x00 x00) k1 ++
               frame "PLTE" palette k2 ++ frame "IDAT" payload k3 ++ rest) readdpi stateData)
    as (p1 & HU & Hr1 & Hs1 & _ & (T1 & _)).
  set (fuel := S (List.length (frame "IHDR" (ihdr_fields w h bpc ct x00 x00 x00) k1 ++
                               frame "PLTE" palette k2 ++ frame "IDAT" payload k3 ++ rest)))
    in HU.
  assert (Hf1 : len (Png.r p1) < Z.of_nat fuel) by (rewrite Hr1; unfold len, fuel; lia).
  clearbody fuel.
  destruct (chunk_IHDR p1 w h bpc ct k1 _ Hw Hh Hbpc Hr1)
    as (p2 & HE2 & Hs2 & Hr2 & W2 & H2 & B2 & C2 & _ & T2 & _).
  destruct (parseUntil_loop_step fuel stateData p1 p2 Hf1
              ltac:(rewrite Hs1; reflexivity) HE2) as (E1 & Hf2).
  destruct (chunk_PLTE p2 palette k2 _ ltac:(lia) Hr2)
    as (p3 & HE3 & P3 & Hs3 & Hr3 & T3 & W3 & H3 & B3 & C3 & _).
  destruct (parseUntil_loop_step (Nat.pred fuel) stateData p2 p3 Hf2
              ltac:(rewrite Hs2; reflexivity) HE3) as (E2 & Hf3).
  destruct (chunk_IDAT p3 payload k3 rest HL Hr3)
    as (p4 & HE4 & Hs4 & Hrd4 & Hr4 & (T4 & P4 & _ & _ & W4 & H4 & B4 & C4)).
  destruct (parseUntil_loop_step (Nat.pred (Nat.pred fuel)) stateData p3 p4 Hf3
              ltac:(rewrite Hs3; reflexivity) HE4) as (E3 & _).
  rewrite E1, E2, E3 in HU.
  rewrite parseUntil_loop_done in HU by (rewrite Hs4; apply Z.le_refl).
  assert (C : Png.ct p4 = ct) by congruence.
  assert (P : Png.pal p4 = palette) by congruence.
  eexists. exists p4. split.
  - apply (parsepngstream_raw zr _ readdpi f p4 HU Hf).
    right. right. rewrite C, P. split; [exact Hct|].
    destruct palette; [cbn in HP; lia|discriminate].
  - cbn [info_w info_h info_cs info_dp info_pal info_trns info_smask info_r].
    rewrite C, Hct. cbn [Z.eqb Pos.eqb].
    cbn [Png.trns Png.new] in T1.
    repeat split; try congruence.
    change (sprintf_d 1) with "1"%string. cbn [String.append]. congruence.
Qed.

Lemma indexed_image_carries_palette_witness :
  exists info p,
    parsepngstream (fun p => (inl [], p))
      (sig_bytes ++ frame "IHDR" (ihdr_fields 2 1 x08 x03 x00 x00 x00) (x01, x02, x03, x04) ++
       frame "PLTE" [xff; x00; x00; x00; xff] (x05, x06, x07, x08) ++
       frame "IDAT" [x0a; x0b; x0c] (x09, x0a, x0b, x0c) ++ []) false (mkFpdf None "1.3") =
    Done (Some info) (mkFpdf None "1.3") /\
    info_w info = 2 /\ info_h info = 1 /\
    info_cs info = "Indexed"%string /\
    info_dp info =
      String.append "/Predictor 15 /Colors 1 /BitsPerComponent "
        (String.append (sprintf_d (byte_to_Z x08))
          (String.append " /Columns " (sprintf_d 2))) /\
    info_pal info = [xff; x00; x00; x00; xff] /\ info_trns info = [] /\
    info_smask info = false /\
    info_r info = RawIDAT p /\
    Png.readable p = len [x0a; x0b; x0c] /\
    Png.r p = [x0a; x0b; x0c] ++ crc_bytes (x09, x0a, x0b, x0c) ++ [].
Proof.
  apply (indexed_image_carries_palette (fun p => (inl [], p)) 2 1 x08 x03
           (x01, x02, x03, x04) (x05, x06, x07, x08) (x09, x0a, x0b, x0c)
           [xff; x00; x00; x00; xff] [x0a; x0b; x0c] [] false (mkFpdf None "1.3")).
  - split; [discriminate|reflexivity].
  - split; [discriminate|reflexivity].
  - cbv. discriminate.
  - split; reflexivity.
  - reflexivity.
  - reflexivity.
  - reflexivity.
Defined.

Lemma parsepngstream_error (zr : zlibNewReader) (rd : Reader)
      (readdpi : bool) (f : Fpdf) (p : Png.pngStream) (e : error) :
  Png.parseUntil stateData (Png.new rd readdpi) = Done (Some e) p ->
  parsepngstream zr rd readdpi f = Done None (mkFpdf (Some e) (pdfVersion f)).
Proof. intros HU. unfold parsepngstream. rewrite HU. reflexivity. Qed.

(** X11: an image whose header fails a check is refused by
    [parsepngstream] as soon as the header is parsed: no descriptor is
    returned and the error of the first failing check (bit depth above 8,
    then compression, filter, interlace method) is stored in the document,
    replacing any error it held; nothing after the header matters. *)
Theorem unsupported_header_is_refused
        (zr : zlibNewReader) (w h : Z) (bpc ct cm fm im : byte)
        (k : crc) (rest : list byte) (readdpi : bool) (f : Fpdf) :
  byte_to_Z bpc > 8 \/ byte_to_Z cm <> 0 \/ byte_to_Z fm <> 0 \/ byte_to_Z im <> 0 ->
  parsepngstream zr
    (sig_bytes ++ frame "IHDR" (ihdr_fields w h bpc ct cm fm im) k ++ rest) readdpi f =
  Done None
    (mkFpdf (Some (Errorf
       (if byte_to_Z bpc >? 8 then "16-bit depth not supported in PNG file"
        else if negb (byte_to_Z cm =? 0) then "'unknown compression method in PNG buffer"
        else if negb (byte_to_Z fm =? 0) then "'unknown filter method in PNG buffer"
        else "interlacing not supported in PNG buffer")))
       (pdfVersion f)).
Proof.
  intros Hbad.
  destruct (parseUntil_fresh (frame "IHDR" (ihdr_fields w h bpc ct cm fm im) k ++ rest)
              readdpi stateData) as (p1 & HU & Hr1 & Hs1 & _).
  destruct (parseChunk_frame p1 "IHDR" (ihdr_fields w h bpc ct cm fm im) k rest
              ltac:(cbv; reflexivity) eq_refl Hr1) as (p2 & HE & Hr2 & _).
  destruct (parseHeader_rejects (Png.set_state stateHeader p2)
              (nth 0 (be32 w) x00) (nth 1 (be32 w) x00) (nth 2 (be32 w) x00) (nth 3 (be32 w) x00)
              (nth 0 (be32 h) x00) (nth 1 (be32 h) x00) (nth 2 (be32 h) x00) (nth 3 (be32 h) x00)
              bpc ct cm fm im (crc_bytes k ++ rest))
    as (p3 & HH & _); [cbn [Png.r Png.set_state]; rewrite Hr2; reflexivity|exact Hbad|].
  eapply parsepngstream_error. rewrite HU.
  apply parseUntil_loop_error.
  - rewrite Hr1. unfold len. lia.
  - rewrite Hs1. reflexivity.
  - rewrite HE. unfold dispatch. cbn [String.eqb Ascii.eqb Bool.eqb].
    unfold bind at 1. unfold bind at 1. cbn [modify]. rewrite HH. reflexivity.
Qed.

Lemma unsupported_header_is_refused_witness :
  parsepngstream (fun p => (inl [], p))
    (sig_bytes ++ frame "IHDR" (ihdr_fields 1 1 x08 x02 x00 x00 x01) (x01, x02, x03, x04) ++
     frame "IDAT" [x00] (x05, x06, x07, x08)) false (mkFpdf (Some EOF) "1.3") =
  Done None
    (mkFpdf (Some (Errorf
       (if byte_to_Z x08 >? 8 then "16-bit depth not supported in PNG file"
        else if negb (byte_to_Z x00 =? 0) then "'unknown compression method in PNG buffer"
        else if negb (byte_to_Z x00 =? 0) then "'unknown filter method in PNG buffer"
        else "interlacing not supported in PNG buffer")))
       (pdfVersion (mkFpdf (Some EOF) "1.3"))).
Proof.
  apply (unsupported_header_is_refused (fun p => (inl [], p)) 1 1 x08 x02 x00 x00 x01
           (x01, x02, x03, x04) (frame "IDAT" [x00] (x05, x06, x07, x08))
           false (mkFpdf (Some EOF) "1.3")).
  right. right. right. discriminate.
Defined.

(** X12: the colour type is looked at only once the first IDAT chunk is
    reached; a colour type other than 0, 2, 3, 4, 6 then gives no
    descriptor and the error "unknown color type in PNG buffer: " followed
    by the colour type in decimal, replacing any error the document
    held. *)
Theorem unknown_colour_type_is_refused
        (zr : zlibNewReader) (w h : Z) (bpc ct : byte) (k1 k2 : crc)
        (payload rest : list byte) (readdpi : bool) (f : Fpdf) :
  0 <= w < 2 ^ 32 -> 0 <= h < 2 ^ 32 -> byte_to_Z bpc <= 8 ->
  len payload < 2 ^ 32 ->
  ~ In (byte_to_Z ct) [0; 2; 3; 4; 6] ->
  parsepngstream zr
    (sig_bytes ++ frame "IHDR" (ihdr_fields w h bpc ct x00 x00 x00) k1 ++
     frame "IDAT" payload k2 ++ rest) readdpi f =
  Done None
    (mkFpdf (Some (Errorf (String.append "unknown color type in PNG buffer: "
                                         (sprintf_d (byte_to_Z ct)))))
            (pdfVersion f)).
Proof.
  intros Hw Hh Hbpc HL Hct.
  destruct (parseUntil_header_data w h bpc ct k1 k2 payload rest readdpi Hw Hh Hbpc HL)
    as (p & HU & _ & _ & _ & _ & _ & _ & C & _).
  unfold parsepngstream. rewrite HU.
  unfold bind, pngColorSpace, get, ret. rewrite C.
  cbn [In] in Hct.
  destruct (Z.eqb_spec (byte_to_Z ct) 0); [exfalso; intuition congruence|].
  destruct (Z.eqb_spec (byte_to_Z ct) 4); [exfalso; intuition congruence|].
  destruct (Z.eqb_spec (byte_to_Z ct) 2); [exfalso; intuition congruence|].
  destruct (Z.eqb_spec (byte_to_Z ct) 6); [exfalso; intuition congruence|].
  destruct (Z.eqb_spec (byte_to_Z ct) 3); [exfalso; intuition congruence|].
  reflexivity.
Qed.

Lemma unknown_colour_type_is_refused_witness :
  parsepngstream (fun p => (inl [], p))
    (sig_bytes ++ frame "IHDR" (ihdr_fields 1 1 x08 x05 x00 x00 x00) (x01, x02, x03, x04) ++
     frame "IDAT" [x00] (x05, x06, x07, x08) ++ []) false (mkFpdf None "1.3") =
  Done None
    (mkFpdf (Some (Errorf (String.append "unknown color type in PNG buffer: "
                                         (sprintf_d (byte_to_Z x05)))))
            (pdfVersion (mkFpdf None "1.3"))).
Proof.
  apply (unknown_colour_type_is_refused (fun p => (inl [], p)) 1 1 x08 x05
           (x01, x02, x03, x04) (x05, x06, x07, x08) [x00] [] false (mkFpdf None "1.3")).
  - split; [discriminate|reflexivity].
  - split; [discriminate|reflexivity].
  - cbv. discriminate.
  - reflexivity.
  - cbn. intuition discriminate.
Defined.

(** X13: when the document already holds an error, [parsepngstream]
    returns no descriptor, whatever the input: the test after the colour
    space lookup is on the error of the document, not on an error of this
    call.  The document still holds an error afterwards. *)
Theorem pending_error_gives_no_descriptor
        (zr : zlibNewReader) (rd : Reader) (readdpi : bool)
        (f : Fpdf) (e : error) :
  err f = Some e ->
  wp (parsepngstream zr rd readdpi) (fun res f' => res = None /\ err f' <> None) f.
Proof.
  intros Hf. unfold wp, parsepngstream.
  pose proof (parseUntil_terminates stateData (Png.new rd readdpi)
                ltac:(cbn; lia)) as Hterm.
  destruct (Png.parseUntil stateData (Png.new rd readdpi)) as [[e1|] p| |];
    [split; [reflexivity|discriminate]| |exact I|apply Hterm; reflexivity].
  unfold bind, pngColorSpace, get, ret.
  destruct f as [e0 v]. cbn [err] in Hf. subst e0.
  destruct ((byte_to_Z (Png.ct p) =? 0) || (byte_to_Z (Png.ct p) =? 4));
    [cbn [err]; split; [reflexivity|discriminate]|].
  destruct ((byte_to_Z (Png.ct p) =? 2) || (byte_to_Z (Png.ct p) =? 6));
    [cbn [err]; split; [reflexivity|discriminate]|].
  destruct (byte_to_Z (Png.ct p) =? 3);
    cbn [err]; split; try reflexivity; discriminate.
Qed.

Lemma pending_error_gives_no_descriptor_witness :
  wp (parsepngstream (fun p => (inl [], p))
        (sig_bytes ++ ihdr 2 1 x08 x00 ++ chunk "IDAT" [x01; x02; x03] ++ chunk "IEND" [])
        false)
     (fun res f' => res = None /\ err f' <> None) (mkFpdf (Some EOF) "1.3").
Proof.
  apply (pending_error_gives_no_descriptor (fun p => (inl [], p))
           (sig_bytes ++ ihdr 2 1 x08 x00 ++ chunk "IDAT" [x01; x02; x03] ++ chunk "IEND" [])
           false (mkFpdf (Some EOF) "1.3") EOF).
  reflexivity.
Defined.

(** X14: whenever a descriptor is returned, either its colour stream is
    the recompressor, and then mask and flush hook are attached, the three
    close hooks are registered in the order reader, separator, compressor,
    the document holds no error and its PDF version is 1.4 if it was below
    and unchanged otherwise; or its colour stream is the chunk reader, and
    then nothing is attached and the PDF version is unchanged. *)
Theorem mask_goes_with_pdf_version
        (zr : zlibNewReader) (rd : Reader) (readdpi : bool) (f : Fpdf) :
  wp (parsepngstream zr rd readdpi)
     (fun res f' =>
        forall info, res = Some info ->
          match info_r info with
          | Recompressed _ =>
              info_smask info = true /\ info_flush info = true /\
              info_close info = [stmClose; astmClose; cstmClose] /\
              err f' = None /\
              pdfVersion f' = (if String.ltb (pdfVersion f) "1.4" then "1.4"%string
                               else pdfVersion f)
          | RawIDAT _ =>
              info_smask info = false /\ info_flush info = false /\
              info_close info = [] /\ pdfVersion f' = pdfVersion f
          end) f.
Proof.
  unfold wp, parsepngstream.
  pose proof (parseUntil_terminates stateData (Png.new rd readdpi)
                ltac:(cbn; lia)) as Hterm.
  destruct (Png.parseUntil stateData (Png.new rd readdpi)) as [[e1|] p| |];
    [intros info H; discriminate H| |exact I|apply Hterm; reflexivity].
  unfold bind, pngColorSpace, get, modify, ret.
  destruct f as [e0 v].
  set (c := byte_to_Z (Png.ct p)).
  assert (Hidx : (c >=? 4) = true -> (c =? 3) = false).
  { intros H. apply Z.geb_le in H. apply Z.eqb_neq. lia. }
  destruct ((c =? 0) || (c =? 4)); cbn [err].
  - destruct e0 as [e0|]; [intros info H; discriminate H|].
    cbn [String.eqb Ascii.eqb Bool.eqb andb].
    destruct (c >=? 4).
    + destruct (zr p) as [[stm|e] p']; intros info H; inversion H; subst; cbn;
        [destruct (String.ltb v "1.4")|]; repeat split.
    + intros info H; inversion H; subst; cbn; repeat split.
  - destruct ((c =? 2) || (c =? 6)); cbn [err].
    + destruct e0 as [e0|]; [intros info H; discriminate H|].
      cbn [String.eqb Ascii.eqb Bool.eqb andb].
      destruct (c >=? 4).
      * destruct (zr p) as [[stm|e] p']; intros info H; inversion H; subst; cbn;
          [destruct (String.ltb v "1.4")|]; repeat split.
      * intros info H; inversion H; subst; cbn; repeat split.
    + destruct (c =? 3) eqn:E3; cbn [err].
      * destruct e0 as [e0|]; [intros info H; discriminate H|].
        destruct (c >=? 4); [specialize (Hidx eq_refl); discriminate Hidx|].
        destruct (("Indexed" =? "Indexed")%string && (len (Png.pal p) =? 0));
          intros info H; inversion H; subst; cbn; repeat split.
      * intros info H; discriminate H.
Qed.

(** X15: for an image with alpha channel whose data the inflating reader
    refuses, the error is stored in the document, but the descriptor built
    so far is returned all the same: it has no mask and no hooks, and its
    colour stream is the chunk reader in the state in which the failed
    call left it. *)
Theorem zlib_header_error_keeps_descriptor
        (zr : zlibNewReader) (rd : Reader) (readdpi : bool)
        (f : Fpdf) (p p' : Png.pngStream) (e : error) :
  Png.parseUntil stateData (Png.new rd readdpi) = Done None p ->
  byte_to_Z (Png.ct p) = 4 \/ byte_to_Z (Png.ct p) = 6 ->
  zr p = (inr e, p') ->
  err f = None ->
  exists info,
    parsepngstream zr rd readdpi f = Done (Some info) (mkFpdf (Some e) (pdfVersion f)) /\
    info_r info = RawIDAT p' /\ info_smask info = false /\ info_flush info = false /\
    info_close info = [] /\
    info_cs info = (if byte_to_Z (Png.ct p) =? 4 then "DeviceGray"%string
                    else "DeviceRGB"%string) /\
    info_w info = Png.w p /\ info_h info = Png.h p.
Proof.
  intros HU Hct Hz Hf. unfold parsepngstream. rewrite HU.
  unfold bind, pngColorSpace, get, modify, ret.
  destruct f as [e0 v]. cbn [err] in Hf. subst e0.
  destruct Hct as [E|E]; rewrite E;
    cbn [Z.eqb orb Pos.eqb err Z.geb Z.compare Pos.compare Pos.compare_cont
         String.eqb Ascii.eqb Bool.eqb andb];
    rewrite Hz; eexists; (split; [reflexivity|]); repeat split.
Qed.

Lemma zlib_header_error_keeps_descriptor_witness :
  exists info,
    parsepngstream
      (fun p => (inr (Errorf "zlib: invalid header"), receiver_after (Png.Read 4096) p))
      (sig_bytes ++ ihdr 1 1 x08 x04 ++ chunk "IDAT" [x01; x02])
      false (mkFpdf None "1.3") =
    Done (Some info) (mkFpdf (Some (Errorf "zlib: invalid header"))
                             (pdfVersion (mkFpdf None "1.3"))) /\
    info_r info =
      RawIDAT (receiver_after (Png.Read 4096)
                 (receiver_after (Png.parseUntil stateData)
                    (Png.new (sig_bytes ++ ihdr 1 1 x08 x04 ++ chunk "IDAT" [x01; x02])
                             false))) /\
    info_smask info = false /\ info_flush info = false /\
    info_close info = [] /\
    info_cs info =
      (if byte_to_Z (Png.ct (receiver_after (Png.parseUntil stateData)
                 (Png.new (sig_bytes ++ ihdr 1 1 x08 x04 ++ chunk "IDAT" [x01; x02]) false))) =? 4
       then "DeviceGray"%string else "DeviceRGB"%string) /\
    info_w info = Png.w (receiver_after (Png.parseUntil stateData)
                 (Png.new (sig_bytes ++ ihdr 1 1 x08 x04 ++ chunk "IDAT" [x01; x02]) false)) /\
    info_h info = Png.h (receiver_after (Png.parseUntil stateData)
                 (Png.new (sig_bytes ++ ihdr 1 1 x08 x04 ++ chunk "IDAT" [x01; x02]) false)).
Proof.
  apply (zlib_header_error_keeps_descriptor
           (fun p => (inr (Errorf "zlib: invalid header"), receiver_after (Png.Read 4096) p))
           (sig_bytes ++ ihdr 1 1 x08 x04 ++ chunk "IDAT" [x01; x02]) false
           (mkFpdf None "1.3")
           (receiver_after (Png.parseUntil stateData)
              (Png.new (sig_bytes ++ ihdr 1 1 x08 x04 ++ chunk "IDAT" [x01; x02]) false))
           (receiver_after (Png.Read 4096)
              (receiver_after (Png.parseUntil stateData)
                 (Png.new (sig_bytes ++ ihdr 1 1 x08 x04 ++ chunk "IDAT" [x01; x02]) false)))
           (Errorf "zlib: invalid header")).
  - vm_compute. reflexivity.
  - left. vm_compute. reflexivity.
  - reflexivity.
  - reflexivity.
Defined.

(** On that input, a reader that has taken the two payload bytes and the
    checksum while looking for the header is left at the end of the
    input with nothing to read in the chunk. *)
Example reader_after_failed_inflate :
  Png.r (receiver_after (Png.Read 4096)
           (receiver_after (Png.parseUntil stateData)
              (Png.new (sig_bytes ++ ihdr 1 1 x08 x04 ++ chunk "IDAT" [x01; x02]) false))) = [] /\
  Png.readable (receiver_after (Png.Read 4096)
           (receiver_after (Png.parseUntil stateData)
              (Png.new (sig_bytes ++ ihdr 1 1 x08 x04 ++ chunk "IDAT" [x01; x02]) false))) = 0.
Proof. split; vm_compute; reflexivity. Qed.

(** ** The two streams of the separator, byte for byte *)

Lemma split_pixels_app (c n : nat) :
  forall px rest : list byte,
    List.length px = (n * S c)%nat ->
    split_pixels n c (px ++ rest) = split_pixels n c px.
Proof.
  induction n as [|n IH]; intros px rest Hpx; [reflexivity|].
  cbn [Nat.mul] in Hpx. cbn [split_pixels].
  assert (H1 : skipn (S c) (px ++ rest) = skipn (S c) px ++ rest).
  { rewrite skipn_app. replace (S c - List.length px)%nat with 0%nat by lia. reflexivity. }
  assert (H2 : firstn c (px ++ rest) = firstn c px).
  { rewrite firstn_app. replace (c - List.length px)%nat with 0%nat by lia.
    cbn [firstn]. apply app_nil_r. }
  assert (H3 : firstn 1 (skipn c (px ++ rest)) = firstn 1 (skipn c px)).
  { rewrite skipn_app. replace (c - List.length px)%nat with 0%nat by lia.
    cbn [skipn]. rewrite firstn_app.
    replace (1 - List.length (skipn c px))%nat with 0%nat by (rewrite length_skipn; lia).
    cbn [firstn]. apply app_nil_r. }
  rewrite H1, H2, H3, IH by (rewrite length_skipn; lia). reflexivity.
Qed.

Lemma split_pixels_cons (c n : nat) (p1 : list byte) (al : byte) (px' : list byte) :
  List.length p1 = c ->
  split_pixels (S n) c (p1 ++ al :: px') =
  (p1 ++ fst (split_pixels n c px'), al :: snd (split_pixels n c px')).
Proof.
  intros Hp. cbn [split_pixels].
  replace (skipn (S c) (p1 ++ al :: px')) with px'.
  2:{ change (al :: px') with ([al] ++ px'). rewrite app_assoc.
      symmetry. apply skipn_length_app. rewrite length_app. cbn. lia. }
  rewrite (firstn_length_app p1) by exact Hp.
  rewrite (skipn_length_app p1) by exact Hp.
  destruct (split_pixels n c px') as [cs ms]. reflexivity.
Qed.

Lemma split_pixels_length (c n : nat) :
  forall px : list byte,
    List.length px = (n * S c)%nat ->
    List.length (fst (split_pixels n c px)) = (n * c)%nat /\
    List.length (snd (split_pixels n c px)) = n.
Proof.
  induction n as [|n IH]; intros px Hpx; [split; reflexivity|].
  cbn [Nat.mul] in Hpx. cbn [split_pixels].
  destruct (IH (skipn (S c) px)) as [H1 H2]; [rewrite length_skipn; lia|].
  destruct (split_pixels n c (skipn (S c) px)) as [cs ms]. cbn [fst snd] in *.
  rewrite !length_app, length_firstn, length_firstn, length_skipn. cbn [Nat.mul]. lia.
Qed.

Lemma split_rows_cons (wn c m : nat) (f : byte) (px d' : list byte) :
  List.length px = (wn * S c)%nat ->
  split_rows (S m) wn c (f :: px ++ d') =
  (f :: fst (split_pixels wn c px) ++ fst (split_rows m wn c d'),
   f :: snd (split_pixels wn c px) ++ snd (split_rows m wn c d')).
Proof.
  intros Hpx. cbn [split_rows skipn firstn].
  rewrite split_pixels_app by exact Hpx.
  rewrite (skipn_length_app px) by exact Hpx.
  destruct (split_pixels wn c px) as [cs ms].
  destruct (split_rows m wn c d') as [cs' ms']. reflexivity.
Qed.

Lemma split_rows_length (wn c m : nat) :
  forall d : list byte,
    List.length d = (m * S (wn * S c))%nat ->
    List.length (fst (split_rows m wn c d)) = (m * S (wn * c))%nat /\
    List.length (snd (split_rows m wn c d)) = (m * S wn)%nat.
Proof.
  induction m as [|m IH]; intros d Hd; [split; reflexivity|].
  cbn [Nat.mul] in Hd. destruct d as [|f d0]; [discriminate|]. cbn [List.length] in Hd.
  rewrite <- (firstn_skipn (wn * S c) d0).
  rewrite split_rows_cons by (rewrite length_firstn; lia).
  destruct (split_pixels_length c wn (firstn (wn * S c) d0)) as [P1 P2];
    [rewrite length_firstn; lia|].
  destruct (IH (skipn (wn * S c) d0)) as [R1 R2]; [rewrite length_skipn; lia|].
  cbn [fst snd List.length]. rewrite !length_app. cbn [Nat.mul]. lia.
Qed.

Section Streams.

Variables wn hn cn : nat.
Variable b : slice.

Let w : Z := Z.of_nat wn.
Let h : Z := Z.of_nat hn.
Let chs : Z := Z.of_nat cn.
Let stride : Z := 1 + (chs + 1) * w.

Hypothesis chs_small : chs < 2 ^ 32.
Hypothesis stride_small : stride < 2 ^ 62.
Hypothesis image_small : h * stride < 2 ^ 62.
Hypothesis buf_nonempty : slen b <> 0.
Hypothesis buf_holds_pixel : chs + 1 <= scap b.

Let sep : list byte -> list byte -> Z -> Z -> Alpha.alphaSeparator := sep_at w h chs.

(** The [n] pixels that end a row, with the bytes each stream gets. *)
Lemma run_pixels_split (n : nat) :
  forall (i : Z) (px rest wr : list byte) (y : Z),
    0 <= y < h -> 0 <= i -> i + Z.of_nat n = w ->
    List.length px = (n * S cn)%nat ->
    forall fuel,
      ReadAll (Alpha.Read b) (n + fuel) (sep (px ++ rest) wr y (1 + i * (chs + 1))) =
      prepend (fst (split_pixels n cn px))
              (ReadAll (Alpha.Read b) fuel
                       (sep rest (wr ++ snd (split_pixels n cn px)) (y + 1) 0)).
Proof.
  induction n as [|n IH]; intros i px rest wr y Hy Hi Hw Hpx fuel.
  - destruct px; [|discriminate]. cbn [split_pixels fst snd].
    rewrite prepend_nil, app_nil_r. cbn [app Nat.add].
    f_equal. unfold sep, sep_at. f_equal. fold stride. unfold stride. lia.
  - destruct (split_pixel wn hn cn n px Hpx) as (p1 & al & px' & -> & Hp1 & Hpx').
    rewrite split_pixels_cons by exact Hp1. cbn [fst snd].
    cbn [Nat.add]. rewrite <- app_assoc. cbn [app].
    rewrite (ReadAll_more _ _ _ _ _
               (sep_Read_pixel wn hn cn b chs_small stride_small image_small
                               buf_nonempty buf_holds_pixel
                               p1 al (px' ++ rest) wr y i Hy ltac:(unfold w in *; lia)
                               ltac:(unfold len; lia))).
    fold w h chs. fold sep.
    rewrite (IH (i + 1) px' rest (wr ++ [al]) y Hy ltac:(lia) ltac:(lia) Hpx').
    rewrite prepend_app, <- app_assoc. reflexivity.
Qed.

(** [m] rows from the start of row [y], with rows to spare or not. *)
Lemma run_rows_split (m : nat) :
  forall (y : Z) (d rest wr : list byte),
    0 <= y -> y + Z.of_nat m <= h ->
    List.length d = (m * S (wn * S cn))%nat ->
    forall fuel,
      ReadAll (Alpha.Read b) (m * S wn + fuel) (sep (d ++ rest) wr y 0) =
      prepend (fst (split_rows m wn cn d))
              (ReadAll (Alpha.Read b) fuel
                       (sep rest (wr ++ snd (split_rows m wn cn d)) (y + Z.of_nat m) 0)).
Proof.
  induction m as [|m IH]; intros y d rest wr Hy Hh Hd fuel.
  - destruct d; [|discriminate]. cbn [split_rows fst snd].
    rewrite prepend_nil, app_nil_r. cbn [app Nat.mul Nat.add].
    f_equal. unfold sep, sep_at. f_equal. lia.
  - destruct (split_row wn hn cn m d Hd) as (f & px & d' & -> & Hpx & Hd').
    rewrite split_rows_cons by exact Hpx. cbn [fst snd].
    replace (S m * S wn + fuel)%nat with (S (wn + (m * S wn + fuel)))%nat by lia.
    cbn [app]. rewrite <- app_assoc.
    rewrite (ReadAll_more _ _ _ _ _
               (sep_Read_filter wn hn cn b chs_small stride_small image_small
                                buf_nonempty buf_holds_pixel
                                f (px ++ d' ++ rest) wr y ltac:(unfold h in *; lia))).
    fold w h chs. fold sep.
    change 1 with (1 + 0 * (chs + 1)) at 1.
    rewrite (run_pixels_split wn 0 px (d' ++ rest) (wr ++ [f]) y ltac:(lia) ltac:(lia)
               ltac:(unfold w; lia) Hpx).
    rewrite (IH (y + 1) d' rest ((wr ++ [f]) ++ snd (split_pixels wn cn px))
               ltac:(lia) ltac:(lia) Hd').
    rewrite !prepend_app. cbn [app]. rewrite <- !app_assoc. cbn [app].
    replace (y + 1 + Z.of_nat m) with (y + Z.of_nat (S m)) by lia.
    reflexivity.
Qed.

(** At the start of a row with nothing left upstream. *)
Lemma sep_Read_exhausted (wr : list byte) (y : Z) :
  0 <= y < h ->
  Alpha.Read b (sep [] wr y 0) = Done ([], Some EOF) (sep [] wr y 0).
Proof.
  intros Hy.
  assert (Hc : 0 <= chs) by (unfold chs; lia).
  assert (Hs : 0 < stride) by (unfold stride, w; nia).
  unfold Alpha.Read.
  destruct (Z.eqb_spec (slen b) 0); [contradiction|].
  unfold bind at 1. unfold get at 1. cbv beta iota.
  unfold sep, sep_at. fold stride.
  cbn [Alpha.h Alpha.stride Alpha.off Alpha.chs Alpha.rc].
  assert (Hlt : y * stride + 0 < h * stride) by (clearbody stride chs h w; nia).
  rewrite int_small by (clearbody stride chs h w; nia).
  destruct (Z.geb_spec (y * stride + 0) (h * stride)); [lia|].
  destruct (Z.eqb_spec stride 0); [lia|].
  rewrite Z.rem_mod_nonneg by (clearbody stride chs h w; nia).
  replace ((y * stride + 0) mod stride) with 0
    by (rewrite Z.add_0_r, Z.mod_mul by lia; reflexivity).
  cbn [Z.eqb]. unfold Alpha.readPaletteIndex.
  destruct (Z.gtb_spec 1 (scap b)); [lia|].
  reflexivity.
Qed.

End Streams.

(** X16: read to its end, the separator over the scanlines [D] of an image
    of [h] rows of [w] pixels with [chs] colour channels takes exactly the
    bytes of the image from upstream and leaves what follows them; the
    caller gets, row by row, the filter byte and the colour samples, the
    alpha writer gets, row by row, the filter byte and the alpha samples:
    [h * (1 + w * chs)] and [h * (1 + w)] bytes, whatever the size of the
    caller's buffer once it holds a pixel. *)
Theorem separator_streams_byte_for_byte
        (w h chs : Z) (D rest : list byte) (b : slice) (fuel : nat) :
  0 <= w < 2 ^ 32 -> 0 <= h -> 0 <= chs < 2 ^ 28 ->
  h * (1 + (chs + 1) * w) < 2 ^ 62 ->
  len D = h * (1 + (chs + 1) * w) ->
  slen b <> 0 -> chs + 1 <= scap b ->
  h * (w + 1) < Z.of_nat fuel ->
  exists a',
    ReadAll (Alpha.Read b) fuel (Alpha.newAlphaSeparator (D ++ rest) w h chs) =
    Done (fst (split_rows (Z.to_nat h) (Z.to_nat w) (Z.to_nat chs) D), None) a' /\
    Alpha.writer a' = snd (split_rows (Z.to_nat h) (Z.to_nat w) (Z.to_nat chs) D) /\
    Alpha.rc a' = rest /\
    Alpha.off a' = h * (1 + (chs + 1) * w) /\
    len (fst (split_rows (Z.to_nat h) (Z.to_nat w) (Z.to_nat chs) D)) = h * (1 + w * chs) /\
    len (snd (split_rows (Z.to_nat h) (Z.to_nat w) (Z.to_nat chs) D)) = h * (1 + w).
Proof.
  intros Hw Hh Hc Hsmall HD Hb Hcap Hfuel.
  set (wn := Z.to_nat w). set (hn := Z.to_nat h). set (cn := Z.to_nat chs).
  assert (Ew : Z.of_nat wn = w) by (unfold wn; lia).
  assert (Eh : Z.of_nat hn = h) by (unfold hn; lia).
  assert (Ec : Z.of_nat cn = chs) by (unfold cn; lia).
  assert (HDn : List.length D = (hn * S (wn * S cn))%nat) by (unfold len in HD; nia).
  pose proof (run_rows_split wn hn cn b) as Hrun.
  pose proof (sep_Read_end wn hn cn b) as Hend.
  rewrite Ew, Eh, Ec in Hrun, Hend.
  specialize (Hrun ltac:(lia) ltac:(nia) Hsmall Hb Hcap hn 0 D rest []
                   ltac:(lia) ltac:(lia) HDn).
  specialize (Hend Hsmall Hb).
  rewrite newAlphaSeparator_sep by lia.
  replace fuel with (hn * S wn + S (fuel - hn * S wn - 1))%nat by nia.
  rewrite Hrun. replace (0 + Z.of_nat hn) with h by lia.
  rewrite (ReadAll_end _ _ _ _ _ (Hend rest _)).
  cbn [prepend app]. rewrite app_nil_r.
  eexists. split; [reflexivity|].
  destruct (split_rows_length wn cn hn D HDn) as [L1 L2].
  unfold sep_at. cbn [Alpha.writer Alpha.rc Alpha.off].
  split; [reflexivity|]. split; [reflexivity|]. split; [lia|].
  unfold len. rewrite L1, L2. split; nia.
Qed.

Lemma separator_streams_byte_for_byte_witness :
  exists a',
    ReadAll (Alpha.Read (mkSlice 8 8)) 9
            (Alpha.newAlphaSeparator
               ([x01; x0a; x0b; x0c; xf0; x1a; x1b; x1c; xf1;
                 x02; x2a; x2b; x2c; xf2; x3a; x3b; x3c; xf3] ++ [x99]) 2 2 3) =
    Done (fst (split_rows (Z.to_nat 2) (Z.to_nat 2) (Z.to_nat 3)
                 [x01; x0a; x0b; x0c; xf0; x1a; x1b; x1c; xf1;
                  x02; x2a; x2b; x2c; xf2; x3a; x3b; x3c; xf3]), None) a' /\
    Alpha.writer a' =
      snd (split_rows (Z.to_nat 2) (Z.to_nat 2) (Z.to_nat 3)
             [x01; x0a; x0b; x0c; xf0; x1a; x1b; x1c; xf1;
              x02; x2a; x2b; x2c; xf2; x3a; x3b; x3c; xf3]) /\
    Alpha.rc a' = [x99] /\
    Alpha.off a' = 2 * (1 + (3 + 1) * 2) /\
    len (fst (split_rows (Z.to_nat 2) (Z.to_nat 2) (Z.to_nat 3)
                [x01; x0a; x0b; x0c; xf0; x1a; x1b; x1c; xf1;
                 x02; x2a; x2b; x2c; xf2; x3a; x3b; x3c; xf3])) = 2 * (1 + 2 * 3) /\
    len (snd (split_rows (Z.to_nat 2) (Z.to_nat 2) (Z.to_nat 3)
                [x01; x0a; x0b; x0c; xf0; x1a; x1b; x1c; xf1;
                 x02; x2a; x2b; x2c; xf2; x3a; x3b; x3c; xf3])) = 2 * (1 + 2).
Proof.
  apply (separator_streams_byte_for_byte 2 2 3
           [x01; x0a; x0b; x0c; xf0; x1a; x1b; x1c; xf1;
            x02; x2a; x2b; x2c; xf2; x3a; x3b; x3c; xf3] [x99] (mkSlice 8 8) 9).
  - split; [discriminate|reflexivity].
  - discriminate.
  - split; [discriminate|reflexivity].
  - reflexivity.
  - reflexivity.
  - discriminate.
  - cbv. discriminate.
  - reflexivity.
Defined.

Example split_rows_sample :
  split_rows 2 2 3 [x01; x0a; x0b; x0c; xf0; x1a; x1b; x1c; xf1;
                    x02; x2a; x2b; x2c; xf2; x3a; x3b; x3c; xf3] =
  ([x01; x0a; x0b; x0c; x1a; x1b; x1c; x02; x2a; x2b; x2c; x3a; x3b; x3c],
   [x01; xf0; xf1; x02; xf2; xf3]).
Proof. reflexivity. Qed.

(** X17: when upstream ends after [m] complete rows of an image declared
    with more rows, reading the separator to its end gives the two streams
    of those [m] rows and no error: the end of upstream at the start of a
    row is taken as the end of the image, with the offset still short of
    [h * stride]. *)
Theorem missing_rows_end_silently
        (w h chs : Z) (m : nat) (D : list byte) (b : slice) (fuel : nat) :
  0 <= w < 2 ^ 32 -> 0 <= chs < 2 ^ 28 ->
  Z.of_nat m < h ->
  h * (1 + (chs + 1) * w) < 2 ^ 62 ->
  len D = Z.of_nat m * (1 + (chs + 1) * w) ->
  slen b <> 0 -> chs + 1 <= scap b ->
  Z.of_nat m * (w + 1) < Z.of_nat fuel ->
  exists a',
    ReadAll (Alpha.Read b) fuel (Alpha.newAlphaSeparator D w h chs) =
    Done (fst (split_rows m (Z.to_nat w) (Z.to_nat chs) D), None) a' /\
    Alpha.writer a' = snd (split_rows m (Z.to_nat w) (Z.to_nat chs) D) /\
    Alpha.off a' = Z.of_nat m * (1 + (chs + 1) * w) /\
    Alpha.off a' < Alpha.h a' * Alpha.stride a'.
Proof.
  intros Hw Hc Hm Hsmall HD Hb Hcap Hfuel.
  set (wn := Z.to_nat w). set (hn := Z.to_nat h). set (cn := Z.to_nat chs).
  assert (Ew : Z.of_nat wn = w) by (unfold wn; lia).
  assert (Eh : Z.of_nat hn = h) by (unfold hn; lia).
  assert (Ec : Z.of_nat cn = chs) by (unfold cn; lia).
  assert (HDn : List.length D = (m * S (wn * S cn))%nat) by (unfold len in HD; nia).
  pose proof (run_rows_split wn hn cn b) as Hrun.
  pose proof (sep_Read_exhausted wn hn cn b) as Hend.
  rewrite Ew, Eh, Ec in Hrun, Hend.
  specialize (Hrun ltac:(lia) ltac:(nia) Hsmall Hb Hcap m 0 D [] []
                   ltac:(lia) ltac:(lia) HDn).
  rewrite newAlphaSeparator_sep by lia.
  replace fuel with (m * S wn + S (fuel - m * S wn - 1))%nat by nia.
  rewrite app_nil_r in Hrun. rewrite Hrun.
  rewrite (ReadAll_end _ _ _ _ _ (Hend Hsmall Hb Hcap _ (0 + Z.of_nat m) ltac:(lia))).
  cbn [prepend app]. rewrite app_nil_r.
  eexists. split; [reflexivity|].
  unfold sep_at. cbn [Alpha.writer Alpha.off Alpha.h Alpha.stride].
  split; [reflexivity|]. split; [lia|]. nia.
Qed.

Lemma missing_rows_end_silently_witness :
  exists a',
    ReadAll (Alpha.Read (mkSlice 8 8)) 3 (Alpha.newAlphaSeparator [x02; x0a; xff] 1 5 1) =
    Done (fst (split_rows 1 (Z.to_nat 1) (Z.to_nat 1) [x02; x0a; xff]), None) a' /\
    Alpha.writer a' = snd (split_rows 1 (Z.to_nat 1) (Z.to_nat 1) [x02; x0a; xff]) /\
    Alpha.off a' = Z.of_nat 1 * (1 + (1 + 1) * 1) /\
    Alpha.off a' < Alpha.h a' * Alpha.stride a'.
Proof.
  apply (missing_rows_end_silently 1 5 1 1 [x02; x0a; xff] (mkSlice 8 8) 3).
  - split; [discriminate|reflexivity].
  - split; [discriminate|reflexivity].
  - reflexivity.
  - reflexivity.
  - reflexivity.
  - discriminate.
  - cbv. discriminate.
  - reflexivity.
Defined.

(** ** The separator at its limits *)

(** X18: inside a row the separator slices the caller's buffer up to what
    is left of the current pixel, alpha sample included; a buffer whose
    capacity is below that makes [Read] panic with a slice-bounds error,
    before anything is read from upstream. *)
Theorem Read_panics_on_buffer_below_pixel (a : Alpha.alphaSeparator) (b : slice) :
  wf a -> slen b <> 0 ->
  Alpha.off a < Alpha.h a * Alpha.stride a ->
  Alpha.off a mod Alpha.stride a <> 0 ->
  scap b < Alpha.chs a + 1 -
           (Alpha.off a mod Alpha.stride a - 1) mod (Alpha.chs a + 1) ->
  Alpha.Read b a =
  Panic (SliceBoundsOutOfRange
           (Alpha.chs a + 1 - (Alpha.off a mod Alpha.stride a - 1) mod (Alpha.chs a + 1))
           (scap b)).
Proof.
  intros Hwf Hb Hlt Hj Hcap.
  destruct (Read_inside_row a b Hwf Hb Hlt Hj) as [_ ->].
  destruct (Z.gtb_spec
              (Alpha.chs a + 1 - (Alpha.off a mod Alpha.stride a - 1) mod (Alpha.chs a + 1))
              (scap b)); [reflexivity|lia].
Qed.

Lemma Read_panics_on_buffer_below_pixel_witness :
  Alpha.Read (mkSlice 2 2) one_pixel_rgba_in_row =
  Panic (SliceBoundsOutOfRange
           (Alpha.chs one_pixel_rgba_in_row + 1 -
            (Alpha.off one_pixel_rgba_in_row mod Alpha.stride one_pixel_rgba_in_row - 1)
              mod (Alpha.chs one_pixel_rgba_in_row + 1))
           (scap (mkSlice 2 2))).
Proof.
  apply (Read_panics_on_buffer_below_pixel one_pixel_rgba_in_row (mkSlice 2 2)).
  - cbv. repeat split; discriminate || reflexivity.
  - discriminate.
  - reflexivity.
  - discriminate.
  - reflexivity.
Defined.

(** X19: when upstream ends inside a pixel, [Read] hands all the bytes
    that were left to the caller, with [io.ErrUnexpectedEOF] (or [io.EOF]
    when none was left), advances the offset by their number and writes
    nothing to the alpha writer. *)
Theorem Read_upstream_ends_inside_pixel (a : Alpha.alphaSeparator) (b : slice) :
  wf a -> slen b <> 0 ->
  Alpha.off a < Alpha.h a * Alpha.stride a ->
  Alpha.off a mod Alpha.stride a <> 0 ->
  Alpha.chs a + 1 - (Alpha.off a mod Alpha.stride a - 1) mod (Alpha.chs a + 1) <= scap b ->
  len (Alpha.rc a) <
    Alpha.chs a + 1 - (Alpha.off a mod Alpha.stride a - 1) mod (Alpha.chs a + 1) ->
  Alpha.Read b a =
  Done (Alpha.rc a,
        Some (match Alpha.rc a with [] => EOF | _ => ErrUnexpectedEOF end))
       (Alpha.mk [] (Alpha.w a) (Alpha.h a) (Alpha.chs a) (Alpha.stride a)
                 (Alpha.writer a) (Alpha.off a + len (Alpha.rc a))).
Proof.
  intros Hwf Hb Hlt Hj Hcap Hshort.
  destruct (Read_inside_row a b Hwf Hb Hlt Hj) as [Hc ->].
  destruct (Z.gtb_spec
              (Alpha.chs a + 1 - (Alpha.off a mod Alpha.stride a - 1) mod (Alpha.chs a + 1))
              (scap b)); [lia|].
  rewrite ReadFull_short by exact Hshort.
  unfold bind, modify, ret.
  cbn [Alpha.rc Alpha.w Alpha.h Alpha.chs Alpha.stride Alpha.writer Alpha.off
       Alpha.set_rc Alpha.set_off].
  destruct Hwf as (Hchs & _ & Ho & _). pose proof (len_nonneg (Alpha.rc a)).
  rewrite int_small by lia. reflexivity.
Qed.

Lemma Read_upstream_ends_inside_pixel_witness :
  Alpha.Read (mkSlice 8 8) (Alpha.mk [x0a; x0b] 1 1 3 5 [x00] 1) =
  Done (Alpha.rc (Alpha.mk [x0a; x0b] 1 1 3 5 [x00] 1),
        Some (match Alpha.rc (Alpha.mk [x0a; x0b] 1 1 3 5 [x00] 1) with
              | [] => EOF | _ => ErrUnexpectedEOF end))
       (Alpha.mk [] (Alpha.w (Alpha.mk [x0a; x0b] 1 1 3 5 [x00] 1))
                 (Alpha.h (Alpha.mk [x0a; x0b] 1 1 3 5 [x00] 1))
                 (Alpha.chs (Alpha.mk [x0a; x0b] 1 1 3 5 [x00] 1))
                 (Alpha.stride (Alpha.mk [x0a; x0b] 1 1 3 5 [x00] 1))
                 (Alpha.writer (Alpha.mk [x0a; x0b] 1 1 3 5 [x00] 1))
                 (Alpha.off (Alpha.mk [x0a; x0b] 1 1 3 5 [x00] 1) +
                  len (Alpha.rc (Alpha.mk [x0a; x0b] 1 1 3 5 [x00] 1)))).
Proof.
  apply (Read_upstream_ends_inside_pixel (Alpha.mk [x0a; x0b] 1 1 3 5 [x00] 1) (mkSlice 8 8)).
  - cbv. repeat split; discriminate || reflexivity.
  - discriminate.
  - reflexivity.
  - discriminate.
  - cbv. discriminate.
  - reflexivity.
Defined.

(** ** Whole images *)

(** X20: for an image of colour type 0 or 2 whose IDAT chunks are
    non-empty, follow one another directly and are closed by IEND at the
    end of the input, the colour stream of the descriptor, read to its end
    through a buffer of any positive size, is the concatenation of the
    IDAT payloads, and no error is reported. *)
Theorem contiguous_image_data_passes_through
        (zr : zlibNewReader) (w h : Z) (bpc ct : byte)
        (k1 k kend : crc) (payload : list byte) (ps : list (list byte * crc)) (n : Z) :
  0 <= w < 2 ^ 32 -> 0 <= h < 2 ^ 32 -> byte_to_Z bpc <= 8 ->
  byte_to_Z ct = 0 \/ byte_to_Z ct = 2 ->
  0 < n ->
  0 < len payload < 2 ^ 32 ->
  Forall (fun c => 0 < len (fst c) < 2 ^ 32) ps ->
  exists j,
    forall fuel,
      (j <= fuel)%nat ->
      colour_stream_bytes zr
        (sig_bytes ++ frame "IHDR" (ihdr_fields w h bpc ct x00 x00 x00) k1 ++
         idat_frames ((payload, k) :: ps) ++ frame "IEND" [] kend) n fuel =
      Some (if byte_to_Z ct =? 0 then "DeviceGray"%string else "DeviceRGB"%string,
            payload ++ concat (map fst ps), None).
Proof.
  intros Hw Hh Hbpc Hct Hn HL Hall.
  cbn [idat_frames]. rewrite <- app_assoc.
  destruct (parseUntil_header_data w h bpc ct k1 k payload
              (idat_frames ps ++ frame "IEND" [] kend) false Hw Hh Hbpc ltac:(lia))
    as (p & HU & Hs & Hrd & Hr & _ & _ & _ & C & _).
  destruct (contiguous_idat_pass_through n ps Hn payload k kend p Hall Hs Hrd HL Hr)
    as (j & p' & Hrun).
  exists j. intros fuel Hf. unfold colour_stream_bytes.
  rewrite (parsepngstream_raw zr _ false (mkFpdf None "1.3") p HU eq_refl)
    by (rewrite C; destruct Hct; auto).
  cbn [info_r info_cs]. rewrite (Hrun fuel Hf). rewrite C.
  destruct Hct as [E|E]; rewrite E; reflexivity.
Qed.

Lemma contiguous_image_data_passes_through_witness :
  exists j,
    forall fuel,
      (j <= fuel)%nat ->
      colour_stream_bytes (fun p => (inl [], p))
        (sig_bytes ++ frame "IHDR" (ihdr_fields 2 1 x08 x00 x00 x00 x00) (x01, x02, x03, x04) ++
         idat_frames (([x01; x02; x03], (x05, x06, x07, x08)) ::
                      [([x04; x05], (x09, x0a, x0b, x0c))]) ++
         frame "IEND" [] (x0d, x0e, x0f, x10)) 2 fuel =
      Some (if byte_to_Z x00 =? 0 then "DeviceGray"%string else "DeviceRGB"%string,
            [x01; x02; x03] ++ concat (map fst [([x04; x05], (x09, x0a, x0b, x0c))]), None).
Proof.
  apply (contiguous_image_data_passes_through (fun p => (inl [], p)) 2 1 x08 x00
           (x01, x02, x03, x04) (x05, x06, x07, x08) (x0d, x0e, x0f, x10)
           [x01; x02; x03] [([x04; x05], (x09, x0a, x0b, x0c))] 2).
  - split; [discriminate|reflexivity].
  - split; [discriminate|reflexivity].
  - cbv. discriminate.
  - left. reflexivity.
  - reflexivity.
  - split; reflexivity.
  - constructor; [split; reflexivity|constructor].
Defined.

(** The descriptor of an image with alpha channel. *)
Lemma parsepngstream_alpha (zr : zlibNewReader) (rd : Reader)
      (readdpi : bool) (f : Fpdf) (p : Png.pngStream) (stm : Reader) :
  Png.parseUntil stateData (Png.new rd readdpi) = Done None p ->
  err f = None ->
  byte_to_Z (Png.ct p) = 4 \/ byte_to_Z (Png.ct p) = 6 ->
  fst (zr p) = inl stm ->
  parsepngstream zr rd readdpi f =
  Done (Some (mkInfo (Png.w p) (Png.h p)
                (if byte_to_Z (Png.ct p) =? 4 then "DeviceGray" else "DeviceRGB")
                (byte_to_Z (Png.bpc p)) "FlateDecode"
                ("/Predictor 15 /Colors " ++
                 sprintf_d (if byte_to_Z (Png.ct p) =? 4 then 1 else 3) ++
                 " /BitsPerComponent " ++ sprintf_d (byte_to_Z (Png.bpc p)) ++
                 " /Columns " ++ sprintf_d (Png.w p))
                (Png.pal p) (Png.trns p)
                (Recompressed (Alpha.newAlphaSeparator stm (Png.w p) (Png.h p)
                                                       (channels (Png.ct p))))
                true true [stmClose; astmClose; cstmClose]))
       (mkFpdf None (if String.ltb (pdfVersion f) "1.4" then "1.4" else pdfVersion f)).
Proof.
  intros HU Hf Hct Hz. unfold parsepngstream. rewrite HU.
  unfold bind, pngColorSpace, get, modify, ret.
  destruct f as [e v]. cbn [err] in Hf. subst e.
  destruct Hct as [E|E]; rewrite E;
    cbn [Z.eqb orb Pos.eqb err Z.geb Z.compare Pos.compare Pos.compare_cont
         String.eqb Ascii.eqb Bool.eqb andb];
    destruct (zr p) as [[stm0|e0] p'] eqn:Ez; cbn [fst] in Hz; inversion Hz; subst;
    cbn [info_w info_h info_cs info_bpc info_f info_dp info_pal info_trns pdfVersion err];
    destruct (String.ltb v "1.4"); reflexivity.
Qed.

(** X21: the whole path of an image with alpha channel.  For an input of
    colour type 4 or 6 whose data the inflating reader turns into the
    scanlines [D] of the declared [h] rows of [w] pixels, the descriptor
    carries the recompressor and the mask; read to its end, the
    recompressor gives the deflated colour stream, and the flush hook then
    exposes the deflated mask stream, each byte for byte the filter bytes
    and samples of [D] that belong to it. *)
Theorem alpha_image_is_split
        (zr : zlibNewReader) (deflate : list byte -> list byte)
        (w h : Z) (bpc ct : byte) (k1 k2 : crc) (payload rest D : list byte)
        (readdpi : bool) (f : Fpdf) (b : slice) (fuel : nat) :
  0 <= w < 2 ^ 32 -> 0 <= h < 2 ^ 32 -> byte_to_Z bpc <= 8 ->
  len payload < 2 ^ 32 ->
  byte_to_Z ct = 4 \/ byte_to_Z ct = 6 ->
  err f = None ->
  (forall p, fst (zr p) = inl D) ->
  h * (1 + (channels ct + 1) * w) < 2 ^ 62 ->
  len D = h * (1 + (channels ct + 1) * w) ->
  slen b <> 0 -> channels ct + 1 <= scap b ->
  h * (w + 1) < Z.of_nat fuel ->
  exists info astm a' f',
    parsepngstream zr
      (sig_bytes ++ frame "IHDR" (ihdr_fields w h bpc ct x00 x00 x00) k1 ++
       frame "IDAT" payload k2 ++ rest) readdpi f = Done (Some info) f' /\
    err f' = None /\
    info_w info = w /\ info_h info = h /\
    info_cs info = (if byte_to_Z ct =? 4 then "DeviceGray"%string else "DeviceRGB"%string) /\
    info_smask info = true /\ info_flush info = true /\
    info_r info = Recompressed astm /\
    compressor_readAll deflate fuel b astm =
    Done (deflate (fst (split_rows (Z.to_nat h) (Z.to_nat w) (Z.to_nat (channels ct)) D)),
          None) a' /\
    Alpha_Flush deflate a' =
    deflate (snd (split_rows (Z.to_nat h) (Z.to_nat w) (Z.to_nat (channels ct)) D)).
Proof.
  intros Hw Hh Hbpc HL Hct Hf Hz Hsmall HD Hb Hcap Hfuel.
  destruct (parseUntil_header_data w h bpc ct k1 k2 payload rest readdpi Hw Hh Hbpc HL)
    as (p & HU & _ & _ & _ & W & H & _ & C & _).
  assert (Hchs : 0 <= channels ct < 2 ^ 28)
    by (unfold channels; destruct (byte_to_Z ct =? 4); lia).
  pose proof (run_rows_split (Z.to_nat w) (Z.to_nat h) (Z.to_nat (channels ct)) b) as Hrun.
  pose proof (sep_Read_end (Z.to_nat w) (Z.to_nat h) (Z.to_nat (channels ct)) b) as Hend.
  rewrite !Z2Nat.id in Hrun, Hend by lia.
  assert (HDn : List.length D =
                (Z.to_nat h * S (Z.to_nat w * S (Z.to_nat (channels ct))))%nat)
    by (unfold len in HD; nia).
  specialize (Hrun ltac:(lia) ltac:(nia) Hsmall Hb Hcap (Z.to_nat h) 0 D [] []
                   ltac:(lia) ltac:(lia) HDn).
  rewrite app_nil_r in Hrun.
  eexists. eexists. eexists. eexists. split.
  - apply (parsepngstream_alpha zr _ readdpi f p D HU Hf); [rewrite C; exact Hct|apply Hz].
  - cbn [err info_w info_h info_cs info_smask info_flush info_r].
    rewrite W, H, C.
    split; [reflexivity|]. split; [reflexivity|]. split; [reflexivity|].
    split; [reflexivity|]. split; [reflexivity|]. split; [reflexivity|].
    split; [reflexivity|].
    unfold compressor_readAll, bind.
    rewrite newAlphaSeparator_sep by lia.
    replace fuel with (Z.to_nat h * S (Z.to_nat w) +
                       S (fuel - Z.to_nat h * S (Z.to_nat w) - 1))%nat by nia.
    rewrite Hrun. replace (0 + Z.of_nat (Z.to_nat h)) with h by lia.
    rewrite (ReadAll_end _ _ _ _ _ (Hend Hsmall Hb [] _)).
    cbn [prepend app]. rewrite app_nil_r.
    split; reflexivity.
Qed.

Lemma alpha_image_is_split_witness :
  exists info astm a' f',
    parsepngstream (fun p => (inl [x02; x0a; xff], p))
      (sig_bytes ++ frame "IHDR" (ihdr_fields 1 1 x08 x04 x00 x00 x00) (x01, x02, x03, x04) ++
       frame "IDAT" [x78; x01] (x05, x06, x07, x08) ++ []) false (mkFpdf None "1.3") =
    Done (Some info) f' /\
    err f' = None /\
    info_w info = 1 /\ info_h info = 1 /\
    info_cs info = (if byte_to_Z x04 =? 4 then "DeviceGray"%string else "DeviceRGB"%string) /\
    info_smask info = true /\ info_flush info = true /\
    info_r info = Recompressed astm /\
    compressor_readAll stored 3 (mkSlice 8 8) astm =
    Done (stored (fst (split_rows (Z.to_nat 1) (Z.to_nat 1) (Z.to_nat (channels x04))
                         [x02; x0a; xff])), None) a' /\
    Alpha_Flush stored a' =
    stored (snd (split_rows (Z.to_nat 1) (Z.to_nat 1) (Z.to_nat (channels x04))
                   [x02; x0a; xff])).
Proof.
  apply (alpha_image_is_split (fun p => (inl [x02; x0a; xff], p)) stored 1 1 x08 x04
           (x01, x02, x03, x04) (x05, x06, x07, x08) [x78; x01] [] [x02; x0a; xff]
           false (mkFpdf None "1.3") (mkSlice 8 8) 3).
  - split; [discriminate|reflexivity].
  - split; [discriminate|reflexivity].
  - cbv. discriminate.
  - reflexivity.
  - left. reflexivity.
  - reflexivity.
  - reflexivity.
  - reflexivity.
  - reflexivity.
  - discriminate.
  - cbv. discriminate.
  - reflexivity.
Defined.

(** ** The contract of [Read] *)






(** ** An image without data *)

Lemma chunk_IEND (p : Png.pngStream) (k : crc) (rest : list byte) :
  Png.r p = frame "IEND" [] k ++ rest ->
  exists p',
    Png.parseChunk p = Done None p' /\
    Png.state p' = stateEnd /\ Png.readable p' = 0 /\ Png.r p' = rest /\ same_meta p p'.
Proof.
  intros Hr.
  destruct (parseChunk_frame p "IEND" [] k rest ltac:(cbv; reflexivity) eq_refl Hr)
    as (p1 & HE & Hr1 & Hrd1 & Hs1 & Hm1).
  rewrite HE. unfold dispatch. cbn [String.eqb Ascii.eqb Bool.eqb].
  unfold bind at 1. unfold bind at 1. cbn [modify ret guard].
  cbn [app] in Hr1.
  destruct (next_crc (Png.set_state stateEnd p1) k rest Hr1) as (p2 & HN & Hr2 & Hio).
  unfold bind. rewrite HN. exists p2. split; [reflexivity|].
  pose proof (only_io_same_meta _ _ Hio) as M2.
  destruct Hio as (S2 & R2 & _).
  cbn [Png.state Png.readable Png.set_state] in S2, R2.
  split; [exact S2|]. split; [rewrite R2; exact Hrd1|]. split; [exact Hr2|].
  eapply same_meta_trans; [exact Hm1|].
  eapply same_meta_trans; [|exact M2]. unfold same_meta. cbn. repeat split.
Qed.

(** X23: an image of colour type 0 or 2 whose header is directly followed
    by IEND, with no IDAT chunk at all, is described without error; the
    colour stream of the descriptor is the chunk reader in its end state,
    and every read of it gives end of stream and leaves it as it is. *)
Theorem image_without_data_is_described
        (zr : zlibNewReader) (w h : Z) (bpc ct : byte) (k1 k2 : crc)
        (rest : list byte) (readdpi : bool) (f : Fpdf) (n : Z) :
  0 <= w < 2 ^ 32 -> 0 <= h < 2 ^ 32 -> byte_to_Z bpc <= 8 ->
  byte_to_Z ct = 0 \/ byte_to_Z ct = 2 ->
  err f = None ->
  exists info p,
    parsepngstream zr
      (sig_bytes ++ frame "IHDR" (ihdr_fields w h bpc ct x00 x00 x00) k1 ++
       frame "IEND" [] k2 ++ rest) readdpi f = Done (Some info) f /\
    info_w info = w /\ info_h info = h /\
    info_r info = RawIDAT p /\
    Png.state p = stateEnd /\ Png.r p = rest /\
    Png.Read n p = Done ([], Some EOF) p.
Proof.
  intros Hw Hh Hbpc Hct Hf.
  destruct (parseUntil_fresh
              (frame "IHDR" (ihdr_fields w h bpc ct x00 x00 x00) k1 ++
               frame "IEND" [] k2 ++ rest) readdpi stateData)
    as (p1 & HU & Hr1 & Hs1 & _).
  set (fuel := S (List.length (frame "IHDR" (ihdr_fields w h bpc ct x00 x00 x00) k1 ++
                               frame "IEND" [] k2 ++ rest))) in HU.
  assert (Hf1 : len (Png.r p1) < Z.of_nat fuel) by (rewrite Hr1; unfold len, fuel; lia).
  clearbody fuel.
  destruct (chunk_IHDR p1 w h bpc ct k1 _ Hw Hh Hbpc Hr1)
    as (p2 & HE2 & Hs2 & Hr2 & W2 & H2 & B2 & C2 & _).
  destruct (parseUntil_loop_step fuel stateData p1 p2 Hf1
              ltac:(rewrite Hs1; reflexivity) HE2) as (E1 & Hf2).
  destruct (chunk_IEND p2 k2 rest Hr2)
    as (p3 & HE3 & Hs3 & Hrd3 & Hr3 & (_ & _ & _ & _ & W3 & H3 & B3 & C3)).
  destruct (parseUntil_loop_step (Nat.pred fuel) stateData p2 p3 Hf2
              ltac:(rewrite Hs2; reflexivity) HE3) as (E2 & _).
  rewrite E1, E2 in HU.
  rewrite parseUntil_loop_done in HU by (rewrite Hs3; cbv; discriminate).
  assert (C : Png.ct p3 = ct) by congruence.
  eexists. exists p3. split.
  - apply (parsepngstream_raw zr _ readdpi f p3 HU Hf).
    rewrite C. destruct Hct; auto.
  - cbn [info_w info_h info_r].
    split; [congruence|]. split; [congruence|]. split; [reflexivity|].
    split; [exact Hs3|]. split; [exact Hr3|].
    unfold Png.Read, bind, get. rewrite Hs3. reflexivity.
Qed.

Lemma image_without_data_is_described_witness :
  exists info p,
    parsepngstream (fun p => (inl [], p))
      (sig_bytes ++ frame "IHDR" (ihdr_fields 2 1 x08 x00 x00 x00 x00) (x01, x02, x03, x04) ++
       frame "IEND" [] (x05, x06, x07, x08) ++ []) false (mkFpdf None "1.3") =
    Done (Some info) (mkFpdf None "1.3") /\
    info_w info = 2 /\ info_h info = 1 /\
    info_r info = RawIDAT p /\
    Png.state p = stateEnd /\ Png.r p = [] /\
    Png.Read 16 p = Done ([], Some EOF) p.
Proof.
  apply (image_without_data_is_described (fun p => (inl [], p)) 2 1 x08 x00
           (x01, x02, x03, x04) (x05, x06, x07, x08) [] false (mkFpdf None "1.3") 16).
  - split; [discriminate|reflexivity].
  - split; [discriminate|reflexivity].
  - cbv. discriminate.
  - left. reflexivity.
  - reflexivity.
Defined.
